(** * Montreal parking finder: restriction parser, availability evaluator
      and street-interval generator

    A shallow embedding of
    - [montreal_parking_finder/data/parser.py]
      ([parse_restriction], [is_parking_allowed]), and
    - [montreal_parking_finder/geo/osm.py] ([create_street_interval]),
    followed by the properties the specification states about them.

    Conventions of the embedding.
    - A Python [str] is a [string] whose characters are the code points
      0..255 (Latin-1, which covers the French of the sign descriptions);
      the classes [\d], [\s], [\w] and [str.lower] are the ones Python 3
      uses on that range.
    - A Python [int] is a [Z].
    - A function that may raise returns a [result]; [Raise e] is the
      exception leaving the function.
    - The regular expressions of the source are terms of [Re.regex], run
      by a backtracking matcher that lists the possible matches in the
      order Python's [re] explores them. *)

From Stdlib Require Import String Ascii List ZArith NArith Bool Lia.
Import ListNotations.

Set Implicit Arguments.

Local Open Scope string_scope.

(* ===================================================================== *)
(** * Exceptions *)
(* ===================================================================== *)

Inductive exn : Type := ValueError | IndexError | OverflowError.

Inductive result (A : Type) : Type :=
| Ok (a : A)
| Raise (e : exn).

Arguments Ok {A} a.
Arguments Raise {A} e.

Definition bind {A B : Type} (c : result A) (k : A -> result B) : result B :=
  match c with
  | Ok a => k a
  | Raise e => Raise e
  end.

Declare Scope result_scope.
Delimit Scope result_scope with result.
Notation "x <- c ;; k" := (bind c (fun x => k))
  (at level 61, c at next level, right associativity) : result_scope.
Notation "' p <- c ;; k" := (bind c (fun x => let p := x in k))
  (at level 61, p pattern, c at next level, right associativity) : result_scope.

(* ===================================================================== *)
(** * Python strings *)
(* ===================================================================== *)

Module PyStr.

Definition code (c : ascii) : N := N_of_ascii c.

Definition between (lo hi : N) (c : ascii) : bool :=
  ((lo <=? code c) && (code c <=? hi))%N.

(** [\d] of a [str] pattern: the decimal digits. *)
Definition isdigit (c : ascii) : bool := between 48 57 c.

(** [\s] of a [str] pattern: the characters of [str.isspace]. *)
Definition isspace (c : ascii) : bool :=
  between 9 13 c || between 28 32 c
  || (code c =? 133)%N || (code c =? 160)%N.

(** The whitespace [int] ignores around a number: the ASCII whitespace
    of C and the whitespace beyond ASCII. The separators 28..31, which
    [str.isspace] holds, are not ignored: [int] raises on them. *)
Definition int_space (c : ascii) : bool :=
  between 9 13 c || (code c =? 32)%N
  || (code c =? 133)%N || (code c =? 160)%N.

(** Alphanumeric in the sense of [str.isalnum], on code points below 256. *)
Definition isalnum (c : ascii) : bool :=
  between 48 57 c || between 65 90 c || between 97 122 c
  || (code c =? 170)%N || between 178 179 c || (code c =? 181)%N
  || between 185 186 c || between 188 190 c
  || between 192 214 c || between 216 246 c || between 248 255 c.

(** [\w] of a [str] pattern. *)
Definition isword (c : ascii) : bool := isalnum c || (code c =? 95)%N.

(** [str.lower] on one character. *)
Definition lower_char (c : ascii) : ascii :=
  if between 65 90 c
     || (between 192 222 c && negb (code c =? 215)%N)
  then ascii_of_N (code c + 32) else c.

Fixpoint lower (s : string) : string :=
  match s with
  | EmptyString => EmptyString
  | String c s' => String (lower_char c) (lower s')
  end.

(** [s.startswith(p)] *)
Definition startswith (p s : string) : bool := String.prefix p s.

(** [p in s] *)
Fixpoint contains (p s : string) : bool :=
  String.prefix p s ||
  match s with
  | EmptyString => false
  | String _ s' => contains p s'
  end.

Fixpoint drop (n : nat) (s : string) : string :=
  match n, s with
  | O, _ => s
  | S _, EmptyString => EmptyString
  | S k, String _ s' => drop k s'
  end.

Fixpoint take (n : nat) (s : string) : string :=
  match n, s with
  | O, _ => EmptyString
  | S _, EmptyString => EmptyString
  | S k, String c s' => String c (take k s')
  end.

(** [s.replace(old, new)] for a non-empty [old]: the occurrences of [old]
    are replaced from left to right, without overlap. [skip] counts the
    characters of an occurrence that are still to be stepped over. *)
Fixpoint replace_from (old new : string) (skip : nat) (s : string) : string :=
  match s with
  | EmptyString => EmptyString
  | String c s' =>
      match skip with
      | S k => replace_from old new k s'
      | O =>
          if String.prefix old s
          then new ++ replace_from old new (String.length old - 1) s'
          else String c (replace_from old new 0 s')
      end
  end.

Definition replace (old new s : string) : string := replace_from old new 0 s.

(** [s.split(sep)] for a one-character separator. *)
Fixpoint split (sep : ascii) (s : string) : list string :=
  match s with
  | EmptyString => [EmptyString]
  | String c s' =>
      if Ascii.eqb c sep then EmptyString :: split sep s'
      else match split sep s' with
           | w :: ws => String c w :: ws
           | [] => [String c EmptyString]
           end
  end.

(** [xs[i]] on a list. *)
Definition index {A : Type} (xs : list A) (i : nat) : result A :=
  match nth_error xs i with
  | Some x => Ok x
  | None => Raise IndexError
  end.

(** [s] without the whitespace [int] ignores before a number. *)
Fixpoint lstrip (s : string) : string :=
  match s with
  | String c s' => if int_space c then lstrip s' else s
  | EmptyString => EmptyString
  end.

(** [s] without the whitespace [int] ignores after a number. *)
Fixpoint rstrip (s : string) : string :=
  match s with
  | EmptyString => EmptyString
  | String c s' =>
      match rstrip s' with
      | EmptyString =>
          if int_space c then EmptyString else String c EmptyString
      | r => String c r
      end
  end.

Definition digit_value (c : ascii) : Z := Z.of_N (code c) - 48.

(** The digits of an integer literal: decimal digits, single underscores
    allowed between two digits. [after_digit] tells whether the previous
    character was a digit. *)
Fixpoint int_digits (acc : Z) (after_digit : bool) (s : string) : result Z :=
  match s with
  | EmptyString => if after_digit then Ok acc else Raise ValueError
  | String c s' =>
      if isdigit c then int_digits (10 * acc + digit_value c) true s'
      else if Ascii.eqb c "_" && after_digit then int_digits acc false s'
      else Raise ValueError
  end.

(** The number of decimal digits of [s]. *)
Fixpoint digit_count (s : string) : Z :=
  match s with
  | EmptyString => 0
  | String c s' => (if isdigit c then 1 else 0) + digit_count s'
  end.

(** [sys.get_int_max_str_digits()], which the program leaves at its
    default. *)
Definition int_max_str_digits : Z := 4300.

(** [int(s)] for a [str]: surrounding whitespace is ignored, a sign may
    come first, anything else raises [ValueError], and so does a number
    of more than 4300 digits. *)
Definition int (s : string) : result Z :=
  let s' := rstrip (lstrip s) in
  if (int_max_str_digits <? digit_count s')%Z then Raise ValueError
  else
    match s' with
    | String c d =>
        if Ascii.eqb c "+" then int_digits 0 false d
        else if Ascii.eqb c "-"
             then bind (int_digits 0 false d) (fun n => Ok (- n)%Z)
             else int_digits 0 false s'
    | EmptyString => Raise ValueError
    end.

End PyStr.

(* ===================================================================== *)
(** * Python regular expressions *)
(* ===================================================================== *)

Module Re.

Import PyStr.

(** The constructs the patterns of the parser use. A repetition always
    bears on one character class there ([\d{1,2}], [\s+], ...). *)
Inductive regex : Type :=
| Eps
| Cls (p : ascii -> bool)                         (* one character of a class *)
| Seq (r1 r2 : regex)
| Alt (r1 r2 : regex)                             (* r1|r2 *)
| Opt (r : regex)                                 (* (?:r)?, greedy *)
| Rep (p : ascii -> bool) (lo : nat) (hi : option nat)  (* greedy p{lo,hi} *)
| Grp (r : regex)                                 (* capturing group *)
| WordB                                           (* \b *)
| NotAhead (r : regex).                           (* (?!r) *)

(** A position of the match: the character before it, the text after it
    and the groups closed so far. *)
Record mstate : Type := MState {
  prev : option ascii;
  rest : string;
  caps : list string
}.

Definition start (p : option ascii) (s : string) : mstate := MState p s [].

Definition is_word_opt (c : option ascii) : bool :=
  match c with
  | Some c => isword c
  | None => false
  end.

Definition next (s : string) : option ascii :=
  match s with
  | String c _ => Some c
  | EmptyString => None
  end.

(** Greedy repetition of a class: the longest run first. *)
Fixpoint rep_cls (p : ascii -> bool) (lo : nat) (hi : option nat)
         (pv : option ascii) (s : string) : list (option ascii * string) :=
  let stop := match lo with O => [(pv, s)] | S _ => [] end in
  match hi with
  | Some O => stop
  | _ =>
      match s with
      | String c s' =>
          if p c
          then rep_cls p (Nat.pred lo) (option_map Nat.pred hi) (Some c) s' ++ stop
          else stop
      | EmptyString => stop
      end
  end.

(** The text consumed between two positions. *)
Definition consumed (before after : string) : string :=
  take (String.length before - String.length after) before.

(** All the ways [r] matches at a position, in the order a backtracking
    matcher tries them: the head of the list is the match [re] reports. *)
Fixpoint m (r : regex) (st : mstate) : list mstate :=
  match r with
  | Eps => [st]
  | Cls p =>
      match rest st with
      | String c s' => if p c then [MState (Some c) s' (caps st)] else []
      | EmptyString => []
      end
  | Seq r1 r2 => flat_map (m r2) (m r1 st)
  | Alt r1 r2 => m r1 st ++ m r2 st
  | Opt r1 => m r1 st ++ [st]
  | Rep p lo hi =>
      map (fun ps => MState (fst ps) (snd ps) (caps st))
          (rep_cls p lo hi (prev st) (rest st))
  | Grp r1 =>
      map (fun st' => MState (prev st') (rest st')
                             (caps st' ++ [consumed (rest st) (rest st')]))
          (m r1 st)
  | WordB =>
      if xorb (is_word_opt (prev st)) (is_word_opt (next (rest st)))
      then [st] else []
  | NotAhead r1 =>
      match m r1 st with
      | [] => [st]
      | _ :: _ => []
      end
  end.

(** [re.search(r, s)] seen as a truth value. *)
Fixpoint search_from (r : regex) (pv : option ascii) (s : string) : bool :=
  match m r (start pv s) with
  | _ :: _ => true
  | [] =>
      match s with
      | String c s' => search_from r (Some c) s'
      | EmptyString => false
      end
  end.

Definition search (r : regex) (s : string) : bool := search_from r None s.

(** [r.findall(s)]: the groups of the successive non-overlapping matches,
    scanning from the left. [skip] counts the characters of the last
    match that are still to be stepped over. *)
Fixpoint findall_from (r : regex) (skip : nat) (pv : option ascii)
         (s : string) : list (list string) :=
  match skip with
  | S k =>
      match s with
      | String c s' => findall_from r k (Some c) s'
      | EmptyString => []
      end
  | O =>
      match m r (start pv s) with
      | st :: _ =>
          caps st ::
          match s with
          | String c s' =>
              findall_from r
                (Nat.pred (String.length s - String.length (rest st)))
                (Some c) s'
          | EmptyString => []
          end
      | [] =>
          match s with
          | String c s' => findall_from r 0 (Some c) s'
          | EmptyString => []
          end
      end
  end.

Definition findall (r : regex) (s : string) : list (list string) :=
  findall_from r 0 None s.

(** Pattern builders. *)
Definition chr (c : ascii) : regex := Cls (Ascii.eqb c).

(** A literal character under [re.IGNORECASE], among the code points
    below 256 that a [string] holds. (Beyond them [re] also lets U+017F
    match [S] and U+0130, U+0131 match [I]; [str.lower] does not map them
    to these letters, so a month matched that way is not found by the
    lookup of the parser and its date range is skipped.) *)
Definition chr_i (c : ascii) : regex :=
  Cls (fun x => Ascii.eqb (lower_char x) (lower_char c)).

Fixpoint lit (s : string) : regex :=
  match s with
  | EmptyString => Eps
  | String c EmptyString => chr c
  | String c s' => Seq (chr c) (lit s')
  end.

Fixpoint lit_i (s : string) : regex :=
  match s with
  | EmptyString => Eps
  | String c EmptyString => chr_i c
  | String c s' => Seq (chr_i c) (lit_i s')
  end.

Fixpoint seq (rs : list regex) : regex :=
  match rs with
  | [] => Eps
  | [r] => r
  | r :: rs' => Seq r (seq rs')
  end.

Fixpoint alt (rs : list regex) : regex :=
  match rs with
  | [] => NotAhead Eps
  | [r] => r
  | r :: rs' => Alt r (alt rs')
  end.

Definition digits (lo : nat) (hi : option nat) : regex := Rep isdigit lo hi.
Definition spaces1 : regex := Rep isspace 1 None.

End Re.

(* ===================================================================== *)
(** * The restriction parser: [parse_restriction] *)
(* ===================================================================== *)

Module Parser.

Import PyStr Re.
Local Open Scope result_scope.

(** What [parse_restriction] may receive as [desc]: a cell of the
    [DESCRIPTION_RPA] column, that is a string, [None] or a NaN. *)
Inductive pyval : Type :=
| PyNone
| PyNaN
| PyStr (s : string).

(** An entry of [result['date_ranges']]. *)
Record date_range : Type := DateRange {
  start_day : Z;
  start_month : Z;
  end_day : Z;
  end_month : Z
}.

(** The dictionary [parse_restriction] returns. *)
Record restriction : Type := Restriction {
  type : option string;
  is_restricted : bool;
  time_ranges : list (string * string);
  days : list string;
  date_ranges : list date_range;
  special : option string;
  all_time : bool;
  raw_description : pyval
}.

(** The dictionary [result] as it is initialised. *)
Definition initial (desc : pyval) : restriction :=
  Restriction None false [] [] [] None false desc.

(** [not desc or pd.isna(desc)] *)
Definition is_empty (desc : pyval) : bool :=
  match desc with
  | PyNone => true
  | PyNaN => true
  | PyStr EmptyString => true
  | PyStr _ => false
  end.

(** ** Restriction type *)

(** [P\s+(\d+)\s+min] *)
Definition paid_minutes : regex :=
  seq [chr "P"; spaces1; Grp (digits 1 None); spaces1; lit "min"].

(** [P\s+(\d+)h] *)
Definition paid_hours : regex :=
  seq [chr "P"; spaces1; Grp (digits 1 None); chr "h"].

Definition is_paid (desc : string) : bool :=
  contains "PARCOMETRE" desc || search paid_minutes desc
  || search paid_hours desc.

Definition restriction_type (desc : string) : option string * bool :=
  if startswith "\P" desc then (Some "P", true)
  else if startswith "\A" desc then (Some "A", true)
  else if is_paid desc then (Some "$", false)
  else (None, false).

(** ** Time ranges *)

(** [\d{1,2}h\d{0,2}] *)
Definition clock : regex :=
  seq [digits 1 (Some 2); chr "h"; digits 0 (Some 2)].

(** [(\d{1,2}h\d{0,2})-(\d{1,2}h\d{0,2})] *)
Definition time_pattern : regex :=
  seq [Grp clock; chr "-"; Grp clock].

(** The loop over [time_matches]; unpacking a match into [start, end]
    needs exactly two groups. *)
Fixpoint time_ranges_of (matches : list (list string))
  : result (list (string * string)) :=
  match matches with
  | [] => Ok []
  | [start_; end_] :: ms =>
      rs <- time_ranges_of ms ;;
      Ok ((replace "24" "00" start_, replace "24" "00" end_) :: rs)
  | _ :: _ => Raise ValueError
  end.

(** ** Days *)

Definition day_mapping : list (string * string) :=
  [ ("LUN", "Monday"); ("LUNDI", "Monday");
    ("MAR", "Tuesday"); ("MARDI", "Tuesday");
    ("MER", "Wednesday"); ("MERCREDI", "Wednesday");
    ("JEU", "Thursday"); ("JEUDI", "Thursday");
    ("VEN", "Friday"); ("VENDREDI", "Friday");
    ("SAM", "Saturday"); ("SAMEDI", "Saturday");
    ("DIM", "Sunday"); ("DIMANCHE", "Sunday") ].

(** [r'\b' + fr_day + r'\.?(?!\w)'] *)
Definition day_token (fr_day : string) : regex :=
  seq [WordB; lit fr_day; Opt (chr "."); NotAhead (Cls isword)].

(** [x in xs] for a list of strings. *)
Definition mem (x : string) (xs : list string) : bool :=
  existsb (String.eqb x) xs.

(** The loop over [day_mapping.items()], from the days found so far. *)
Fixpoint single_days (desc : string) (mapping : list (string * string))
         (found : list string) : list string :=
  match mapping with
  | [] => found
  | (fr_day, en_day) :: mapping' =>
      single_days desc mapping'
        (if search (day_token fr_day) desc
         then (if mem en_day found then found else found ++ [en_day])
         else found)
  end.

(** [(AU|A|ET)] *)
Definition connector : regex := Grp (alt [lit "AU"; lit "A"; lit "ET"]).

(** [LUN\.?\s+(AU|A|ET)\s+<last>\.?] *)
Definition day_range (last : string) : regex :=
  seq [lit "LUN"; Opt (chr "."); spaces1; connector; spaces1;
       lit last; Opt (chr ".")].

(** The condition of one branch of the day-range test. *)
Definition has_day_range (last : string) (desc : string) : bool :=
  search (day_range last) desc || contains ("LUN A " ++ last) desc.

Definition monday_to_friday : list string :=
  ["Monday"; "Tuesday"; "Wednesday"; "Thursday"; "Friday"].
Definition monday_to_saturday : list string :=
  monday_to_friday ++ ["Saturday"].
Definition monday_to_sunday : list string :=
  monday_to_saturday ++ ["Sunday"].

Definition days_of (desc : string) : list string :=
  let found := single_days desc day_mapping [] in
  if has_day_range "VEN" desc then monday_to_friday
  else if has_day_range "SAM" desc then monday_to_saturday
  else if has_day_range "DIM" desc then monday_to_sunday
  else found.

(** ** Date ranges *)

Definition month_mapping : list (string * Z) :=
  [ ("JANVIER", 1); ("JAN", 1); ("FEVRIER", 2); ("FEV", 2);
    ("MARS", 3); ("MAR", 3); ("AVRIL", 4); ("AVR", 4); ("MAI", 5);
    ("JUIN", 6); ("JUILLET", 7); ("JUIL", 7); ("AOUT", 8);
    ("SEPTEMBRE", 9); ("SEPT", 9); ("OCTOBRE", 10); ("OCT", 10);
    ("NOVEMBRE", 11); ("NOV", 11); ("DECEMBRE", 12); ("DEC", 12) ]%Z.

(** The month names the pattern accepts, in the order of its alternation. *)
Definition month_names : list string :=
  [ "JANVIER"; "JAN"; "FEVRIER"; "FEV"; "MARS"; "AVRIL"; "AVR"; "MAI";
    "JUIN"; "JUILLET"; "JUIL"; "AOUT"; "SEPTEMBRE"; "SEPT"; "OCTOBRE";
    "OCT"; "NOVEMBRE"; "NOV"; "DECEMBRE"; "DEC" ].

Definition month_token : regex := Grp (alt (map lit_i month_names)).

(** [(\d{1,2})(?:ER|er|)?] *)
Definition day_number : list regex :=
  [Grp (digits 1 (Some 2)); Opt (alt [lit_i "ER"; lit_i "er"; Eps])].

(** The pattern [date_pattern], compiled with [re.IGNORECASE]. *)
Definition date_pattern : regex :=
  seq (day_number
       ++ [spaces1; month_token; Opt (chr_i "."); spaces1;
           Grp (alt [lit_i "AU"; lit_i "A"; lit_i "ET"]); spaces1]
       ++ day_number
       ++ [spaces1; month_token]).

(** The inner loop over [month_mapping.items()]: the last name of the
    mapping found in the matched name gives the number; 0 when none is. *)
Definition month_number (matched : string) : Z :=
  fold_left
    (fun num entry =>
       if contains (lower (fst entry)) (lower matched) then snd entry else num)
    month_mapping 0%Z.

(** One turn of the loop over [date_matches]: the range to append, if
    any. *)
Definition date_range_of (match_ : list string) : result (option date_range) :=
  match match_ with
  | [start_day; start_month_name; _; end_day; end_month_name] =>
      let start_month := month_number start_month_name in
      let end_month := month_number end_month_name in
      if ((start_month >? 0) && (end_month >? 0))%Z
      then
        sd <- int start_day ;;
        ed <- int end_day ;;
        Ok (Some (DateRange sd start_month ed end_month))
      else Ok None
  | _ => Raise ValueError
  end.

Fixpoint date_ranges_of (matches : list (list string))
  : result (list date_range) :=
  match matches with
  | [] => Ok []
  | match_ :: ms =>
      r <- date_range_of match_ ;;
      rs <- date_ranges_of ms ;;
      Ok (match r with Some dr => dr :: rs | None => rs end)
  end.

(** ** Special conditions *)

Definition special_conditions : list string :=
  [ "RESERVE"; "HANDICAP"; "TAXI"; "LIVRAISON"; "AUTOBUS";
    "DEBARCADERE"; "S3R"; "MOTOS"; "CORPS DIPLOMATIQUES";
    "SERVICE D'INCENDIE"; "VEHICULES DE LA VILLE";
    "VEHICULES MILITAIRES" ].

Definition special_of (desc : string) : option string :=
  find (fun condition => contains condition desc) special_conditions.

(** ** [parse_restriction] *)

(** The body of [parse_restriction], past the test for an empty
    description. *)
Definition parse_text (d : string) : result restriction :=
  let (ty, restricted) := restriction_type d in
  trs <- time_ranges_of (findall time_pattern d) ;;
  drs <- date_ranges_of (findall date_pattern d) ;;
  Ok {| type := ty;
        is_restricted := restricted;
        time_ranges := trs;
        days := days_of d;
        date_ranges := drs;
        special := special_of d;
        all_time := contains "EN TOUT TEMPS" d;
        raw_description := PyStr d |}.

Definition parse_restriction (desc : pyval) : result restriction :=
  if is_empty desc then Ok (initial desc)
  else match desc with
       | PyStr d => parse_text d
       | _ => Ok (initial desc)
       end.

(* ------------------------------------------------------------------- *)
(** * The availability evaluator: [is_parking_allowed] *)
(* ------------------------------------------------------------------- *)

(** A [datetime.time]; [tzinfo] plays no part here. *)
Record time : Type := Time {
  hour : Z;
  minute : Z;
  second : Z;
  microsecond : Z
}.

(** A naive [datetime.datetime]. *)
Record datetime : Type := DateTime {
  year : Z;
  month : Z;
  day : Z;
  time_of : time
}.

(** The integers a C [int] holds. *)
Definition c_int (z : Z) : bool :=
  ((-2147483648 <=? z) && (z <=? 2147483647))%Z.

(** [datetime.time(hour, minute)]: the constructor converts its
    arguments to C integers, then checks the ranges. *)
Definition dt_time (h mi : Z) : result time :=
  if negb (c_int h && c_int mi) then Raise OverflowError
  else if ((0 <=? h) && (h <=? 23) && (0 <=? mi) && (mi <=? 59))%Z
  then Ok (Time h mi 0 0)
  else Raise ValueError.

(** Comparison of two times: field by field, as tuples. *)
Definition time_compare (a b : time) : comparison :=
  match (hour a ?= hour b)%Z with
  | Eq =>
      match (minute a ?= minute b)%Z with
      | Eq =>
          match (second a ?= second b)%Z with
          | Eq => (microsecond a ?= microsecond b)%Z
          | c => c
          end
      | c => c
      end
  | c => c
  end.

(** [a <= b] on times. *)
Definition time_leb (a b : time) : bool :=
  match time_compare a b with
  | Gt => false
  | _ => true
  end.

(** Days from 1970-01-01 to the given date of the proleptic Gregorian
    calendar. *)
Definition days_from_civil (y mo d : Z) : Z :=
  (let y' := if mo <=? 2 then y - 1 else y in
   let era := y' / 400 in
   let yoe := y' - era * 400 in
   let doy := (153 * (if mo >? 2 then mo - 3 else mo + 9) + 2) / 5 + d - 1 in
   let doe := yoe * 365 + yoe / 4 - yoe / 100 + doy in
   era * 146097 + doe - 719468)%Z.

(** [datetime.weekday()]: Monday is 0. *)
Definition weekday (dt : datetime) : Z :=
  ((days_from_civil (year dt) (month dt) (day dt) + 3) mod 7)%Z.

Definition day_names : list string :=
  ["Monday"; "Tuesday"; "Wednesday"; "Thursday"; "Friday"; "Saturday";
   "Sunday"].

(** [current_datetime.strftime('%A')], in the C locale. *)
Definition strftime_A (dt : datetime) : string :=
  nth (Z.to_nat (weekday dt)) day_names "".

(** The hours and minutes written in a time string such as ["09h30"]. *)
Definition hours_minutes (time_str : string) : result (Z * Z) :=
  part0 <- index (split "h" time_str) 0 ;;
  hours <- int part0 ;;
  minutes <-
    (if contains "h" time_str
     then
       part1 <- index (split "h" time_str) 1 ;;
       if (0 <? String.length part1)%nat then int part1 else Ok 0%Z
     else Ok 0%Z) ;;
  Ok (hours, minutes).

(** The loop over [time_ranges]: [Ok true] when it leaves by [break]. *)
Fixpoint time_loop (current_time : time) (ranges : list (string * string))
  : result bool :=
  match ranges with
  | [] => Ok false
  | (start_time_str, end_time_str) :: ranges' =>
      '(start_hours, start_minutes) <- hours_minutes start_time_str ;;
      '(end_hours, end_minutes) <- hours_minutes end_time_str ;;
      start_time <- dt_time start_hours start_minutes ;;
      end_time <- dt_time end_hours end_minutes ;;
      if time_leb start_time current_time && time_leb current_time end_time
      then Ok true
      else time_loop current_time ranges'
  end.

Definition time_match (r : restriction) (now : datetime) : result bool :=
  match time_ranges r with
  | [] => Ok true
  | _ :: _ => time_loop (time_of now) (time_ranges r)
  end.

(** [month > m or (month == m and day >= d)] *)
Definition on_or_after (current_month current_day m d : Z) : bool :=
  ((current_month >? m) || ((current_month =? m) && (current_day >=? d)))%Z.

(** [month < m or (month == m and day <= d)] *)
Definition on_or_before (current_month current_day m d : Z) : bool :=
  ((current_month <? m) || ((current_month =? m) && (current_day <=? d)))%Z.

(** The test made on one date range. *)
Definition in_date_range (dr : date_range) (current_month current_day : Z)
  : bool :=
  if (start_month dr >? end_month dr)%Z
  then on_or_after current_month current_day (start_month dr) (start_day dr)
       || on_or_before current_month current_day (end_month dr) (end_day dr)
  else on_or_after current_month current_day (start_month dr) (start_day dr)
       && on_or_before current_month current_day (end_month dr) (end_day dr).

(** The loop over [date_ranges]. *)
Fixpoint date_loop (current_month current_day : Z) (ranges : list date_range)
  : bool :=
  match ranges with
  | [] => false
  | dr :: ranges' =>
      if in_date_range dr current_month current_day then true
      else date_loop current_month current_day ranges'
  end.

Definition date_match (r : restriction) (now : datetime) : bool :=
  match date_ranges r with
  | [] => true
  | _ :: _ => date_loop (month now) (day now) (date_ranges r)
  end.

Definition day_match (r : restriction) (now : datetime) : bool :=
  (length (days r) =? 0)%nat || mem (strftime_A now) (days r).

(** [is_parking_allowed(parsed_restriction, current_datetime)]; the
    instant is always given here, the default [datetime.now()] being the
    caller's clock. *)
Definition is_parking_allowed (r : restriction) (now : datetime)
  : result bool :=
  if all_time r then Ok false
  else
    let day_match := day_match r now in
    time_match <- time_match r now ;;
    let date_match := date_match r now in
    let restriction_applies := day_match && time_match && date_match in
    Ok (negb (restriction_applies && is_restricted r)).

End Parser.

(* ===================================================================== *)
(** * The interval generator: [create_street_interval] *)
(* ===================================================================== *)

Module Osm.

Import PyStr.
Local Open Scope result_scope.

(** What [create_street_interval] asks of Python's floats and of shapely.
    A [LineString] is the list of its coordinates, a [Point] is a pair. *)
Class Geometry (F : Type) : Type := {
  f_lt : F -> F -> bool;                       (* a < b *)
  f_inf : F;                                   (* float('inf') *)
  f_zero : F;                                  (* 0 *)
  f_add : F -> F -> F;
  f_sub : F -> F -> F;
  f_max : F -> F -> F;                         (* max(a, b) *)
  f_half : F -> F;                             (* a / 2 *)
  f_eps : F;                                   (* 0.0001 *)
  project : list (F * F) -> F * F -> F;        (* line.project(point) *)
  interpolate : list (F * F) -> F -> F * F;    (* line.interpolate(d) *)
  distance : F * F -> list (F * F) -> F        (* point.distance(line) *)
}.

Section Intervals.

Context {F : Type} {G : Geometry F}.

Definition point : Type := (F * F)%type.
Definition linestring : Type := list point.

(** The loop that looks for the segment nearest to [nearest_point]:
    [i] is the index of the segment that starts [coords]. *)
Fixpoint segment_loop (nearest_point : point) (coords : linestring)
         (i : nat) (min_distance : F) (segment_index : nat) : nat :=
  match coords with
  | a :: (b :: _) as coords' =>
      let d := distance nearest_point [a; b] in
      if f_lt d min_distance
      then segment_loop nearest_point coords' (S i) d i
      else segment_loop nearest_point coords' (S i) min_distance segment_index
  | _ => segment_index
  end.

(** The distances the loop measures, segment by segment. *)
Fixpoint distances (nearest_point : point) (coords : linestring) : list F :=
  match coords with
  | a :: (b :: _) as coords' =>
      distance nearest_point [a; b] :: distances nearest_point coords'
  | _ => []
  end.

(** The same loop, run on the distances. *)
Fixpoint argmin_loop (ds : list F) (i : nat) (min_distance : F)
         (segment_index : nat) : nat :=
  match ds with
  | d :: ds' =>
      if f_lt d min_distance
      then argmin_loop ds' (S i) d i
      else argmin_loop ds' (S i) min_distance segment_index
  | [] => segment_index
  end.

(** The distance at index [idx] is [md]; no distance of [ds] is below
    it and those before it are above it. *)
Definition least (ds : list F) (md : F) (idx : nat) : Prop :=
  nth_error ds idx = Some md
  /\ (forall x, In x ds -> f_lt x md = false)
  /\ (forall j x, j < idx -> nth_error ds j = Some x -> f_lt md x = true).

(** What the loop knows after the distances [pre]. *)
Definition seen (pre : list F) (md : F) (idx : nat) : Prop :=
  (pre = [] /\ md = f_inf /\ idx = 0) \/ least pre md idx.

Definition nearest (street_line : linestring) (sign_point : point) : point :=
  interpolate street_line (project street_line sign_point).

Definition find_segment (street_line : linestring) (sign_point : point) : nat :=
  segment_loop (nearest street_line sign_point) street_line 0 f_inf 0.

Definition create_street_interval (street_line : linestring)
           (sign_point : point) (direction : string) (interval_length : F)
  : result (list linestring) :=
  let nearest_point := nearest street_line sign_point in
  let '(nearest_x, nearest_y) := nearest_point in
  let coords := street_line in
  let segment_index := find_segment street_line sign_point in
  '(start_x, start_y) <- index coords segment_index ;;
  '(end_x, end_y) <- index coords (segment_index + 1) ;;
  if String.eqb direction "both_sides" then
    let interval_before := [(start_x, start_y); (nearest_x, nearest_y)] in
    let interval_after := [(nearest_x, nearest_y); (end_x, end_y)] in
    Ok [interval_before; interval_after]
  else if String.eqb direction "left" then
    Ok [[(start_x, start_y); (nearest_x, nearest_y)]]
  else if String.eqb direction "right" then
    Ok [[(nearest_x, nearest_y); (end_x, end_y)]]
  else if String.eqb direction "up" then
    let along := project street_line sign_point in
    let midpoint :=
      interpolate street_line (f_add along (f_half interval_length)) in
    let midpoint_neg :=
      interpolate street_line
        (f_max f_zero (f_sub along (f_half interval_length))) in
    Ok [[midpoint_neg; midpoint]]
  else
    Ok [[(f_sub nearest_x f_eps, nearest_y);
         (f_add nearest_x f_eps, nearest_y)]].

End Intervals.

(** ** Exact geometry of a straight west-east street

    Numbers counted in units of 0.0001 ([Num z] stands for z/10000) and
    an infinity; streets whose vertices lie on one horizontal line, from
    west to east. On such streets arc length is a difference of
    abscissas, so projection and interpolation are exact. *)
Inductive num : Type :=
| Num (z : Z)
| Inf.

Definition num_lt (a b : num) : bool :=
  match a, b with
  | Num x, Num y => (x <? y)%Z
  | Num _, Inf => true
  | Inf, _ => false
  end.

Definition num_lift (f : Z -> Z -> Z) (a b : num) : num :=
  match a, b with
  | Num x, Num y => Num (f x y)
  | _, _ => Inf
  end.

Definition num_max (a b : num) : num := if num_lt a b then b else a.

Definition num_half (a : num) : num :=
  match a with
  | Num x => Num (x / 2)
  | Inf => Inf
  end.

Definition clamp (lo hi x : Z) : Z := Z.max lo (Z.min hi x).

Definition abscissa (p : num * num) : Z :=
  match fst p with
  | Num x => x
  | Inf => 0
  end.

Definition west (line : list (num * num)) : Z :=
  abscissa (hd (Num 0, Num 0) line).

Definition east (line : list (num * num)) : Z :=
  abscissa (last line (Num 0, Num 0)).

(** Arc length from the west end to the point of the street nearest to
    [p]. *)
Definition we_project (line : list (num * num)) (p : num * num) : num :=
  Num (clamp (west line) (east line) (abscissa p) - west line).

(** The point at arc length [d] from the west end; a negative [d] counts
    from the east end. *)
Definition we_interpolate (line : list (num * num)) (d : num) : num * num :=
  let y := snd (hd (Num 0, Num 0) line) in
  match d with
  | Num d =>
      if (d <? 0)%Z
      then (Num (clamp (west line) (east line) (east line + d)), y)
      else (Num (clamp (west line) (east line) (west line + d)), y)
  | Inf => (Num (east line), y)
  end.

(** Distance from a point of the street's line to a piece of the
    street. *)
Definition we_distance (p : num * num) (line : list (num * num)) : num :=
  let x := abscissa p in
  Num (Z.max 0 (Z.max (west line - x) (x - east line))).

#[export] Instance west_east : Geometry num := {|
  f_lt := num_lt;
  f_inf := Inf;
  f_zero := Num 0;
  f_add := num_lift Z.add;
  f_sub := num_lift Z.sub;
  f_max := num_max;
  f_half := num_half;
  f_eps := Num 1;
  project := we_project;
  interpolate := we_interpolate;
  distance := we_distance
|}.

End Osm.

(* ===================================================================== *)
(** * The vocabulary of the specification *)
(* ===================================================================== *)

Module Spec.

Import PyStr Re Parser.
Local Open Scope result_scope.

(** ** Rule kinds *)

Inductive kind : Type := NoParking | NoStopping | Paid | Unrestricted.

(** The kind a value of [result['type']] stands for. *)
Definition kind_of_type (ty : option string) : option kind :=
  match ty with
  | None => Some Unrestricted
  | Some t =>
      if String.eqb t "P" then Some NoParking
      else if String.eqb t "A" then Some NoStopping
      else if String.eqb t "$" then Some Paid
      else None
  end.

Definition kind_of (r : restriction) : option kind := kind_of_type (type r).

(** ** Gates, in the words of the specification *)

(** The two times of day a window of the rule stands for. *)
Definition window_times (w : string * string) : result (time * time) :=
  '(start_hours, start_minutes) <- hours_minutes (fst w) ;;
  '(end_hours, end_minutes) <- hours_minutes (snd w) ;;
  start_time <- dt_time start_hours start_minutes ;;
  end_time <- dt_time end_hours end_minutes ;;
  Ok (start_time, end_time).

(** The windows of a rule read as times of day. *)
Definition denotes (ranges : list (string * string))
           (windows : list (time * time)) : Prop :=
  Forall2 (fun w tw => window_times w = Ok tw) ranges windows.

(** A time of day lies in a window, both ends included. *)
Definition in_window (t : time) (w : time * time) : bool :=
  time_leb (fst w) t && time_leb t (snd w).

Definition time_lt (a b : time) : Prop := time_compare a b = Lt.

Definition day_gate (days_of_week : list string) (weekday_name : string) : bool :=
  match days_of_week with
  | [] => true
  | _ :: _ => mem weekday_name days_of_week
  end.

Definition time_gate (windows : list (time * time)) (t : time) : bool :=
  match windows with
  | [] => true
  | _ :: _ => existsb (in_window t) windows
  end.

Definition date_gate (ranges : list date_range) (mo d : Z) : bool :=
  match ranges with
  | [] => true
  | _ :: _ => existsb (fun dr => in_date_range dr mo d) ranges
  end.

(** ** Month-day pairs in calendar order *)

Definition md_compare (a b : Z * Z) : comparison :=
  match (fst a ?= fst b)%Z with
  | Eq => (snd a ?= snd b)%Z
  | c => c
  end.

(** [a] is on or before [b]. *)
Definition md_le (a b : Z * Z) : Prop := md_compare a b <> Gt.

(** [a] is strictly before [b]. *)
Definition md_lt (a b : Z * Z) : Prop := md_compare a b = Lt.

Definition range_start (dr : date_range) : Z * Z := (start_month dr, start_day dr).
Definition range_end (dr : date_range) : Z * Z := (end_month dr, end_day dr).

(** ** Texts and matches *)

(** Every character of [s] is in the class [p]. *)
Fixpoint all (p : ascii -> bool) (s : string) : bool :=
  match s with
  | EmptyString => true
  | String c s' => p c && all p s'
  end.


(** A non-empty run of decimal digits. *)
Definition is_number (s : string) : Prop :=
  s <> EmptyString /\ all isdigit s = true.

(** [r] has no capturing group. *)
Fixpoint nocap (r : regex) : bool :=
  match r with
  | Eps | Cls _ | Rep _ _ _ | WordB => true
  | Seq r1 r2 | Alt r1 r2 => nocap r1 && nocap r2
  | Opt r1 | NotAhead r1 => nocap r1
  | Grp _ => false
  end.

(** The groups of a pattern that is a sequence of group-free pieces and
    of groups with group-free bodies. *)
Fixpoint groups (r : regex) : option (list regex) :=
  match r with
  | Grp r1 => if nocap r1 then Some [r1] else None
  | Seq r1 r2 =>
      match groups r1, groups r2 with
      | Some g1, Some g2 => Some (g1 ++ g2)%list
      | _, _ => None
      end
  | _ => if nocap r then Some [] else None
  end.

(** [w] is a text that [r] can match somewhere. *)
Definition matched (r : regex) (w : string) : Prop :=
  exists st st', In st' (m r st) /\ w = consumed (rest st) (rest st').

(** [r] can match the text [w] wherever [w] stands. *)
Definition can_match (r : regex) (w : string) : Prop :=
  forall pv post cs,
    exists st', In st' (m r (MState pv (w ++ post) cs)) /\ rest st' = post.




(** ** Markers of a description *)

(** The kind the specification gives a text, by precedence. *)
Definition classify (d : string) : kind :=
  if startswith "\P" d then NoParking
  else if startswith "\A" d then NoStopping
  else if is_paid d then Paid
  else Unrestricted.

Definition restricted_kind (k : kind) : bool :=
  match k with
  | NoParking | NoStopping => true
  | Paid | Unrestricted => false
  end.


(** The place of [x] in [xs], counted from 0. *)
Fixpoint position (x : string) (xs : list string) : nat :=
  match xs with
  | [] => 0
  | y :: ys => if String.eqb x y then 0 else S (position x ys)
  end.

(** A day range as the specification expands it: the days of the week
    from [first] to [last], both included. *)
Definition expanded_range (first last : string) : list string :=
  firstn (position last day_names + 1 - position first day_names)
         (skipn (position first day_names) day_names).



(** ** Intervals *)

(** Two different coordinate pairs occur in the polyline. *)
Definition two_distinct {F : Type} (line : list (F * F)) : Prop :=
  exists a b, In a line /\ In b line /\ a <> b.

End Spec.

(* ===================================================================== *)
(** * Sample rules, instants and streets *)
(* ===================================================================== *)

Module Samples.

Import Parser Osm.

(** No parking from Monday to Friday, 9h00 to 18h00. *)
Definition weekday_rule : restriction :=
  Restriction (Some "P") true [("9h00", "18h00")] monday_to_friday []
              None false (PyStr "\P LUN AU VEN 9h00-18h00").

(** No stopping at any time. *)
Definition all_time_rule : restriction :=
  Restriction (Some "A") true [] [] [] None true (PyStr "\A EN TOUT TEMPS").

(** A no-parking marker and nothing else. *)
Definition bare_rule : restriction :=
  Restriction (Some "P") true [] [] [] None false (PyStr "\P").

(** No parking overnight. *)
Definition overnight_rule : restriction :=
  Restriction (Some "P") true [("22h00", "06h00")] [] [] None false
              (PyStr "\P 22h00-06h00").

(** A parking meter. *)
Definition meter_rule : restriction :=
  Restriction (Some "$") false [("9h", "21h")] monday_to_saturday []
              None false (PyStr "PARCOMETRE 9h-21h LUN A SAM").

(** A parking meter at all times. *)
Definition meter_all_time_rule : restriction :=
  Restriction (Some "$") false [] [] [] None true
              (PyStr "PARCOMETRE EN TOUT TEMPS").

(** No parking between two hours that no clock shows. *)
Definition late_rule : restriction :=
  Restriction (Some "P") true [("25h00", "26h00")] [] [] None false
              (PyStr "\P 25h00-26h00").

(** Tuesday 10 October 2023, at noon and at 23h00. *)
Definition tuesday_noon : datetime := DateTime 2023 10 10 (Time 12 0 0 0).
Definition tuesday_night : datetime := DateTime 2023 10 10 (Time 23 0 0 0).

(** [is_parking_allowed(parse_restriction(desc), datetime(y, mo, d, h, mi))] *)
Definition allowed_at (desc : string) (y mo d h mi : Z) : result bool :=
  bind (parse_restriction (PyStr desc))
       (fun r => is_parking_allowed r (DateTime y mo d (Time h mi 0 0))).

(** 15 November to 15 March, and 1 April to 1 November. *)
Definition winter : date_range := DateRange 15 11 15 3.
Definition summer : date_range := DateRange 1 4 1 11.

(** No parking in winter, and no parking in summer. *)
Definition winter_rule : restriction :=
  Restriction (Some "P") true [] [] [winter] None false
              (PyStr "\P 15 NOV AU 15 MARS").
Definition summer_rule : restriction :=
  Restriction (Some "P") true [] [] [summer] None false
              (PyStr "\P 1 AVRIL AU 1 NOV").

(** A west-east street of two vertices and one of three, a sign at the
    west end of the first and a sign next to the second. *)
Definition short_street : list (num * num) :=
  [(Num 0, Num 0); (Num 10, Num 0)].
Definition long_street : list (num * num) :=
  [(Num 0, Num 0); (Num 10, Num 0); (Num 20, Num 0)].
Definition sign_at_end : num * num := (Num 0, Num 0).
Definition sign_aside : num * num := (Num 13, Num 5).

End Samples.

Unset Implicit Arguments.

(* ===================================================================== *)
(** * More vocabulary *)
(* ===================================================================== *)

Module Invariants.

Import PyStr Re Parser Spec.

(** The fields a date range of the parser can have. *)
Definition plausible (dr : date_range) : Prop :=
  (1 <= start_month dr <= 12 /\ 1 <= end_month dr <= 12
   /\ 0 <= start_day dr <= 99 /\ 0 <= end_day dr <= 99)%Z.

End Invariants.

(* ===================================================================== *)
(** * Batches and pools: [parse_batch_restrictions],
      [parse_restrictions_parallel], [process_in_parallel] *)
(* ===================================================================== *)

Module Batch.

Import PyStr Parser.

(** What may leave the functions below: the exceptions met so far, a
    division by zero, a key missing from a dictionary, an exception raised
    by the function a pool runs (the pool raises it again in the caller)
    and an exception of the database. *)
Inductive failure : Type :=
| Exn (e : exn)
| ZeroDivisionError
| KeyError
| WorkerError
| DatabaseError.

Inductive outcome (A : Type) : Type :=
| Done (a : A)
| Fail (f : failure).

Arguments Done {A} a.
Arguments Fail {A} f.

Definition and_then {A B : Type} (c : outcome A) (k : A -> outcome B)
  : outcome B :=
  match c with
  | Done a => k a
  | Fail f => Fail f
  end.

Declare Scope outcome_scope.
Delimit Scope outcome_scope with outcome.
Notation "x <- c ;; k" := (and_then c (fun x => k))
  (at level 61, c at next level, right associativity) : outcome_scope.
Local Open Scope outcome_scope.

(** An exception of the parser, leaving a function of this module. *)
Definition lift {A : Type} (c : result A) : outcome A :=
  match c with
  | Ok a => Done a
  | Raise e => Fail (Exn e)
  end.

(** [a // b] *)
Definition floordiv (a b : Z) : outcome Z :=
  if (b =? 0)%Z then Fail ZeroDivisionError else Done (a / b)%Z.

(** The loop of [range(i, stop, step)] for a non-zero [step]. *)
Fixpoint range_loop (fuel : nat) (i stop step : Z) : list Z :=
  match fuel with
  | O => []
  | S fuel' =>
      if (if 0 <? step then i <? stop else stop <? i)%Z
      then i :: range_loop fuel' (i + step)%Z stop step
      else []
  end.

(** [range(0, stop, step)]: a zero step raises [ValueError]. *)
Definition range0 (stop step : Z) : outcome (list Z) :=
  if (step =? 0)%Z then Fail (Exn ValueError)
  else Done (range_loop (Z.abs_nat stop) 0%Z stop step).

(** [xs[i:j]] for [0 <= i <= j], the only slices taken here. *)
Definition slice {A : Type} (xs : list A) (i j : Z) : list A :=
  firstn (Z.to_nat (j - i)) (skipn (Z.to_nat i) xs).

(** [[xs[i:i+batch_size] for i in range(0, len(xs), batch_size)]] *)
Definition batches {A : Type} (xs : list A) (batch_size : Z)
  : outcome (list (list A)) :=
  starts <- range0 (Z.of_nat (length xs)) batch_size ;;
  Done (map (fun i => slice xs i (i + batch_size)%Z) starts).

(** [config.BATCH_SIZE] *)
Definition BATCH_SIZE : Z := 5000.

(** [config.NUM_PROCESSES = os.cpu_count() or 4], where [os.cpu_count()]
    is a number of processors or [None]. *)
Definition NUM_PROCESSES (cpu_count : option N) : Z :=
  match cpu_count with
  | Some n => if (n =? 0)%N then 4%Z else Z.of_N n
  | None => 4%Z
  end.

(** [min(BATCH_SIZE, max(least, n // (num_processes * 2)))] *)
Definition default_batch_size (least n num_processes : Z) : outcome Z :=
  q <- floordiv n (num_processes * 2) ;;
  Done (Z.min BATCH_SIZE (Z.max least q)).

(** [multiprocessing.Pool(processes=n)] *)
Definition pool (processes : Z) : outcome unit :=
  if (processes <? 1)%Z then Fail (Exn ValueError) else Done tt.

(** [pool.map(f, xs)]: the results in the order of [xs]; [None] is a call
    of [f] that raises. *)
Fixpoint pool_map {X Y : Type} (f : X -> option Y) (xs : list X)
  : outcome (list Y) :=
  match xs with
  | [] => Done []
  | x :: xs' =>
      match f x with
      | Some y => ys <- pool_map f xs' ;; Done (y :: ys)
      | None => Fail WorkerError
      end
  end.

(** [pd.concat(frames)]: no frame to concatenate raises [ValueError]. *)
Definition pd_concat {A : Type} (frames : list (list A)) : outcome (list A) :=
  match frames with
  | [] => Fail (Exn ValueError)
  | _ :: _ => Done (concat frames)
  end.

(** ** Rows *)

(** A row of the data set; [None] is a missing cell (NaN). *)
Record sign_row (C : Type) : Type := SignRow {
  ID_PANNEAU : string;
  Latitude : option C;
  Longitude : option C;
  DESCRIPTION_RPA : pyval;
  FLECHE_PAN : option Z
}.

Arguments SignRow {C}.
Arguments ID_PANNEAU {C}.
Arguments Latitude {C}.
Arguments Longitude {C}.
Arguments DESCRIPTION_RPA {C}.
Arguments FLECHE_PAN {C}.

(** A row with the columns [parse_batch_restrictions] adds. *)
Record parsed_row (C : Type) : Type := ParsedRow {
  source : sign_row C;
  parsed_restriction : restriction;
  row_is_restricted : bool;
  row_is_all_time : bool;
  row_is_paid : bool;
  arrow_direction : string
}.

Arguments ParsedRow {C}.
Arguments source {C}.
Arguments parsed_restriction {C}.
Arguments row_is_restricted {C}.
Arguments row_is_all_time {C}.
Arguments row_is_paid {C}.
Arguments arrow_direction {C}.

(** [FLECHE_PAN.map({0: ..., 1: ..., 2: ..., 3: ...}).fillna('both_sides')] *)
Definition arrow_of (fleche : option Z) : string :=
  match fleche with
  | Some 0%Z => "both_sides"
  | Some 1%Z => "up"
  | Some 2%Z => "left"
  | Some 3%Z => "right"
  | _ => "both_sides"
  end.

(** [x['type'] == '$'] *)
Definition type_is_paid (r : restriction) : bool :=
  match type r with
  | Some t => String.eqb t "$"
  | None => false
  end.

(** What [parse_batch_restrictions] does to one row. *)
Definition parse_row {C : Type} (row : sign_row C) : result (parsed_row C) :=
  bind (parse_restriction (DESCRIPTION_RPA row))
       (fun r => Ok (ParsedRow row r (is_restricted r) (all_time r)
                               (type_is_paid r)
                               (arrow_of (FLECHE_PAN row)))).

Fixpoint parse_batch_restrictions {C : Type} (batch_df : list (sign_row C))
  : result (list (parsed_row C)) :=
  match batch_df with
  | [] => Ok []
  | row :: rows =>
      bind (parse_row row)
           (fun p => bind (parse_batch_restrictions rows)
                          (fun ps => Ok (p :: ps)))
  end.

Definition to_option {A : Type} (c : result A) : option A :=
  match c with
  | Ok a => Some a
  | Raise _ => None
  end.

Definition parse_restrictions_parallel {C : Type} (cpu_count : option N)
           (df : list (sign_row C)) : outcome (list (parsed_row C)) :=
  batch_size <- default_batch_size 1000 (Z.of_nat (length df))
                                   (NUM_PROCESSES cpu_count) ;;
  df_batches <- batches df batch_size ;;
  _ <- pool (NUM_PROCESSES cpu_count) ;;
  processed_batches <-
    pool_map (fun b => to_option (parse_batch_restrictions b)) df_batches ;;
  pd_concat processed_batches.

(** ** [process_in_parallel] *)

(** What the function run on a batch returns: a list, which is spliced
    into the results, or anything else, which is appended. *)
Inductive batch_result (B : Type) : Type :=
| AList (l : list B)
| AnItem (b : B).

Arguments AList {B} l.
Arguments AnItem {B} b.

Definition flatten {B : Type} (batch_results : list (batch_result B)) : list B :=
  flat_map (fun r => match r with AList l => l | AnItem b => [b] end)
           batch_results.

Definition process_in_parallel {A B : Type}
           (function : list A -> option (batch_result B)) (items : list A)
           (cpu_count : option N) (num_processes batch_size : option Z)
  : outcome (list B) :=
  let num_processes :=
    match num_processes with
    | Some n => n
    | None => NUM_PROCESSES cpu_count
    end in
  batch_size <-
    match batch_size with
    | Some b => Done b
    | None => default_batch_size 1000 (Z.of_nat (length items)) num_processes
    end ;;
  batches <- batches items batch_size ;;
  _ <- pool num_processes ;;
  batch_results <- pool_map function batches ;;
  Done (flatten batch_results).

End Batch.

(* ===================================================================== *)
(** * geo/osm.py and db/operations.py: from a sign to its records *)
(* ===================================================================== *)

Module Streets.

Import PyStr Osm Batch.
Local Open Scope outcome_scope.

Section Streets.

Context {F : Type} {G : Geometry F}.

(** ** What Overpass answers

    The JSON of an answer, as far as [get_nearest_street] reads it; a key
    that may be missing is an option. *)
Record node : Type := Node {
  node_lon : option F;
  node_lat : option F
}.

Record tags : Type := Tags {
  tag_name : option string;
  tag_highway : option string
}.

Record element : Type := Element {
  element_id : option Z;
  element_tags : option tags;
  element_geometry : option (list node)
}.

Record data : Type := Data {
  elements : option (list element)
}.

(** What a request gives: an answer, or one of the exceptions the
    function catches ([requests.RequestException], raised also for a 4XX
    or 5XX status, and [json.JSONDecodeError]). *)
Inductive reply : Type :=
| Reply (d : data)
| RequestError.

(** The dictionary built for a street. *)
Record street : Type := Street {
  street_id : Z;
  street_name : string;
  street_highway : string;
  street_geometry : list (F * F);
  street_distance : F
}.

(** [[(node['lon'], node['lat']) for node in element['geometry']]] *)
Fixpoint coords_of (nodes : list node) : outcome (list (F * F)) :=
  match nodes with
  | [] => Done []
  | n :: nodes' =>
      match node_lon n, node_lat n with
      | Some lon, Some lat =>
          coords <- coords_of nodes' ;; Done ((lon, lat) :: coords)
      | _, _ => Fail KeyError
      end
  end.

(** [element.get('tags', {}).get(key, 'Unknown')] *)
Definition tag (key : tags -> option string) (e : element) : string :=
  match element_tags e with
  | Some t => match key t with Some v => v | None => "Unknown" end
  | None => "Unknown"
  end.

(** The body of the loop over the elements: the street of an element with
    a geometry of two nodes or more, nothing for another element. *)
Definition street_of (sign_point : F * F) (e : element)
  : outcome (option street) :=
  match element_geometry e with
  | Some nodes =>
      if (2 <=? length nodes)%nat then
        coords <- coords_of nodes ;;
        let street_line := coords in
        let distance := distance sign_point street_line in
        match element_id e with
        | Some i =>
            Done (Some (Street i (tag tag_name e) (tag tag_highway e)
                               street_line distance))
        | None => Fail KeyError
        end
      else Done None
  | None => Done None
  end.

Fixpoint streets_of (sign_point : F * F) (es : list element)
  : outcome (list street) :=
  match es with
  | [] => Done []
  | e :: es' =>
      s <- street_of sign_point e ;;
      streets <- streets_of sign_point es' ;;
      Done (match s with
            | Some x => x :: streets
            | None => streets
            end)
  end.

(** [min(streets, key=lambda x: x['distance'])]: the first street is kept
    until a later one is strictly nearer. *)
Fixpoint min_loop (best : street) (streets : list street) : street :=
  match streets with
  | [] => best
  | s :: streets' =>
      if f_lt (street_distance s) (street_distance best)
      then min_loop s streets'
      else min_loop best streets'
  end.

(** What the function returns once it has an answer. *)
Definition nearest_of (sign_point : F * F) (d : data)
  : outcome (option street) :=
  match elements d with
  | Some ((_ :: _) as es) =>
      streets <- streets_of sign_point es ;;
      match streets with
      | s :: streets' => Done (Some (min_loop s streets'))
      | [] => Done None
      end
  | _ => Done None
  end.

(** The loop [for attempt in range(retry_count)], with [todo] attempts
    left. [network k] is what the request number [k] of this call gives.
    The result comes with the number of requests made. *)
Fixpoint retry_loop (network : nat -> reply) (sign_point : F * F)
         (retry_count : Z) (todo attempt : nat)
  : nat * outcome (option street) :=
  match todo with
  | O => (attempt, Done None)
  | S todo' =>
      match network attempt with
      | Reply d => (S attempt, nearest_of sign_point d)
      | RequestError =>
          if (Z.of_nat attempt <? retry_count - 1)%Z
          then retry_loop network sign_point retry_count todo' (S attempt)
          else (S attempt, Done None)
      end
  end.

Definition get_nearest_street (network : nat -> reply) (lat lon : F)
           (retry_count : Z) : nat * outcome (option street) :=
  retry_loop network (lon, lat) retry_count (Z.to_nat retry_count) 0.

(** ** [_process_sign_intervals] *)

(** The dictionary built for an interval. *)
Record interval_record : Type := IntervalRecord {
  sign_id : Z;
  interval_street_name : string;
  geometry : list (F * F);
  start_lat : F;
  start_lon : F;
  end_lat : F;
  end_lon : F
}.

(** The loop over the intervals. *)
Fixpoint records_of (id : Z) (s : street) (intervals : list (list (F * F)))
  : list interval_record :=
  match intervals with
  | [] => []
  | coords :: intervals' =>
      match coords with
      | first :: _ :: _ =>
          let '(start_lon, start_lat) := first in
          let '(end_lon, end_lat) := last coords first in
          IntervalRecord id (street_name s) coords
                         start_lat start_lon end_lat end_lon
          :: records_of id s intervals'
      | _ => records_of id s intervals'
      end
  end.

(** [interval_length] is the default of [create_street_interval], the
    float 50. *)
Definition _process_sign_intervals (network : nat -> reply)
           (interval_length : F) (sign_data : Z * F * F * string)
  : outcome (list interval_record) :=
  let '(id, lat, lon, direction) := sign_data in
  street <- snd (get_nearest_street network lat lon 3) ;;
  match street with
  | None => Done []
  | Some s =>
      let sign_point := (lon, lat) in
      intervals <- lift (create_street_interval (street_geometry s)
                                                sign_point direction
                                                interval_length) ;;
      Done (records_of id s intervals)
  end.

End Streets.

Arguments node F : clear implicits.
Arguments element F : clear implicits.
Arguments data F : clear implicits.
Arguments reply F : clear implicits.
Arguments street F : clear implicits.
Arguments interval_record F : clear implicits.

End Streets.

(* ===================================================================== *)
(** * db/operations.py: storing the signs *)
(* ===================================================================== *)

Module Store.

Import PyStr Parser Batch.
Local Open Scope outcome_scope.

Section Store.

(** [C] is the type of a coordinate, [S] the type of a [ParkingSign]. *)
Context {C S : Type}.

(** [ParkingSign.from_dataframe_row] *)
Variable from_dataframe_row : parsed_row C -> S.

(** Whether the database, holding the signs of its first argument, takes
    the signs of the second: [bulk_save_objects] and [commit] go through,
    or one of them raises. *)
Variable accepts : list S -> list S -> bool.

(** [not (pd.isna(row['Latitude']) or pd.isna(row['Longitude']))] *)
Definition has_coordinates (row : parsed_row C) : bool :=
  match Latitude (source row), Longitude (source row) with
  | Some _, Some _ => true
  | _, _ => false
  end.

(** The signs of a batch. *)
Definition signs_of (batch_df : list (parsed_row C)) : list S :=
  map from_dataframe_row (filter has_coordinates batch_df).

(** The loop over the batches: [stored] is what the database holds after
    the last commit. A failure rolls back what was not committed. *)
Fixpoint store_loop (df_batches : list (list (parsed_row C)))
         (stored : list S) (count : Z) : list S * outcome Z :=
  match df_batches with
  | [] => (stored, Done count)
  | batch_df :: df_batches' =>
      match signs_of batch_df with
      | [] => store_loop df_batches' stored count
      | signs =>
          if accepts stored signs
          then store_loop df_batches' (stored ++ signs)%list
                          (count + Z.of_nat (length signs))%Z
          else (stored, Fail DatabaseError)
      end
  end.

(** The database after the call and what the call returns or raises. *)
Definition store_signs (df : list (parsed_row C)) (batch_size : Z)
           (stored : list S) : list S * outcome Z :=
  match (total_batches <-
           floordiv (Z.of_nat (length df) + batch_size - 1) batch_size ;;
         batches df batch_size) with
  | Done df_batches => store_loop df_batches stored 0%Z
  | Fail f => (stored, Fail f)
  end.

(** cli.py, [import_data_command] once the file is loaded into [df]: the
    database after the command, and the number of signs it prints
    ([None] when it stops at an empty frame). *)
Definition import_data_command (cpu_count : option N)
           (df : list (sign_row C)) (stored : list S)
  : list S * outcome (option Z) :=
  match df with
  | [] => (stored, Done None)
  | _ :: _ =>
      match parse_restrictions_parallel cpu_count df with
      | Done df_parsed =>
          let '(stored', count) := store_signs df_parsed 1000 stored in
          (stored', count <- count ;; Done (Some count))
      | Fail f => (stored, Fail f)
      end
  end.

End Store.

End Store.

(** Answers of Overpass and a small table of signs, for the examples. *)
Module StreetSamples.

Import PyStr Parser Osm Batch Streets.

Definition at_ (x y : Z) : node num := Node (Some (Num x)) (Some (Num y)).

Definition rue_a : element num :=
  Element (Some 1%Z) (Some (Tags (Some "Rue A") (Some "residential")))
          (Some [at_ 0 0; at_ 1000 0]).

Definition rue_b : element num :=
  Element (Some 2%Z) None (Some [at_ 2000 0; at_ 3000 0]).

Definition lone_node : element num :=
  Element (Some 3%Z) None (Some [at_ 400 0]).

Definition two_streets : data num := Data (Some [lone_node; rue_b; rue_a]).

(** A network that fails once, then answers. *)
Definition flaky (k : nat) : reply num :=
  match k with
  | O => RequestError
  | S _ => Reply two_streets
  end.

(** A network that is down. *)
Definition down (k : nat) : reply num := RequestError.

Definition table : list (sign_row Z) :=
  [SignRow "P1" (Some 45%Z) (Some (-73)%Z) (PyStr "\P 09h-10h LUN.")
           (Some 2%Z);
   SignRow "P2" None (Some (-73)%Z) (PyStr "PARCOMETRE") None;
   SignRow "P3" (Some 46%Z) (Some (-74)%Z) PyNaN (Some 7%Z)].

(** A row with the columns of an empty description. *)
Definition left_arrow_row : sign_row Z :=
  SignRow "P1" (Some 45%Z) (Some (-73)%Z) (PyStr "\P 09h-10h LUN.")
          (Some 2%Z).

Definition parsed (row : sign_row Z) : parsed_row Z :=
  ParsedRow row (initial (DESCRIPTION_RPA row)) false false false
            (arrow_of (FLECHE_PAN row)).

End StreetSamples.

Set Implicit Arguments.

(* ===================================================================== *)
(** * Properties of the availability evaluator *)
(* ===================================================================== *)

Module EvaluatorFacts.

Import PyStr Re Parser Spec.
Local Open Scope result_scope.

Lemma time_loop_cons (t : time) (w : string * string) ranges tw :
  window_times w = Ok tw ->
  time_loop t (w :: ranges)
  = if in_window t tw then Ok true else time_loop t ranges.
Proof.
  destruct w as [s e]. unfold window_times. simpl.
  destruct (hours_minutes s) as [[sh sm]|]; simpl; [|discriminate].
  destruct (hours_minutes e) as [[eh em]|]; simpl; [|discriminate].
  destruct (dt_time sh sm) as [st|]; simpl; [|discriminate].
  destruct (dt_time eh em) as [et|]; simpl; [|discriminate].
  intros H. injection H as <-. reflexivity.
Qed.

Lemma time_loop_denotes (t : time) ranges windows :
  denotes ranges windows ->
  time_loop t ranges = Ok (existsb (in_window t) windows).
Proof.
  induction 1 as [|w tw ranges windows Hw _ IH]; [reflexivity|].
  rewrite time_loop_cons with (tw := tw) by exact Hw. simpl.
  destruct (in_window t tw); [reflexivity|exact IH].
Qed.

Lemma time_match_denotes (r : restriction) (now : datetime) windows :
  denotes (time_ranges r) windows ->
  time_match r now = Ok (time_gate windows (time_of now)).
Proof.
  unfold time_match, time_gate. intros H.
  pose proof (@time_loop_denotes (time_of now) _ _ H) as E.
  destruct H; [reflexivity|exact E].
Qed.

Lemma date_loop_existsb (mo d : Z) ranges :
  date_loop mo d ranges = existsb (fun dr => in_date_range dr mo d) ranges.
Proof.
  induction ranges as [|dr ranges IH]; simpl; [reflexivity|].
  rewrite IH. destruct (in_date_range dr mo d); reflexivity.
Qed.

Lemma date_match_gate (r : restriction) (now : datetime) :
  date_match r now = date_gate (date_ranges r) (month now) (day now).
Proof.
  unfold date_match, date_gate.
  destruct (date_ranges r); [reflexivity|apply date_loop_existsb].
Qed.

Lemma day_match_gate (r : restriction) (now : datetime) :
  day_match r now = day_gate (days r) (strftime_A now).
Proof.
  unfold day_match, day_gate. destruct (days r); reflexivity.
Qed.

(** With windows that read as times of day the evaluator returns, and its
    answer is the one the three gates give. *)
Lemma is_parking_allowed_gates (r : restriction) (now : datetime) windows :
  denotes (time_ranges r) windows ->
  is_parking_allowed r now
  = Ok (if all_time r then false
        else negb (day_gate (days r) (strftime_A now)
                   && time_gate windows (time_of now)
                   && date_gate (date_ranges r) (month now) (day now)
                   && is_restricted r)).
Proof.
  intros H. unfold is_parking_allowed.
  destruct (all_time r); [reflexivity|].
  rewrite time_match_denotes with (windows := windows) by exact H. simpl.
  rewrite day_match_gate, date_match_gate. reflexivity.
Qed.

(** A window whose start is strictly later than its end holds no time of
    day. *)
Lemma in_window_empty (t start_time end_time : time) :
  time_lt end_time start_time -> in_window t (start_time, end_time) = false.
Proof.
  unfold time_lt, in_window, time_leb, time_compare. simpl.
  destruct t as [h mi s us], start_time as [h1 m1 s1 u1],
           end_time as [h2 m2 s2 u2]. simpl.
  intros H. apply Bool.andb_false_iff.
  destruct (Z.compare_spec h2 h1); try discriminate;
  destruct (Z.compare_spec h1 h), (Z.compare_spec h h2);
    try lia; auto;
  destruct (Z.compare_spec m2 m1); try discriminate;
  destruct (Z.compare_spec m1 mi), (Z.compare_spec mi m2);
    try lia; auto;
  destruct (Z.compare_spec s2 s1); try discriminate;
  destruct (Z.compare_spec s1 s), (Z.compare_spec s s2);
    try lia; auto;
  destruct (Z.compare_spec u2 u1); try discriminate;
  destruct (Z.compare_spec u1 us), (Z.compare_spec us u2);
    try lia; auto.
Qed.

Lemma existsb_in_window_empty (t : time) windows :
  (forall w, In w windows -> time_lt (snd w) (fst w)) ->
  existsb (in_window t) windows = false.
Proof.
  induction windows as [|[a b] windows IH]; intros H; [reflexivity|].
  simpl. rewrite in_window_empty by exact (H (a, b) (or_introl eq_refl)).
  apply IH. intros w Hw. apply H. right. exact Hw.
Qed.

(** ** Month-day tests read in calendar order *)

Lemma on_or_after_le (mo d m0 d0 : Z) :
  on_or_after mo d m0 d0 = true <-> md_le (m0, d0) (mo, d).
Proof.
  unfold on_or_after, md_le, md_compare. simpl.
  destruct (Z.compare_spec m0 mo), (Z.compare_spec d0 d);
    split; intros Hx; try discriminate; try congruence; try lia;
    try (exfalso; apply Hx; reflexivity).
Qed.

Lemma on_or_before_le (mo d m0 d0 : Z) :
  on_or_before mo d m0 d0 = true <-> md_le (mo, d) (m0, d0).
Proof.
  unfold on_or_before, md_le, md_compare. simpl.
  destruct (Z.compare_spec mo m0), (Z.compare_spec d d0);
    split; intros Hx; try discriminate; try congruence; try lia;
    try (exfalso; apply Hx; reflexivity).
Qed.

Lemma md_lt_not_le (a b : Z * Z) : md_lt a b <-> ~ md_le b a.
Proof.
  unfold md_lt, md_le, md_compare. destruct a as [m1 d1], b as [m2 d2]. simpl.
  destruct (Z.compare_spec m1 m2), (Z.compare_spec m2 m1); try lia;
  destruct (Z.compare_spec d1 d2), (Z.compare_spec d2 d1); try lia;
    split; intros Hx; try discriminate; try congruence;
    try (exfalso; apply Hx; discriminate).
Qed.

End EvaluatorFacts.

(* ===================================================================== *)
(** * Properties of strings and of the matcher *)
(* ===================================================================== *)

Module MatchFacts.

Import PyStr Re Parser Spec.
Local Open Scope result_scope.

Lemma length_append (a b : string) :
  String.length (a ++ b) = String.length a + String.length b.
Proof. induction a as [|c a IH]; simpl; [reflexivity|now rewrite IH]. Qed.

Lemma append_assoc (a b c : string) : (a ++ b) ++ c = a ++ (b ++ c).
Proof. induction a as [|x a IH]; simpl; [reflexivity|now rewrite IH]. Qed.

Lemma append_empty_r (a : string) : a ++ "" = a.
Proof. induction a as [|x a IH]; simpl; [reflexivity|now rewrite IH]. Qed.

Lemma take_append (w s : string) : take (String.length w) (w ++ s) = w.
Proof. induction w as [|c w IH]; simpl; [now destruct s|now rewrite IH]. Qed.

Lemma consumed_append (w s : string) : consumed (w ++ s) s = w.
Proof.
  unfold consumed. rewrite length_append.
  replace (String.length w + String.length s - String.length s)
    with (String.length w) by lia.
  apply take_append.
Qed.

Lemma all_append (p : ascii -> bool) (a b : string) :
  all p (a ++ b) = all p a && all p b.
Proof.
  induction a as [|c a IH]; simpl; [reflexivity|].
  rewrite IH. now rewrite Bool.andb_assoc.
Qed.


(** ** Repetition of a class *)

Lemma rep_cls_spec (p : ascii -> bool) (s : string) :
  forall lo hi pv pv' s',
    In (pv', s') (rep_cls p lo hi pv s) ->
    exists w, s = w ++ s' /\ all p w = true /\ lo <= String.length w
              /\ match hi with
                 | Some h => String.length w <= h
                 | None => True
                 end.
Proof.
  induction s as [|c s IH]; intros lo hi pv pv' s' H.
  - assert (Hs : In (pv', s') (match lo with O => [(pv, "")] | S _ => [] end)).
    { simpl in H. destruct hi as [[|h]|]; exact H. }
    destruct lo; [|contradiction].
    destruct Hs as [Hs|[]]. injection Hs as _ <-.
    exists "". repeat split; auto. destruct hi; simpl; auto with arith.
  - assert (Hstop : In (pv', s')
                       (match lo with O => [(pv, String c s)] | S _ => [] end)
                    -> exists w, String c s = w ++ s' /\ all p w = true
                                 /\ lo <= String.length w
                                 /\ match hi with
                                    | Some h => String.length w <= h
                                    | None => True
                                    end).
    { intros Hs. destruct lo; [|contradiction].
      destruct Hs as [Hs|[]]. injection Hs as _ <-.
      exists "". repeat split; auto. destruct hi; simpl; auto with arith. }
    simpl in H. destruct hi as [[|h]|].
    + auto.
    + destruct (p c) eqn:Hc; [|auto].
      apply in_app_or in H. destruct H as [H|H]; [|auto].
      apply IH in H. destruct H as (w & -> & Hw & Hlo & Hhi).
      exists (String c w). simpl. rewrite Hc, Hw.
      repeat split; auto; simpl in *; lia.
    + destruct (p c) eqn:Hc; [|auto].
      apply in_app_or in H. destruct H as [H|H]; [|auto].
      apply IH in H. destruct H as (w & -> & Hw & Hlo & Hhi).
      exists (String c w). simpl. rewrite Hc, Hw.
      repeat split; auto; simpl in *; lia.
Qed.

(** ** The matcher only moves forward *)


(** ** Captures *)

Lemma m_nocap (r : regex) :
  nocap r = true ->
  forall st st', In st' (m r st) -> caps st' = caps st.
Proof.
  induction r as [|p|r1 IH1 r2 IH2|r1 IH1 r2 IH2|r1 IH1|p lo hi|r1 IH1| |r1 IH1];
    simpl; intros Hn st st' H.
  - now destruct H as [<-|[]].
  - destruct (rest st) as [|c s]; [contradiction|].
    destruct (p c); [|contradiction]. now destruct H as [<-|[]].
  - apply Bool.andb_true_iff in Hn. destruct Hn as [Hn1 Hn2].
    apply in_flat_map in H. destruct H as (st1 & H1 & H2).
    rewrite (IH2 Hn2 _ _ H2). exact (IH1 Hn1 _ _ H1).
  - apply Bool.andb_true_iff in Hn. destruct Hn as [Hn1 Hn2].
    apply in_app_or in H. destruct H as [H|H]; eauto.
  - apply in_app_or in H. destruct H as [H|[<-|[]]]; eauto.
  - apply in_map_iff in H. now destruct H as (ps & <- & _).
  - discriminate.
  - destruct (xorb _ _); [|contradiction]. now destruct H as [<-|[]].
  - destruct (m r1 st); [|contradiction]. now destruct H as [<-|[]].
Qed.

Lemma groups_nocap (r : regex) : nocap r = true -> groups r = Some [].
Proof.
  induction r; simpl; intros H; try reflexivity; try discriminate;
    try (now rewrite H).
  apply Bool.andb_true_iff in H. destruct H as [H1 H2].
  now rewrite IHr1, IHr2.
Qed.

(** The matches of a pattern add one capture per group, each a text its
    group matches. *)
Lemma m_groups (r : regex) :
  forall gs, groups r = Some gs ->
  forall st st', In st' (m r st) ->
  exists ws, caps st' = (caps st ++ ws)%list /\ Forall2 matched gs ws.
Proof.
  assert (base : forall r0, nocap r0 = true ->
            forall st st', In st' (m r0 st) ->
            exists ws, caps st' = (caps st ++ ws)%list /\ Forall2 matched [] ws).
  { intros r0 Hn st st' H. exists []. split; [|constructor].
    rewrite app_nil_r. eapply m_nocap; eauto. }
  induction r as [|p|r1 IH1 r2 IH2|r1 _ r2 _|r1 _|p lo hi|r1 _| |r1 _];
    intros gs Hg st st' H.
  - simpl in Hg. injection Hg as <-. now apply (base Eps eq_refl).
  - simpl in Hg. injection Hg as <-. now apply (base (Cls p) eq_refl).
  - simpl in Hg. destruct (groups r1) as [g1|]; [|discriminate].
    destruct (groups r2) as [g2|]; [|discriminate]. injection Hg as <-.
    simpl in H. apply in_flat_map in H. destruct H as (st1 & H1 & H2).
    destruct (IH1 _ eq_refl _ _ H1) as (ws1 & E1 & F1).
    destruct (IH2 _ eq_refl _ _ H2) as (ws2 & E2 & F2).
    exists (ws1 ++ ws2)%list. split.
    + now rewrite E2, E1, app_assoc.
    + now apply Forall2_app.
  - simpl in Hg. destruct (nocap r1 && nocap r2) eqn:Hn; [|discriminate].
    injection Hg as <-. now apply (base (Alt r1 r2) Hn).
  - simpl in Hg. destruct (nocap r1) eqn:Hn; [|discriminate].
    injection Hg as <-. now apply (base (Opt r1) Hn).
  - simpl in Hg. injection Hg as <-. now apply (base (Rep p lo hi) eq_refl).
  - simpl in Hg. destruct (nocap r1) eqn:Hn; [|discriminate].
    injection Hg as <-. simpl in H.
    apply in_map_iff in H. destruct H as (st1 & <- & H). simpl.
    rewrite (m_nocap r1 Hn _ _ H).
    exists [consumed (rest st) (rest st1)]. split; [reflexivity|].
    constructor; [|constructor]. now exists st, st1.
  - simpl in Hg. injection Hg as <-. now apply (base WordB eq_refl).
  - simpl in Hg. destruct (nocap r1) eqn:Hn; [|discriminate].
    injection Hg as <-. now apply (base (NotAhead r1) Hn).
Qed.

End MatchFacts.

(* ===================================================================== *)
(** * Properties of the parser *)
(* ===================================================================== *)

Module ParserFacts.

Import PyStr Re Parser Spec MatchFacts.
Local Open Scope result_scope.

(** ** [int] on a run of digits *)

Lemma isdigit_plain (c : ascii) :
  isdigit c = true ->
  int_space c = false /\ Ascii.eqb c "+" = false /\ Ascii.eqb c "-" = false.
Proof.
  destruct c as [b0 b1 b2 b3 b4 b5 b6 b7].
  destruct b0, b1, b2, b3, b4, b5, b6, b7; vm_compute;
    intros H; try discriminate H; repeat split.
Qed.

Lemma rstrip_digits (w : string) : all isdigit w = true -> rstrip w = w.
Proof.
  induction w as [|c w IH]; simpl; [reflexivity|].
  intros H. apply Bool.andb_true_iff in H. destruct H as [Hc Hw].
  rewrite (IH Hw). destruct w; [|reflexivity].
  destruct (isdigit_plain c Hc) as (-> & _). reflexivity.
Qed.

Lemma int_digits_all (w : string) :
  all isdigit w = true ->
  forall acc, exists n, int_digits acc true w = Ok n.
Proof.
  induction w as [|c w IH]; simpl; intros H acc; [now exists acc|].
  apply Bool.andb_true_iff in H. destruct H as [-> Hw]. apply IH, Hw.
Qed.

Lemma digit_count_length (w : string) :
  (0 <= digit_count w <= Z.of_nat (String.length w))%Z.
Proof.
  induction w as [|c w IH]; [simpl; lia|].
  change (String.length (String c w)) with (S (String.length w)).
  simpl digit_count. destruct (isdigit c); lia.
Qed.

(** A run of digits within the limit of [int] is below the limit. *)
Lemma digits_within_limit (w : string) :
  (Z.of_nat (String.length w) <= int_max_str_digits)%Z ->
  (int_max_str_digits <? digit_count w)%Z = false.
Proof.
  intros H. pose proof (digit_count_length w).
  destruct (Z.ltb_spec int_max_str_digits (digit_count w)); [lia|reflexivity].
Qed.

Lemma int_number (w : string) :
  is_number w -> (Z.of_nat (String.length w) <= int_max_str_digits)%Z ->
  exists n, int w = Ok n.
Proof.
  intros [Hne Hall] Hlen. destruct w as [|c w]; [contradiction|].
  pose proof Hall as Hall'. simpl in Hall'.
  apply Bool.andb_true_iff in Hall'. destruct Hall' as [Hc Hw].
  destruct (isdigit_plain c Hc) as (Hsp & Hplus & Hminus).
  unfold int. simpl lstrip. rewrite Hsp, (rstrip_digits _ Hall).
  rewrite (digits_within_limit _ Hlen).
  rewrite Hplus, Hminus. simpl. rewrite Hc. apply int_digits_all, Hw.
Qed.

Lemma matched_digits (lo : nat) (hi : option nat) (w : string) :
  matched (digits (S lo) hi) w -> is_number w.
Proof.
  intros (st & st' & H & ->). simpl in H.
  apply in_map_iff in H. destruct H as ([pv s'] & <- & H). simpl.
  apply rep_cls_spec in H. destruct H as (w & -> & Hw & Hlo & _).
  rewrite consumed_append. split; [|exact Hw].
  destruct w; [simpl in Hlo; lia|discriminate].
Qed.

Lemma matched_digits_length (lo hi : nat) (w : string) :
  matched (digits lo (Some hi)) w ->
  all isdigit w = true /\ lo <= String.length w <= hi.
Proof.
  intros (st & st' & H & ->). simpl in H.
  apply in_map_iff in H. destruct H as ([pv s'] & <- & H). simpl.
  apply rep_cls_spec in H. destruct H as (w & -> & Hw & Hlo & Hhi).
  rewrite consumed_append. now repeat split.
Qed.

(** [int] never fails on the one or two digits of a day number. *)
Lemma int_two_digits (w : string) :
  matched (digits 1 (Some 2)) w -> exists n, int w = Ok n.
Proof.
  intros H. apply int_number; [exact (matched_digits H)|].
  destruct (matched_digits_length H) as (_ & _ & Hhi).
  unfold int_max_str_digits. lia.
Qed.

(** ** What [findall] returns *)

Lemma findall_from_in (r : regex) (s : string) :
  forall skip pv c,
    In c (findall_from r skip pv s) ->
    exists pv' s' st, In st (m r (start pv' s')) /\ c = caps st.
Proof.
  induction s as [|x s IH]; intros skip pv c H.
  - destruct skip; simpl in H; [|contradiction].
    destruct (m r (start pv "")) as [|st l] eqn:E; [contradiction|].
    destruct H as [<-|[]]. exists pv, "", st. rewrite E. now split; [left|].
  - destruct skip; simpl in H; [|eauto].
    destruct (m r (start pv (String x s))) as [|st l] eqn:E; [eauto|].
    destruct H as [<-|H]; [|eauto].
    exists pv, (String x s), st. rewrite E. now split; [left|].
Qed.

Lemma findall_groups (r : regex) (gs : list regex) (s : string) (c : list string) :
  groups r = Some gs -> In c (findall r s) -> Forall2 matched gs c.
Proof.
  intros Hg H. apply findall_from_in in H.
  destruct H as (pv & s' & st & H & ->).
  destruct (m_groups r Hg _ _ H) as (ws & E & F).
  simpl in E. now rewrite E.
Qed.

(** ** The two loops over matches never raise in [parse_restriction] *)

Lemma time_ranges_of_ok (matches : list (list string)) :
  (forall c, In c matches -> length c = 2) ->
  exists trs, time_ranges_of matches = Ok trs.
Proof.
  induction matches as [|c ms IH]; intros H; [now exists []|].
  destruct IH as (trs & E); [intros; apply H; now right|].
  pose proof (H c (or_introl eq_refl)) as Hc.
  destruct c as [|a [|b [|? ?]]]; try discriminate Hc.
  simpl. rewrite E. simpl. eauto.
Qed.

Lemma date_range_of_ok (c : list string) :
  Forall2 matched
    [digits 1 (Some 2); alt (map lit_i month_names);
     alt [lit_i "AU"; lit_i "A"; lit_i "ET"];
     digits 1 (Some 2); alt (map lit_i month_names)] c ->
  exists r, date_range_of c = Ok r.
Proof.
  intros H.
  inversion H as [|g1 sd ? ? Hsd H1]; subst; clear H.
  inversion H1 as [|g2 sm ? ? _ H2]; subst; clear H1.
  inversion H2 as [|g3 cn ? ? _ H3]; subst; clear H2.
  inversion H3 as [|g4 ed ? ? Hed H4]; subst; clear H3.
  inversion H4 as [|g5 em ? ? _ H5]; subst; clear H4.
  inversion H5; subst; clear H5.
  unfold date_range_of.
  destruct ((month_number sm >? 0)%Z && (month_number em >? 0)%Z); [|eauto].
  destruct (int_two_digits Hsd) as (n1 & ->).
  destruct (int_two_digits Hed) as (n2 & ->).
  simpl. eauto.
Qed.

Lemma date_ranges_of_ok (matches : list (list string)) :
  (forall c, In c matches -> exists r, date_range_of c = Ok r) ->
  exists drs, date_ranges_of matches = Ok drs.
Proof.
  induction matches as [|c ms IH]; intros H; [now exists []|].
  destruct IH as (drs & E); [intros; apply H; now right|].
  destruct (H c (or_introl eq_refl)) as (r & Er).
  simpl. rewrite Er, E. simpl. eauto.
Qed.

Lemma time_pattern_groups : groups time_pattern = Some [clock; clock].
Proof. reflexivity. Qed.

Lemma date_pattern_groups :
  groups date_pattern
  = Some [digits 1 (Some 2); alt (map lit_i month_names);
          alt [lit_i "AU"; lit_i "A"; lit_i "ET"];
          digits 1 (Some 2); alt (map lit_i month_names)].
Proof. reflexivity. Qed.

Lemma time_matches_ok (d : string) :
  exists trs, time_ranges_of (findall time_pattern d) = Ok trs.
Proof.
  apply time_ranges_of_ok. intros c H.
  apply (findall_groups _ _ _ time_pattern_groups) in H.
  inversion H as [|? ? ? ? _ H1]; subst.
  inversion H1 as [|? ? ? ? _ H2]; subst. now inversion H2.
Qed.

Lemma date_matches_ok (d : string) :
  exists drs, date_ranges_of (findall date_pattern d) = Ok drs.
Proof.
  apply date_ranges_of_ok. intros c H. apply date_range_of_ok.
  exact (findall_groups _ _ _ date_pattern_groups H).
Qed.

(** [parse_restriction] returns on every text, with these fields. *)
Lemma parse_text_ok (d : string) :
  exists trs drs,
    time_ranges_of (findall time_pattern d) = Ok trs
    /\ date_ranges_of (findall date_pattern d) = Ok drs
    /\ parse_text d
       = Ok {| type := fst (restriction_type d);
               is_restricted := snd (restriction_type d);
               time_ranges := trs;
               days := days_of d;
               date_ranges := drs;
               special := special_of d;
               all_time := contains "EN TOUT TEMPS" d;
               raw_description := PyStr d |}.
Proof.
  destruct (time_matches_ok d) as (trs & Et).
  destruct (date_matches_ok d) as (drs & Ed).
  exists trs, drs. repeat split; auto.
  unfold parse_text. destruct (restriction_type d) as [ty restricted].
  rewrite Et, Ed. reflexivity.
Qed.

Lemma parse_restriction_ok (desc : pyval) :
  exists r, parse_restriction desc = Ok r.
Proof.
  unfold parse_restriction. destruct (is_empty desc); [eauto|].
  destruct desc as [| |d]; eauto.
  destruct (parse_text_ok d) as (trs & drs & _ & _ & ->). eauto.
Qed.

End ParserFacts.

(* ===================================================================== *)
(** * Texts without markers, and the months of a date match *)
(* ===================================================================== *)

Module MarkerFacts.

Import PyStr Re Parser Spec MatchFacts ParserFacts.
Local Open Scope result_scope.







Lemma prefix_append (p s : string) :
  String.prefix p s = true -> exists t, s = p ++ t.
Proof.
  revert s. induction p as [|c p IH]; intros s H; [now exists s|].
  destruct s as [|x s]; simpl in H; [discriminate|].
  destruct (ascii_dec c x) as [->|]; [|discriminate].
  destruct (IH _ H) as (t & ->). now exists t.
Qed.




(** ** The months of a date match *)

Lemma m_lit_i (name : string) :
  forall st st', In st' (m (lit_i name) st) ->
  exists w, rest st = w ++ rest st' /\ lower w = lower name.
Proof.
  induction name as [|c name IH]; intros st st' H.
  - simpl in H. destruct H as [<-|[]]. now exists "".
  - assert (Hc : forall st0 st1, In st1 (m (chr_i c) st0) ->
              exists x, rest st0 = String x (rest st1)
                        /\ lower_char x = lower_char c).
    { intros st0 st1 H1. simpl in H1.
      destruct (rest st0) as [|x s]; [contradiction|].
      destruct (Ascii.eqb_spec (lower_char x) (lower_char c)); [|contradiction].
      destruct H1 as [<-|[]]. now exists x. }
    destruct name as [|c' name].
    + apply Hc in H. destruct H as (x & -> & E).
      exists (String x ""). simpl. now rewrite E.
    + change (lit_i (String c (String c' name)))
        with (Seq (chr_i c) (lit_i (String c' name))) in H.
      simpl m in H. apply in_flat_map in H. destruct H as (st1 & H1 & H2).
      apply Hc in H1. destruct H1 as (x & -> & E).
      apply IH in H2. destruct H2 as (w & -> & Ew).
      exists (String x w). split; [reflexivity|].
      simpl lower at 1. rewrite E, Ew. reflexivity.
Qed.

Lemma matched_lit_i (name w : string) :
  matched (lit_i name) w -> lower w = lower name.
Proof.
  intros (st & st' & H & ->). apply m_lit_i in H.
  destruct H as (w & -> & E). now rewrite consumed_append.
Qed.

Lemma matched_alt (r1 r2 : regex) (w : string) :
  matched (Alt r1 r2) w -> matched r1 w \/ matched r2 w.
Proof.
  intros (st & st' & H & ->). simpl in H. apply in_app_or in H.
  destruct H as [H|H]; [left|right]; now exists st, st'.
Qed.

Lemma matched_alt_lit_i (names : list string) (w : string) :
  names <> [] ->
  matched (alt (map lit_i names)) w ->
  exists name, In name names /\ lower w = lower name.
Proof.
  induction names as [|name names IH]; intros Hne H; [contradiction|].
  destruct names as [|name' names].
  - exists name. split; [now left|]. now apply matched_lit_i.
  - change (alt (map lit_i (name :: name' :: names)))
      with (Alt (lit_i name) (alt (map lit_i (name' :: names)))) in H.
    apply matched_alt in H. destruct H as [H|H].
    + exists name. split; [now left|]. now apply matched_lit_i.
    + destruct IH as (n & Hin & E); [discriminate|exact H|].
      exists n. split; [now right|exact E].
Qed.

(** A month name matched by [date_pattern] always has a number. *)
Lemma matched_month_number (w : string) :
  matched (alt (map lit_i month_names)) w -> (month_number w >? 0)%Z = true.
Proof.
  intros H. apply matched_alt_lit_i in H; [|discriminate].
  destruct H as (name & Hin & E).
  unfold month_number. rewrite E. clear E w.
  unfold month_names in Hin. simpl in Hin.
  repeat (destruct Hin as [<-|Hin]; [vm_compute; reflexivity|]).
  contradiction.
Qed.

(** Every match [date_pattern] finds in a text gives a date range: its
    months resolve and its day numbers convert. *)
Lemma date_match_resolves (d : string) (c : list string) :
  In c (findall date_pattern d) ->
  exists dr, date_range_of c = Ok (Some dr).
Proof.
  intros H. apply (findall_groups _ _ _ date_pattern_groups) in H.
  inversion H as [|g1 sd ? ? Hsd H1]; subst; clear H.
  inversion H1 as [|g2 sm ? ? Hsm H2]; subst; clear H1.
  inversion H2 as [|g3 cn ? ? _ H3]; subst; clear H2.
  inversion H3 as [|g4 ed ? ? Hed H4]; subst; clear H3.
  inversion H4 as [|g5 em ? ? Hem H5]; subst; clear H4.
  inversion H5; subst; clear H5.
  unfold date_range_of.
  rewrite (matched_month_number Hsm), (matched_month_number Hem). simpl.
  destruct (int_two_digits Hsd) as (n1 & ->).
  destruct (int_two_digits Hed) as (n2 & ->).
  simpl. eauto.
Qed.

End MarkerFacts.

(* ===================================================================== *)
(** * Properties of the interval generator *)
(* ===================================================================== *)

Module OsmFacts.

Import PyStr Osm Spec.
Local Open Scope result_scope.

Section Generic.

Context {F : Type} {G : Geometry F}.

(** The loop stays within the segments of the street. *)
Lemma segment_loop_bound (p : F * F) (coords : list (F * F)) :
  forall i min_distance segment_index,
    segment_index <= i ->
    segment_loop p coords i min_distance segment_index
    <= Nat.max segment_index (i + (length coords - 2)).
Proof.
  induction coords as [|a coords IH]; intros i md idx Hi; [simpl; lia|].
  destruct coords as [|b coords]; [simpl; lia|].
  change (segment_loop p (a :: b :: coords) i md idx)
    with (if f_lt (distance p [a; b]) md
          then segment_loop p (b :: coords) (S i) (distance p [a; b]) i
          else segment_loop p (b :: coords) (S i) md idx).
  destruct coords as [|c coords].
  - simpl. destruct (f_lt (distance p [a; b]) md); lia.
  - pose proof (IH (S i) (distance p [a; b]) i) as IH1.
    pose proof (IH (S i) md idx) as IH2.
    remember (b :: c :: coords) as tl.
    assert (length (a :: tl) - 2 = S (length tl - 2)) as ->
        by (subst tl; simpl; lia).
    destruct (f_lt (distance p [a; b]) md); lia.
Qed.

Lemma find_segment_bound (street : list (F * F)) (sign : F * F) :
  2 <= length street -> find_segment street sign + 1 < length street.
Proof.
  intros H. unfold find_segment.
  pose proof (segment_loop_bound (nearest street sign) street
                (i := 0) f_inf (segment_index := 0) (le_n 0)).
  lia.
Qed.


(** The two vertices of the segment found, on a street of two vertices
    or more. *)
Lemma segment_ends (street : list (F * F)) (sign : F * F) :
  2 <= length street ->
  exists seg_start seg_end,
    nth_error street (find_segment street sign) = Some seg_start
    /\ nth_error street (find_segment street sign + 1) = Some seg_end.
Proof.
  intros H. pose proof (find_segment_bound street sign H) as Hb.
  destruct (nth_error street (find_segment street sign)) as [s|] eqn:Es.
  - destruct (nth_error street (find_segment street sign + 1)) as [e|] eqn:Ee.
    + now exists s, e.
    + apply nth_error_None in Ee. lia.
  - apply nth_error_None in Es. lia.
Qed.

(** What [create_street_interval] returns, direction by direction. *)
Lemma create_street_interval_eq (street : list (F * F)) (sign : F * F)
      (direction : string) (interval_length : F) (seg_start seg_end : F * F) :
  nth_error street (find_segment street sign) = Some seg_start ->
  nth_error street (find_segment street sign + 1) = Some seg_end ->
  create_street_interval street sign direction interval_length
  = Ok (if String.eqb direction "both_sides"
        then [[seg_start; nearest street sign];
              [nearest street sign; seg_end]]
        else if String.eqb direction "left"
        then [[seg_start; nearest street sign]]
        else if String.eqb direction "right"
        then [[nearest street sign; seg_end]]
        else if String.eqb direction "up"
        then [[interpolate street
                 (f_max f_zero (f_sub (project street sign)
                                      (f_half interval_length)));
               interpolate street
                 (f_add (project street sign) (f_half interval_length))]]
        else [[(f_sub (fst (nearest street sign)) f_eps,
                snd (nearest street sign));
               (f_add (fst (nearest street sign)) f_eps,
                snd (nearest street sign))]]).
Proof.
  intros Es Ee. unfold create_street_interval, index. cbv zeta.
  unfold linestring, point in *.
  destruct (nearest street sign) as [nx ny].
  rewrite Es, Ee.
  destruct seg_start as [sx sy], seg_end as [ex ey]. simpl.
  repeat match goal with
         | |- context [String.eqb direction ?s] =>
             destruct (String.eqb direction s)
         end; reflexivity.
Qed.

End Generic.

End OsmFacts.

(* ===================================================================== *)
(** * The availability evaluator against its specification *)
(* ===================================================================== *)

Module EvaluatorSpec.

Import PyStr Re Parser Spec Samples EvaluatorFacts ParserFacts.
Local Open Scope result_scope.

Lemma time_leb_refl (t : time) : time_leb t t = true.
Proof.
  unfold time_leb, time_compare. now rewrite !Z.compare_refl.
Qed.

Lemma existsb_true_iff {A : Type} (f : A -> bool) (l : list A) :
  existsb f l = true <-> exists x, In x l /\ f x = true.
Proof. apply existsb_exists. Qed.

(** C1, as the code has it. [is_parking_allowed] answers [False] as soon
    as the rule is restricted at all times. Otherwise, on a rule whose
    time ranges read as times of day, it answers the negation of "the
    restriction applies and the rule is restricted", where the restriction
    applies when the day gate, the time gate and the date gate all hold. A
    gate holds when its field is empty or when the instant is in one of
    its entries, the two ends of a time window included. A restricted rule
    with three empty gates is therefore never allowed. *)
Theorem is_allowed_contract (r : restriction) (now : datetime) :
  (all_time r = true -> is_parking_allowed r now = Ok false)
  /\ (all_time r = false ->
      forall windows, denotes (time_ranges r) windows ->
      is_parking_allowed r now
      = Ok (negb ((day_gate (days r) (strftime_A now)
                   && time_gate windows (time_of now)
                   && date_gate (date_ranges r) (month now) (day now))
                  && is_restricted r)))
  /\ (forall ds name,
      day_gate ds name = true <-> ds = [] \/ In name ds)
  /\ (forall ws t,
      time_gate ws t = true
      <-> ws = [] \/ exists w, In w ws /\ time_leb (fst w) t = true
                               /\ time_leb t (snd w) = true)
  /\ (forall a b, time_leb a b = true ->
      in_window a (a, b) = true /\ in_window b (a, b) = true)
  /\ (forall drs mo d,
      date_gate drs mo d = true
      <-> drs = [] \/ exists dr, In dr drs /\ in_date_range dr mo d = true)
  /\ (days r = [] -> time_ranges r = [] -> date_ranges r = [] ->
      is_restricted r = true -> is_parking_allowed r now = Ok false).
Proof.
  split; [|split; [|split; [|split; [|split; [|split]]]]].
  - intros H. unfold is_parking_allowed. now rewrite H.
  - intros H windows Hw.
    rewrite is_parking_allowed_gates with (windows := windows) by exact Hw.
    now rewrite H.
  - intros ds name. destruct ds as [|x ds]; simpl; [now intuition|].
    change (mem name (x :: ds) = true <-> x :: ds = [] \/ In name (x :: ds)).
    unfold mem. rewrite existsb_true_iff. split.
    + intros (y & Hy & E). apply String.eqb_eq in E. subst y. now right.
    + intros [H|H]; [discriminate|].
      exists name. split; [exact H|apply String.eqb_refl].
  - intros ws t. destruct ws as [|w ws]; [simpl; now intuition|].
    unfold time_gate. rewrite existsb_true_iff. split.
    + intros (y & Hy & E). right. exists y. split; [exact Hy|].
      unfold in_window in E. now apply Bool.andb_true_iff in E.
    + intros [H|(y & Hy & E1 & E2)]; [discriminate|].
      exists y. split; [exact Hy|]. unfold in_window. now rewrite E1, E2.
  - intros a b H. unfold in_window. simpl.
    now rewrite !time_leb_refl, H.
  - intros drs mo d. destruct drs as [|dr drs]; [simpl; now intuition|].
    unfold date_gate. rewrite existsb_true_iff. split.
    + intros (y & Hy & E). right. now exists y.
    + intros [H|(y & Hy & E)]; [discriminate|]. now exists y.
  - intros Hd Ht Hdr Hr.
    rewrite is_parking_allowed_gates with (windows := [])
      by (rewrite Ht; constructor).
    rewrite Hd, Hdr, Hr. simpl. now destruct (all_time r).
Qed.

(** One date range. When its start month is greater than its end
    month, the range holds the dates on or after its start or on or
    before its end, and leaves out exactly the dates strictly between its
    end and its start. Otherwise it holds the dates that are both on or
    after its start and on or before its end. *)
Lemma in_date_range_cases (dr : date_range) (mo d : Z) :
  ((start_month dr > end_month dr)%Z ->
   (in_date_range dr mo d = true
    <-> md_le (range_start dr) (mo, d) \/ md_le (mo, d) (range_end dr))
   /\ (in_date_range dr mo d = false
       <-> md_lt (range_end dr) (mo, d) /\ md_lt (mo, d) (range_start dr)))
  /\ ((start_month dr <= end_month dr)%Z ->
      (in_date_range dr mo d = true
       <-> md_le (range_start dr) (mo, d) /\ md_le (mo, d) (range_end dr))
      /\ (in_date_range dr mo d = false
          <-> md_lt (mo, d) (range_start dr)
              \/ md_lt (range_end dr) (mo, d))).
Proof.
  unfold in_date_range, range_start, range_end. split; intros H.
  - assert (E : (start_month dr >? end_month dr)%Z = true) by lia.
    rewrite E. split.
    + now rewrite Bool.orb_true_iff, on_or_after_le, on_or_before_le.
    + rewrite Bool.orb_false_iff, !md_lt_not_le.
      rewrite <- (on_or_after_le mo d (start_month dr) (start_day dr)).
      rewrite <- (on_or_before_le mo d (end_month dr) (end_day dr)).
      rewrite !Bool.not_true_iff_false. tauto.
  - assert (E : (start_month dr >? end_month dr)%Z = false) by lia.
    rewrite E. split.
    + now rewrite Bool.andb_true_iff, on_or_after_le, on_or_before_le.
    + rewrite Bool.andb_false_iff, !md_lt_not_le.
      rewrite <- (on_or_after_le mo d (start_month dr) (start_day dr)).
      rewrite <- (on_or_before_le mo d (end_month dr) (end_day dr)).
      rewrite !Bool.not_true_iff_false. tauto.
Qed.

Lemma existsb_false_iff {A : Type} (f : A -> bool) (l : list A) :
  existsb f l = false <-> forall x, In x l -> f x = false.
Proof.
  induction l as [|a l IH]; simpl; [now intuition|].
  rewrite Bool.orb_false_iff, IH. split.
  - intros [Ha Hl] x [<-|Hx]; [exact Ha|now apply Hl].
  - intros H. split; [now apply H; left|]. intros x Hx. apply H. now right.
Qed.

(** C3. The date gate of [is_parking_allowed] reads every date range of
    the rule, and holds when there is none or when the date of the instant
    is in one of them. A range whose start month is greater than its end
    month holds the dates on or after its start or on or before its end;
    any other range holds the dates both on or after its start and on or
    before its end. So the gate fails exactly when the rule has ranges
    and the date is, for each of the first kind, strictly between its end
    and its start and, for each of the second kind, strictly before its
    start or strictly after its end. On a restricted rule with date
    ranges as its only constraint the evaluator forbids parking exactly
    when the gate holds. *)
Theorem date_range_wraparound (r : restriction) (now : datetime) :
  (date_match r now = true
   <-> date_ranges r = []
       \/ exists dr,
            In dr (date_ranges r)
            /\ (((start_month dr > end_month dr)%Z
                 /\ (md_le (range_start dr) (month now, day now)
                     \/ md_le (month now, day now) (range_end dr)))
                \/ ((start_month dr <= end_month dr)%Z
                    /\ md_le (range_start dr) (month now, day now)
                    /\ md_le (month now, day now) (range_end dr))))
  /\ (date_match r now = false
      <-> date_ranges r <> []
          /\ forall dr,
               In dr (date_ranges r) ->
               ((start_month dr > end_month dr)%Z ->
                md_lt (range_end dr) (month now, day now)
                /\ md_lt (month now, day now) (range_start dr))
               /\ ((start_month dr <= end_month dr)%Z ->
                   md_lt (month now, day now) (range_start dr)
                   \/ md_lt (range_end dr) (month now, day now)))
  /\ (all_time r = false -> is_restricted r = true ->
      days r = [] -> time_ranges r = [] ->
      is_parking_allowed r now = Ok (negb (date_match r now))).
Proof.
  split; [|split].
  - rewrite date_match_gate. unfold date_gate.
    destruct (date_ranges r) as [|dr0 drs] eqn:E.
    + split; [now left|reflexivity].
    + rewrite existsb_true_iff. split.
      * intros (dr & Hin & H). right. exists dr. split; [exact Hin|].
        destruct (in_date_range_cases dr (month now) (day now)) as [Hw Hn].
        destruct (Z_gt_le_dec (start_month dr) (end_month dr)) as [Hc|Hc].
        -- left. split; [exact Hc|]. now apply (proj1 (Hw Hc)).
        -- right. split; [exact Hc|]. now apply (proj1 (Hn Hc)).
      * intros [H|(dr & Hin & H)]; [discriminate H|].
        exists dr. split; [exact Hin|].
        destruct (in_date_range_cases dr (month now) (day now)) as [Hw Hn].
        destruct H as [[Hc H]|[Hc H]].
        -- now apply (proj1 (Hw Hc)).
        -- now apply (proj1 (Hn Hc)).
  - rewrite date_match_gate. unfold date_gate.
    destruct (date_ranges r) as [|dr0 drs] eqn:E.
    + split; [discriminate|]. intros [H _]. now contradiction H.
    + rewrite existsb_false_iff. split.
      * intros H. split; [discriminate|]. intros dr Hin.
        destruct (in_date_range_cases dr (month now) (day now)) as [Hw Hn].
        split; intros Hc.
        -- now apply (proj2 (Hw Hc)), H.
        -- now apply (proj2 (Hn Hc)), H.
      * intros [_ H] dr Hin.
        destruct (in_date_range_cases dr (month now) (day now)) as [Hw Hn].
        destruct (H dr Hin) as [H1 H2].
        destruct (Z_gt_le_dec (start_month dr) (end_month dr)) as [Hc|Hc].
        -- now apply (proj2 (Hw Hc)), H1.
        -- now apply (proj2 (Hn Hc)), H2.
  - intros Ha Hr Hd Ht.
    rewrite is_parking_allowed_gates with (windows := [])
      by (rewrite Ht; constructor).
    rewrite Ha, Hd, Hr, date_match_gate. simpl.
    now rewrite Bool.andb_true_r.
Qed.

(** C10. A time window whose start is strictly later than its end holds
    no time of day. So when a rule has time windows and each of them
    starts later than it ends, its time gate is false at every instant
    and the restriction never applies: the rule is allowed unless it is
    restricted at all times. *)
Theorem overnight_window_never_matches :
  (forall t start_time end_time,
      time_lt end_time start_time ->
      in_window t (start_time, end_time) = false)
  /\ (forall r windows now,
         time_ranges r <> [] ->
         denotes (time_ranges r) windows ->
         (forall w, In w windows -> time_lt (snd w) (fst w)) ->
         time_match r now = Ok false
         /\ is_parking_allowed r now = Ok (negb (all_time r))).
Proof.
  split; [exact in_window_empty|].
  intros r windows now Hne Hw Hlate.
  assert (Hg : time_gate windows (time_of now) = false).
  { unfold time_gate. destruct Hw; [contradiction|].
    now apply existsb_in_window_empty. }
  split.
  - rewrite time_match_denotes with (windows := windows) by exact Hw.
    now rewrite Hg.
  - rewrite is_parking_allowed_gates with (windows := windows) by exact Hw.
    rewrite Hg, Bool.andb_false_r. simpl. now destruct (all_time r).
Qed.

Lemma is_allowed_contract_witness :
  is_parking_allowed all_time_rule tuesday_noon = Ok false
  /\ is_parking_allowed weekday_rule tuesday_noon = Ok false
  /\ in_window (Time 9 0 0 0) (Time 9 0 0 0, Time 18 0 0 0) = true
  /\ is_parking_allowed bare_rule tuesday_noon = Ok false.
Proof.
  split; [|split; [|split]].
  - apply (proj1 (is_allowed_contract all_time_rule tuesday_noon)).
    reflexivity.
  - apply (proj1 (proj2 (is_allowed_contract weekday_rule tuesday_noon))
             eq_refl [(Time 9 0 0 0, Time 18 0 0 0)]).
    constructor; [reflexivity|constructor].
  - apply (proj1 (proj2 (proj2 (proj2 (proj2
             (is_allowed_contract weekday_rule tuesday_noon)))))).
    reflexivity.
  - apply (proj2 (proj2 (proj2 (proj2 (proj2 (proj2
             (is_allowed_contract bare_rule tuesday_noon)))))));
      reflexivity.
Defined.

(** C1, as the specification words it, fails: the rule parsed from a
    sign whose time range starts at hour 25 is not restricted at all
    times, and on it the evaluator raises at every instant instead of
    answering. *)
Lemma ill_formed_window_raises :
  parse_restriction (PyStr "\P 25h00-26h00") = Ok late_rule
  /\ all_time late_rule = false
  /\ (forall now, is_parking_allowed late_rule now = Raise ValueError)
  /\ ~ (forall r now, exists allowed, is_parking_allowed r now = Ok allowed).
Proof.
  split; [vm_compute; reflexivity|].
  split; [reflexivity|].
  assert (H : forall now, is_parking_allowed late_rule now = Raise ValueError)
    by (intros now; reflexivity).
  split; [exact H|].
  intros A. destruct (A late_rule tuesday_noon) as (allowed & E).
  rewrite H in E. discriminate E.
Qed.

Lemma date_range_wraparound_witness :
  date_match winter_rule (DateTime 2023 12 1 (Time 12 0 0 0)) = true
  /\ date_match winter_rule (DateTime 2024 2 1 (Time 12 0 0 0)) = true
  /\ date_match winter_rule (DateTime 2024 7 1 (Time 12 0 0 0)) = false
  /\ date_match summer_rule (DateTime 2023 10 10 (Time 12 0 0 0)) = true
  /\ is_parking_allowed winter_rule (DateTime 2023 12 1 (Time 12 0 0 0))
     = Ok false
  /\ is_parking_allowed winter_rule (DateTime 2024 7 1 (Time 12 0 0 0))
     = Ok true.
Proof.
  split; [|split; [|split; [|split; [|split]]]].
  - apply (proj1 (date_range_wraparound
                    winter_rule (DateTime 2023 12 1 (Time 12 0 0 0)))).
    right. exists winter. split; [left; reflexivity|].
    left. split; [reflexivity|]. left. vm_compute. discriminate.
  - apply (proj1 (date_range_wraparound
                    winter_rule (DateTime 2024 2 1 (Time 12 0 0 0)))).
    right. exists winter. split; [left; reflexivity|].
    left. split; [reflexivity|]. right. vm_compute. discriminate.
  - apply (proj1 (proj2 (date_range_wraparound
                           winter_rule (DateTime 2024 7 1 (Time 12 0 0 0))))).
    split; [discriminate|]. intros dr [<-|[]]. split.
    + intros _. split; reflexivity.
    + intros H. vm_compute in H. now contradiction H.
  - apply (proj1 (date_range_wraparound
                    summer_rule (DateTime 2023 10 10 (Time 12 0 0 0)))).
    right. exists summer. split; [left; reflexivity|].
    right. split; [vm_compute; discriminate|].
    split; vm_compute; discriminate.
  - apply (proj2 (proj2 (date_range_wraparound
                           winter_rule (DateTime 2023 12 1 (Time 12 0 0 0)))));
      reflexivity.
  - apply (proj2 (proj2 (date_range_wraparound
                           winter_rule (DateTime 2024 7 1 (Time 12 0 0 0)))));
      reflexivity.
Defined.

Lemma overnight_window_never_matches_witness :
  in_window (Time 23 0 0 0) (Time 22 0 0 0, Time 6 0 0 0) = false
  /\ time_match overnight_rule tuesday_night = Ok false
  /\ is_parking_allowed overnight_rule tuesday_night = Ok true.
Proof.
  split.
  - apply (proj1 overnight_window_never_matches). reflexivity.
  - apply (proj2 overnight_window_never_matches overnight_rule
             [(Time 22 0 0 0, Time 6 0 0 0)] tuesday_night).
    + discriminate.
    + constructor; [reflexivity|constructor].
    + intros w [<-|[]]. reflexivity.
Defined.

(** ** Paid rules *)

Lemma kind_of_paid (r : restriction) :
  kind_of r = Some Paid -> type r = Some "$".
Proof.
  unfold kind_of, kind_of_type. destruct (type r) as [t|]; [|discriminate].
  destruct (String.eqb_spec t "P"); [discriminate|].
  destruct (String.eqb_spec t "A"); [discriminate|].
  destruct (String.eqb_spec t "$"); [now subst|discriminate].
Qed.

Lemma parsed_paid_not_restricted (desc : pyval) (r : restriction) :
  parse_restriction desc = Ok r -> kind_of r = Some Paid ->
  is_restricted r = false.
Proof.
  intros Hp Hk. apply kind_of_paid in Hk.
  unfold parse_restriction in Hp.
  assert (Hi : Ok (initial desc) = Ok r -> is_restricted r = false).
  { intros H. injection H as <-. reflexivity. }
  destruct (is_empty desc); [auto|]. destruct desc as [| |d]; auto.
  destruct (parse_text_ok d) as (trs & drs & _ & _ & E).
  rewrite E in Hp. injection Hp as <-. simpl in *.
  unfold restriction_type in *.
  destruct (startswith "\P" d); [discriminate|].
  destruct (startswith "\A" d); [discriminate|].
  destruct (is_paid d); reflexivity.
Qed.

(** C2, as the code has it. A rule that [parse_restriction] classifies as
    paid is not restricted. It is allowed at every instant when it is
    not restricted at all times and its time ranges read as times of
    day; when it is restricted at all times it is never allowed. *)
Theorem paid_allowed_unless_all_time
        (desc : pyval) (r : restriction) (now : datetime) :
  parse_restriction desc = Ok r ->
  kind_of r = Some Paid ->
  is_restricted r = false
  /\ (all_time r = true -> is_parking_allowed r now = Ok false)
  /\ (all_time r = false ->
      forall windows, denotes (time_ranges r) windows ->
      is_parking_allowed r now = Ok true).
Proof.
  intros Hp Hk. pose proof (parsed_paid_not_restricted desc Hp Hk) as Hr.
  split; [exact Hr|split].
  - intros H. unfold is_parking_allowed. now rewrite H.
  - intros H windows Hw.
    rewrite is_parking_allowed_gates with (windows := windows) by exact Hw.
    now rewrite H, Hr, Bool.andb_false_r.
Qed.

Lemma paid_allowed_unless_all_time_witness :
  is_restricted meter_rule = false
  /\ is_parking_allowed meter_all_time_rule tuesday_noon = Ok false
  /\ is_parking_allowed meter_rule tuesday_noon = Ok true.
Proof.
  split; [|split].
  - apply (@paid_allowed_unless_all_time
             (PyStr "PARCOMETRE 9h-21h LUN A SAM") meter_rule tuesday_noon);
      vm_compute; reflexivity.
  - apply (@paid_allowed_unless_all_time
             (PyStr "PARCOMETRE EN TOUT TEMPS") meter_all_time_rule
             tuesday_noon); vm_compute; reflexivity.
  - apply (proj2 (proj2 (@paid_allowed_unless_all_time
             (PyStr "PARCOMETRE 9h-21h LUN A SAM") meter_rule tuesday_noon
             ltac:(vm_compute; reflexivity) ltac:(vm_compute; reflexivity)))
             eq_refl [(Time 9 0 0 0, Time 21 0 0 0)]).
    constructor; [reflexivity|constructor].
Defined.

(** C2, as the specification words it, fails: the meter restricted at
    all times is classified as paid, is not restricted, and is allowed at
    no instant. *)
Lemma paid_all_time_not_allowed :
  ~ (forall desc r now,
        parse_restriction desc = Ok r ->
        kind_of r = Some Paid ->
        is_restricted r = false ->
        is_parking_allowed r now = Ok true).
Proof.
  intros H.
  specialize (H (PyStr "PARCOMETRE EN TOUT TEMPS") meter_all_time_rule
                tuesday_noon).
  assert (E : is_parking_allowed meter_all_time_rule tuesday_noon = Ok true).
  { apply H; vm_compute; reflexivity. }
  discriminate E.
Qed.

End EvaluatorSpec.

(* ===================================================================== *)
(** * The parser against its specification *)
(* ===================================================================== *)

Module ParserSpec.

Import PyStr Re Parser Spec Samples MatchFacts ParserFacts MarkerFacts.
Local Open Scope result_scope.

(** The fields of the rule parsed from a text, empty or not. *)
Lemma parse_restriction_fields (d : string) :
  exists trs drs,
    time_ranges_of (findall time_pattern d) = Ok trs
    /\ date_ranges_of (findall date_pattern d) = Ok drs
    /\ parse_restriction (PyStr d)
       = Ok {| type := fst (restriction_type d);
               is_restricted := snd (restriction_type d);
               time_ranges := trs;
               days := days_of d;
               date_ranges := drs;
               special := special_of d;
               all_time := contains "EN TOUT TEMPS" d;
               raw_description := PyStr d |}.
Proof.
  destruct d as [|c d].
  - exists [], []. repeat split.
  - exact (parse_text_ok (String c d)).
Qed.






(** C5. The rule parsed from a text has one kind, found in this order: a
    no-parking prefix gives NoParking, restricted; failing that a
    no-stopping prefix gives NoStopping, restricted; failing that a paid
    signature (the meter keyword, or [P] followed by a duration in
    minutes or hours) gives Paid, not restricted; failing that the rule
    is Unrestricted, not restricted. *)
Theorem type_precedence (d : string) :
  exists r,
    parse_restriction (PyStr d) = Ok r
    /\ kind_of r = Some (classify d)
    /\ is_restricted r = restricted_kind (classify d)
    /\ (startswith "\P" d = true ->
        kind_of r = Some NoParking /\ is_restricted r = true)
    /\ (startswith "\P" d = false -> startswith "\A" d = true ->
        kind_of r = Some NoStopping /\ is_restricted r = true)
    /\ (startswith "\P" d = false -> startswith "\A" d = false ->
        is_paid d = true ->
        kind_of r = Some Paid /\ is_restricted r = false)
    /\ (startswith "\P" d = false -> startswith "\A" d = false ->
        is_paid d = false ->
        kind_of r = Some Unrestricted /\ is_restricted r = false).
Proof.
  destruct (parse_restriction_fields d) as (trs & drs & _ & _ & E).
  eexists. split; [exact E|].
  unfold kind_of, classify, restriction_type.
  cbn [type is_restricted].
  destruct (startswith "\P" d), (startswith "\A" d), (is_paid d);
    cbn [fst snd restricted_kind];
    repeat split; intros; try discriminate; reflexivity.
Qed.

Lemma type_precedence_witness :
  (exists r, parse_restriction (PyStr "\P PARCOMETRE 9h-21h") = Ok r
             /\ kind_of r = Some NoParking /\ is_restricted r = true)
  /\ (exists r, parse_restriction (PyStr "\A P 60 min") = Ok r
                /\ kind_of r = Some NoStopping /\ is_restricted r = true)
  /\ (exists r, parse_restriction (PyStr "P 60 min 9h-21h") = Ok r
                /\ kind_of r = Some Paid /\ is_restricted r = false)
  /\ (exists r, parse_restriction (PyStr "LUN 9h-21h") = Ok r
                /\ kind_of r = Some Unrestricted /\ is_restricted r = false).
Proof.
  split; [|split; [|split]].
  - destruct (type_precedence "\P PARCOMETRE 9h-21h")
      as (r & E & _ & _ & H & _).
    exists r. split; [exact E|]. apply H. vm_compute. reflexivity.
  - destruct (type_precedence "\A P 60 min")
      as (r & E & _ & _ & _ & H & _).
    exists r. split; [exact E|]. apply H; vm_compute; reflexivity.
  - destruct (type_precedence "P 60 min 9h-21h")
      as (r & E & _ & _ & _ & _ & H & _).
    exists r. split; [exact E|]. apply H; vm_compute; reflexivity.
  - destruct (type_precedence "LUN 9h-21h")
      as (r & E & _ & _ & _ & _ & _ & H).
    exists r. split; [exact E|]. apply H; vm_compute; reflexivity.
Defined.

(** ** What the day-range patterns find *)

Lemma can_match_eps : can_match Eps "".
Proof.
  intros pv post cs. eexists. split; [left; reflexivity|reflexivity].
Qed.

Lemma can_match_chr (c : ascii) : can_match (chr c) (String c "").
Proof.
  intros pv post cs. simpl. rewrite Ascii.eqb_refl.
  eexists. split; [left; reflexivity|reflexivity].
Qed.

Lemma can_match_seq (r1 r2 : regex) (w1 w2 : string) :
  can_match r1 w1 -> can_match r2 w2 -> can_match (Seq r1 r2) (w1 ++ w2).
Proof.
  intros H1 H2 pv post cs. rewrite append_assoc.
  destruct (H1 pv (w2 ++ post) cs) as ([pv1 s1 cs1] & Hin1 & E1).
  simpl in E1. subst s1.
  destruct (H2 pv1 post cs1) as (st2 & Hin2 & E2).
  exists st2. split; [|exact E2].
  cbn [m]. apply in_flat_map. eexists. split; [exact Hin1|exact Hin2].
Qed.

Lemma can_match_lit (w : string) : can_match (lit w) w.
Proof.
  induction w as [|c w IH]; [exact can_match_eps|].
  destruct w as [|c' w]; [exact (can_match_chr c)|].
  change (lit (String c (String c' w)))
    with (Seq (chr c) (lit (String c' w))).
  change (String c (String c' w)) with (String c "" ++ String c' w).
  apply can_match_seq; [apply can_match_chr|exact IH].
Qed.

Lemma can_match_opt (r : regex) (w : string) :
  can_match r w -> can_match (Opt r) w.
Proof.
  intros H pv post cs. destruct (H pv post cs) as (st' & Hin & E).
  exists st'. split; [|exact E]. cbn [m]. apply in_or_app. left. exact Hin.
Qed.

Lemma can_match_skip (r : regex) : can_match (Opt r) "".
Proof.
  intros pv post cs. exists (MState pv post cs). split; [|reflexivity].
  cbn [m]. apply in_or_app. right. left. reflexivity.
Qed.

Lemma can_match_alt_l (r1 r2 : regex) (w : string) :
  can_match r1 w -> can_match (Alt r1 r2) w.
Proof.
  intros H pv post cs. destruct (H pv post cs) as (st' & Hin & E).
  exists st'. split; [|exact E]. cbn [m]. apply in_or_app. left. exact Hin.
Qed.

Lemma can_match_alt_r (r1 r2 : regex) (w : string) :
  can_match r2 w -> can_match (Alt r1 r2) w.
Proof.
  intros H pv post cs. destruct (H pv post cs) as (st' & Hin & E).
  exists st'. split; [|exact E]. cbn [m]. apply in_or_app. right. exact Hin.
Qed.

Lemma can_match_grp (r : regex) (w : string) :
  can_match r w -> can_match (Grp r) w.
Proof.
  intros H pv post cs. destruct (H pv post cs) as (st' & Hin & E).
  eexists. split.
  - cbn [m]. apply in_map_iff. exists st'. split; [reflexivity|exact Hin].
  - exact E.
Qed.

Lemma rep_cls_reaches (p : ascii -> bool) (post : string) (w : string) :
  forall lo pv,
    all p w = true -> lo <= String.length w ->
    exists pv', In (pv', post) (rep_cls p lo None pv (w ++ post)).
Proof.
  induction w as [|c w IH]; intros lo pv Hall Hlo.
  - simpl in Hlo. assert (lo = 0) by lia. subst lo.
    exists pv. change ("" ++ post) with post.
    destruct post as [|c s]; [now left|].
    cbn [rep_cls]. destruct (p c); [apply in_or_app; right|]; now left.
  - simpl in Hall. apply Bool.andb_true_iff in Hall. destruct Hall as [Hc Hw].
    destruct (IH (Nat.pred lo) (Some c) Hw) as (pv' & Hin);
      [simpl in Hlo; lia|].
    exists pv'. simpl. rewrite Hc. apply in_or_app. left. exact Hin.
Qed.

Lemma can_match_rep (p : ascii -> bool) (lo : nat) (w : string) :
  all p w = true -> lo <= String.length w -> can_match (Rep p lo None) w.
Proof.
  intros Hall Hlo pv post cs.
  destruct (@rep_cls_reaches p post w lo pv Hall Hlo) as (pv' & Hin).
  exists (MState pv' post cs). split; [|reflexivity].
  cbn [m]. apply in_map_iff. exists (pv', post). split; [reflexivity|exact Hin].
Qed.

(** A text the pattern can match is found wherever it stands. *)
Lemma search_finds (r : regex) (w post : string) (pre : string) :
  can_match r w -> forall pv, search_from r pv (pre ++ w ++ post) = true.
Proof.
  intros H. induction pre as [|c pre IH]; intros pv.
  - destruct (H pv post []) as (st' & Hin & _).
    change ("" ++ w ++ post) with (w ++ post).
    destruct (w ++ post) as [|x s]; simpl;
      unfold start; destruct (m r _); try reflexivity; contradiction.
  - change (String c pre ++ w ++ post) with (String c (pre ++ w ++ post)).
    simpl. destruct (m r _); [apply IH|reflexivity].
Qed.

Lemma nonempty_length (w : string) : w <> "" -> 1 <= String.length w.
Proof.
  destruct w; [congruence|simpl; lia].
Qed.

(** The day-range pattern finds [LUN], an optional dot, whitespace, one
    of the three connectors, whitespace and the last day, wherever they
    stand in a text. *)
Lemma day_range_phrase (last pre dot ws1 conn ws2 post : string) :
  In dot [""; "."] -> In conn ["AU"; "A"; "ET"] ->
  ws1 <> "" -> all isspace ws1 = true ->
  ws2 <> "" -> all isspace ws2 = true ->
  has_day_range last
    (pre ++ "LUN" ++ dot ++ ws1 ++ conn ++ ws2 ++ last ++ post) = true.
Proof.
  intros Hdot Hconn N1 A1 N2 A2. unfold has_day_range.
  apply Bool.orb_true_iff. left. unfold search.
  assert (C : can_match (day_range last)
                ("LUN" ++ dot ++ ws1 ++ conn ++ ws2 ++ last ++ "")).
  { unfold day_range, connector, spaces1. cbn [seq alt].
    apply can_match_seq; [apply can_match_lit|].
    apply can_match_seq.
    { destruct Hdot as [<-|[<-|[]]];
        [apply can_match_skip|apply can_match_opt, can_match_chr]. }
    apply can_match_seq;
      [apply can_match_rep; [exact A1|exact (nonempty_length N1)]|].
    apply can_match_seq.
    { apply can_match_grp. destruct Hconn as [<-|[<-|[<-|[]]]].
      - apply can_match_alt_l, can_match_lit.
      - apply can_match_alt_r, can_match_alt_l, can_match_lit.
      - apply can_match_alt_r, can_match_alt_r, can_match_lit. }
    apply can_match_seq;
      [apply can_match_rep; [exact A2|exact (nonempty_length N2)]|].
    apply can_match_seq; [apply can_match_lit|apply can_match_skip]. }
  pose proof (@search_finds _ _ post pre C None) as E.
  rewrite !append_assoc in E. exact E.
Qed.

(** C6, as the code has it. The parser knows three day-range phrases,
    all from Monday: [LUN], an optional dot, whitespace, one of the
    connectors [AU], [A] and [ET], whitespace, then [VEN], [SAM] or
    [DIM]. When a text holds one of them, wherever it stands, the days of
    the rule are the days of a range and nothing else, whatever single
    days the text also names: Monday to Friday for the first phrase, else
    Monday to Saturday for the second, else Monday to Sunday for the
    third. Only without any such phrase are the days the single days
    found. *)
Theorem day_range_overwrites (d : string) :
  exists r,
    parse_restriction (PyStr d) = Ok r
    /\ (has_day_range "VEN" d = true -> days r = monday_to_friday)
    /\ (has_day_range "VEN" d = false -> has_day_range "SAM" d = true ->
        days r = monday_to_saturday)
    /\ (has_day_range "VEN" d = false -> has_day_range "SAM" d = false ->
        has_day_range "DIM" d = true -> days r = monday_to_sunday)
    /\ (has_day_range "VEN" d = false -> has_day_range "SAM" d = false ->
        has_day_range "DIM" d = false ->
        days r = single_days d day_mapping [])
    /\ (forall last pre dot ws1 conn ws2 post,
          In last ["VEN"; "SAM"; "DIM"] ->
          In dot [""; "."] -> In conn ["AU"; "A"; "ET"] ->
          ws1 <> "" -> all isspace ws1 = true ->
          ws2 <> "" -> all isspace ws2 = true ->
          d = pre ++ "LUN" ++ dot ++ ws1 ++ conn ++ ws2 ++ last ++ post ->
          has_day_range last d = true
          /\ (last = "VEN" -> days r = monday_to_friday)
          /\ (days r = monday_to_friday \/ days r = monday_to_saturday
              \/ days r = monday_to_sunday)).
Proof.
  destruct (parse_restriction_fields d) as (trs & drs & _ & _ & E).
  eexists. split; [exact E|]. cbn [days]. unfold days_of.
  split; [|split; [|split; [|split]]].
  - intros ->. reflexivity.
  - intros -> ->. reflexivity.
  - intros -> -> ->. reflexivity.
  - intros -> -> ->. reflexivity.
  - intros last pre dot ws1 conn ws2 post Hlast Hdot Hconn N1 A1 N2 A2 ->.
    pose proof (@day_range_phrase last pre dot ws1 conn ws2 post
                  Hdot Hconn N1 A1 N2 A2) as Hf.
    split; [exact Hf|]. split.
    + intros ->. rewrite Hf. reflexivity.
    + destruct Hlast as [<-|[<-|[<-|[]]]]; rewrite ?Hf;
        repeat match goal with
               | |- context [has_day_range ?l ?t] =>
                   destruct (has_day_range l t)
               end; auto.
Qed.

Lemma day_range_overwrites_witness :
  single_days "\P LUN A VEN 9h-10h SAM DIM" day_mapping []
  = ["Monday"; "Friday"; "Saturday"; "Sunday"]
  /\ (exists r, parse_restriction (PyStr "\P LUN A VEN 9h-10h SAM DIM") = Ok r
                /\ days r = monday_to_friday)
  /\ (exists r, parse_restriction (PyStr "\P LUN. AU SAM. 9h-10h DIM") = Ok r
                /\ days r = monday_to_saturday)
  /\ (exists r, parse_restriction (PyStr "\P MAR LUN ET DIM") = Ok r
                /\ days r = monday_to_sunday)
  /\ (exists r, parse_restriction (PyStr "\P MAR JEU 9h-10h") = Ok r
                /\ days r = ["Tuesday"; "Thursday"])
  /\ (exists r, parse_restriction (PyStr "\P 9h-10h MAR LUN.  AU VEN.") = Ok r
                /\ days r = monday_to_friday).
Proof.
  split; [vm_compute; reflexivity|split; [|split; [|split; [|split]]]].
  - destruct (day_range_overwrites "\P LUN A VEN 9h-10h SAM DIM")
      as (r & E & H & _).
    exists r. split; [exact E|]. apply H. vm_compute. reflexivity.
  - destruct (day_range_overwrites "\P LUN. AU SAM. 9h-10h DIM")
      as (r & E & _ & H & _).
    exists r. split; [exact E|]. apply H; vm_compute; reflexivity.
  - destruct (day_range_overwrites "\P MAR LUN ET DIM")
      as (r & E & _ & _ & H & _).
    exists r. split; [exact E|]. apply H; vm_compute; reflexivity.
  - destruct (day_range_overwrites "\P MAR JEU 9h-10h")
      as (r & E & _ & _ & _ & H & _).
    exists r. split; [exact E|]. rewrite H; vm_compute; reflexivity.
  - destruct (day_range_overwrites "\P 9h-10h MAR LUN.  AU VEN.")
      as (r & E & _ & _ & _ & _ & H).
    exists r. split; [exact E|].
    apply (H "VEN" "\P 9h-10h MAR " "." "  " "AU" " " ".");
      try reflexivity; try discriminate; simpl; auto.
Defined.

(** C6, as the specification words it, fails: a day range that does not
    start with [LUN], or that is written with the full names of the days,
    is not expanded. The parser stores the two days at its ends, so
    [MAR AU JEU] gives Tuesday and Thursday without Wednesday. *)
Lemma day_range_not_expanded :
  (exists r, parse_restriction (PyStr "\P MAR AU JEU 9h-10h") = Ok r
             /\ days r = ["Tuesday"; "Thursday"])
  /\ expanded_range "Tuesday" "Thursday"
     = ["Tuesday"; "Wednesday"; "Thursday"]
  /\ (exists r, parse_restriction (PyStr "\P LUNDI AU VENDREDI 9h-10h") = Ok r
                /\ days r = ["Monday"; "Friday"])
  /\ expanded_range "Monday" "Friday" = monday_to_friday
  /\ ~ (forall d first en_first last en_last conn r,
           In (first, en_first) day_mapping ->
           In (last, en_last) day_mapping ->
           In conn ["AU"; "A"; "ET"] ->
           contains (first ++ " " ++ conn ++ " " ++ last) d = true ->
           parse_restriction (PyStr d) = Ok r ->
           days r = expanded_range en_first en_last).
Proof.
  split; [eexists; split; vm_compute; reflexivity|].
  split; [reflexivity|].
  split; [eexists; split; vm_compute; reflexivity|].
  split; [reflexivity|].
  intros H.
  destruct (parse_restriction (PyStr "\P MAR AU JEU 9h-10h")) as [r|e] eqn:E;
    [|vm_compute in E; discriminate E].
  specialize (H "\P MAR AU JEU 9h-10h" "MAR" "Tuesday" "JEU" "Thursday" "AU" r).
  assert (D : days r = expanded_range "Tuesday" "Thursday").
  { apply H; try exact E; simpl; auto 12. }
  vm_compute in E. injection E as <-. discriminate D.
Qed.

(** C7, at the input where the code departs from it. The minutes [24] of
    a time range are rewritten to [00] like an hour [24]: the rule
    parsed from a range that starts at 09h24 starts at 09h00, and at
    09h10 the evaluator already forbids parking. *)
Theorem minutes_24_rewritten :
  exists r,
    parse_restriction (PyStr "\P 09h24-10h30") = Ok r
    /\ time_ranges r = [("09h00", "10h30")]
    /\ is_parking_allowed r (DateTime 2023 10 10 (Time 9 10 0 0)) = Ok false.
Proof.
  eexists. split; [vm_compute; reflexivity|].
  split; vm_compute; reflexivity.
Qed.

(** The normalisation the specification asks for: an hour [24] becomes
    [00], the other hours and minutes stay as written. *)
Example hour_24_normalised :
  exists r,
    parse_restriction (PyStr "\P 22h15-24h00 24h-7h30") = Ok r
    /\ time_ranges r = [("22h15", "00h00"); ("00h", "7h30")].
Proof. eexists. split; vm_compute; reflexivity. Qed.

End ParserSpec.

(* ===================================================================== *)
(** * The interval generator against its specification *)
(* ===================================================================== *)

Module OsmSpec.

Import PyStr Osm Spec Samples OsmFacts.
Local Open Scope result_scope.

(** ** The segment found is the nearest one *)

Section Nearest.

Context {F : Type} {G : Geometry F}.

(** The comparison of distances is a strict weak order, and every
    distance is below infinity: so it is on floats, NaN apart. *)
Hypothesis lt_irrefl : forall a, f_lt a a = false.
Hypothesis lt_trans :
  forall a b c, f_lt a b = true -> f_lt b c = true -> f_lt a c = true.
Hypothesis lt_cotrans :
  forall a b x, f_lt a b = true -> f_lt a x = true \/ f_lt x b = true.
Hypothesis lt_inf : forall p seg, f_lt (distance p seg) f_inf = true.

Lemma segment_loop_distances (p : F * F) (coords : list (F * F)) :
  forall i md idx,
    segment_loop p coords i md idx
    = argmin_loop (distances p coords) i md idx.
Proof.
  induction coords as [|a coords IH]; intros i md idx; [reflexivity|].
  destruct coords as [|b coords]; [reflexivity|].
  change (segment_loop p (a :: b :: coords) i md idx)
    with (if f_lt (distance p [a; b]) md
          then segment_loop p (b :: coords) (S i) (distance p [a; b]) i
          else segment_loop p (b :: coords) (S i) md idx).
  change (distances p (a :: b :: coords))
    with (distance p [a; b] :: distances p (b :: coords)).
  simpl argmin_loop. now rewrite !IH.
Qed.

Lemma distances_below_inf (p : F * F) (coords : list (F * F)) :
  forall x, In x (distances p coords) -> f_lt x f_inf = true.
Proof.
  induction coords as [|a coords IH]; intros x H; [contradiction|].
  destruct coords as [|b coords]; [contradiction|].
  change (distances p (a :: b :: coords))
    with (distance p [a; b] :: distances p (b :: coords)) in H.
  destruct H as [<-|H]; [apply lt_inf|now apply IH].
Qed.

Lemma argmin_loop_spec (ds : list F) :
  forall pre md idx,
    seen pre md idx ->
    (forall x, In x ds -> f_lt x f_inf = true) ->
    (pre ++ ds)%list <> [] ->
    exists dk,
      least (pre ++ ds)%list dk (argmin_loop ds (length pre) md idx).
Proof.
  induction ds as [|d ds IH]; intros pre md idx Hs Hinf Hne.
  - rewrite app_nil_r in *. simpl.
    destruct Hs as [(-> & _)|Hs]; [contradiction|]. now exists md.
  - assert (Happ : ((pre ++ [d]) ++ ds = pre ++ d :: ds)%list)
      by now rewrite <- app_assoc.
    assert (Hlen : length (pre ++ [d])%list = S (length pre))
      by (rewrite length_app; simpl; lia).
    simpl argmin_loop. destruct (f_lt d md) eqn:Hd.
    + specialize (IH (pre ++ [d])%list d (length pre)).
      rewrite Hlen, Happ in IH. apply IH.
      * right. split; [|split].
        -- rewrite nth_error_app2 by lia. now rewrite Nat.sub_diag.
        -- intros x Hx. apply in_app_or in Hx.
           destruct Hx as [Hx|[<-|[]]]; [|apply lt_irrefl].
           destruct Hs as [(-> & _)|(_ & Hmin & _)]; [contradiction|].
           destruct (f_lt x d) eqn:E; [|reflexivity].
           rewrite <- (Hmin x Hx). symmetry. now apply lt_trans with d.
        -- intros j x Hj Hx. rewrite nth_error_app1 in Hx by exact Hj.
           apply nth_error_In in Hx.
           destruct Hs as [(-> & _)|(_ & Hmin & _)]; [contradiction|].
           destruct (lt_cotrans d md x Hd) as [E|E]; [exact E|].
           rewrite (Hmin x Hx) in E. discriminate E.
      * intros x Hx. apply Hinf. now right.
      * rewrite <- Happ. now destruct pre.
    + specialize (IH (pre ++ [d])%list md idx).
      rewrite Hlen, Happ in IH. apply IH.
      * destruct Hs as [(-> & -> & _)|(Hn & Hmin & Hfirst)].
        { rewrite (Hinf d (or_introl eq_refl)) in Hd. discriminate Hd. }
        assert (Hidx : idx < length pre)
          by (apply nth_error_Some; now rewrite Hn).
        right. split; [|split].
        -- now rewrite nth_error_app1 by exact Hidx.
        -- intros x Hx. apply in_app_or in Hx.
           destruct Hx as [Hx|[<-|[]]]; [now apply Hmin|exact Hd].
        -- intros j x Hj Hx. rewrite nth_error_app1 in Hx by lia.
           now apply Hfirst with j.
      * intros x Hx. apply Hinf. now right.
      * rewrite <- Happ. now destruct pre.
Qed.

(** The segment [create_street_interval] picks is at the least distance
    from the anchor, and is the first one at that distance. *)
Lemma find_segment_nearest (street : list (F * F)) (sign : F * F) :
  2 <= length street ->
  exists dk,
    least (distances (nearest street sign) street) dk
          (find_segment street sign).
Proof.
  intros H. unfold find_segment. rewrite segment_loop_distances.
  set (p := nearest street sign).
  apply (argmin_loop_spec (distances p street) (pre := []) (md := f_inf)
           (idx := 0)).
  - left. now repeat split.
  - apply distances_below_inf.
  - destruct street as [|a [|b street]]; simpl in H; try lia. discriminate.
Qed.

End Nearest.

(** The exact geometry of west-east streets meets these conditions. *)
Lemma west_east_nearest (street : list (num * num)) (sign : num * num) :
  2 <= length street ->
  exists dk,
    least (distances (nearest street sign) street) dk
          (find_segment street sign).
Proof.
  apply (@find_segment_nearest num west_east).
  - intros [a|]; simpl; [apply Z.ltb_irrefl|reflexivity].
  - intros [a|] [b|] [c|]; simpl; try discriminate; try reflexivity. lia.
  - intros [a|] [b|] [x|]; simpl; try discriminate; auto. lia.
  - reflexivity.
Qed.

(** ** Intervals by direction *)




(** C9, as the code has it. On a street of two vertices or more and for
    every direction, known or not, [create_street_interval] returns one
    or two intervals and each of them has exactly two coordinate pairs;
    nothing makes the two pairs differ. *)
Theorem intervals_have_two_points {F : Type} {G : Geometry F}
        (street : list (F * F)) (sign : F * F) (direction : string)
        (interval_length : F) :
  2 <= length street ->
  exists intervals,
    create_street_interval street sign direction interval_length
    = Ok intervals
    /\ (length intervals = 1 \/ length intervals = 2)
    /\ (forall interval, In interval intervals -> length interval = 2).
Proof.
  intros H. destruct (segment_ends street sign H) as (s & e & Es & Ee).
  rewrite (create_street_interval_eq street sign direction interval_length
             Es Ee).
  eexists. split; [reflexivity|].
  destruct (String.eqb direction "both_sides");
    [|destruct (String.eqb direction "left");
      [|destruct (String.eqb direction "right");
        [|destruct (String.eqb direction "up")]]];
    (split; [simpl; auto|]);
    intros iv Hin; simpl in Hin;
    repeat (destruct Hin as [<-|Hin]; [reflexivity|]); contradiction.
Qed.

Lemma intervals_have_two_points_witness :
  exists intervals,
    create_street_interval long_street sign_aside "down" (Num 500000)
    = Ok intervals
    /\ (length intervals = 1 \/ length intervals = 2)
    /\ (forall interval, In interval intervals -> length interval = 2).
Proof.
  apply (@intervals_have_two_points num west_east long_street sign_aside
           "down" (Num 500000)).
  simpl. lia.
Defined.

(** C9, as the specification words it, fails: for a sign that projects on
    the first vertex of the street, the interval before the anchor is
    that vertex twice. *)
Lemma degenerate_interval_at_vertex :
  ~ (forall intervals interval,
        create_street_interval short_street sign_at_end "both_sides"
                               (Num 500000) = Ok intervals ->
        In interval intervals -> two_distinct interval).
Proof.
  intros H.
  destruct (H [[(Num 0, Num 0); (Num 0, Num 0)];
               [(Num 0, Num 0); (Num 10, Num 0)]]
              [(Num 0, Num 0); (Num 0, Num 0)] eq_refl (or_introl eq_refl))
    as (a & b & Ha & Hb & Hab).
  apply Hab. simpl in Ha, Hb.
  destruct Ha as [<-|[<-|[]]]; destruct Hb as [<-|[<-|[]]]; reflexivity.
Qed.

End OsmSpec.


(* ===================================================================== *)
(** * The tests of the repository, run on the model *)
(* ===================================================================== *)

Module UnitTests.

Import PyStr Re Parser Spec Samples.
Local Open Scope result_scope.

Example test_parse_no_parking :
  parse_restriction (PyStr "\P LUN AU VEN 9h00-10h00")
  = Ok (Restriction (Some "P") true [("9h00", "10h00")] monday_to_friday []
                    None false (PyStr "\P LUN AU VEN 9h00-10h00")).
Proof. vm_compute. reflexivity. Qed.

Example test_parse_no_stopping :
  parse_restriction (PyStr "\A EN TOUT TEMPS") = Ok all_time_rule.
Proof. vm_compute. reflexivity. Qed.

Example test_parse_paid_parking :
  parse_restriction (PyStr "PARCOMETRE 9h-21h LUN A SAM") = Ok meter_rule.
Proof. vm_compute. reflexivity. Qed.

Example test_parse_date_range :
  parse_restriction (PyStr "\P 1 AVRIL AU 1 NOV LUN AU VEN 9h00-18h00")
  = Ok (Restriction (Some "P") true [("9h00", "18h00")] monday_to_friday
                    [summer] None false
                    (PyStr "\P 1 AVRIL AU 1 NOV LUN AU VEN 9h00-18h00")).
Proof. vm_compute. reflexivity. Qed.

Example test_is_parking_allowed :
  parse_restriction (PyStr "\P LUN AU VEN 9h00-18h00") = Ok weekday_rule
  /\ allowed_at "\P LUN AU VEN 9h00-18h00" 2023 10 10 12 0 = Ok false
  /\ allowed_at "\P LUN AU VEN 9h00-18h00" 2023 10 10 8 0 = Ok true
  /\ allowed_at "\P LUN AU VEN 9h00-18h00" 2023 10 14 12 0 = Ok true.
Proof. repeat split; vm_compute; reflexivity. Qed.

Example test_is_parking_allowed_all_time :
  allowed_at "\A EN TOUT TEMPS" 2023 10 10 12 0 = Ok false
  /\ allowed_at "\A EN TOUT TEMPS" 2023 10 14 2 0 = Ok false.
Proof. repeat split; vm_compute; reflexivity. Qed.

Example test_is_parking_allowed_date_range :
  allowed_at "\P 1 AVRIL AU 1 NOV LUN AU VEN 9h00-18h00" 2023 10 10 12 0
  = Ok false
  /\ allowed_at "\P 1 AVRIL AU 1 NOV LUN AU VEN 9h00-18h00" 2023 1 10 12 0
     = Ok true.
Proof. repeat split; vm_compute; reflexivity. Qed.

(** The other sample rules are what the parser returns too. *)
Example samples_parsed :
  parse_restriction (PyStr "\P") = Ok bare_rule
  /\ parse_restriction (PyStr "\P 22h00-06h00") = Ok overnight_rule
  /\ parse_restriction (PyStr "PARCOMETRE EN TOUT TEMPS")
     = Ok meter_all_time_rule.
Proof. repeat split; vm_compute; reflexivity. Qed.

End UnitTests.

(* ===================================================================== *)
(** * What every parsed rule satisfies *)
(* ===================================================================== *)

Unset Implicit Arguments.

Module ParserInvariants.

Import PyStr Re Parser Spec Samples Invariants MatchFacts ParserFacts
       MarkerFacts ParserSpec.
Local Open Scope result_scope.

(** ** Days *)

Lemma mem_false_not_in (x : string) (xs : list string) :
  mem x xs = false -> ~ In x xs.
Proof.
  unfold mem. intros H Hin.
  assert (E : existsb (String.eqb x) xs = true).
  { apply existsb_exists. exists x. split; [exact Hin|apply String.eqb_refl]. }
  congruence.
Qed.

Lemma single_days_invariant (desc : string) (names : list string)
      (mapping : list (string * string)) :
  (forall fr en, In (fr, en) mapping -> In en names) ->
  forall found,
    NoDup found -> incl found names ->
    NoDup (single_days desc mapping found)
    /\ incl (single_days desc mapping found) names.
Proof.
  induction mapping as [|[fr en] mapping IH]; intros Hm found Hnd Hin;
    [now split|].
  simpl. apply IH.
  - intros fr' en' H. apply (Hm fr' en'). now right.
  - destruct (search (day_token fr) desc); [|exact Hnd].
    destruct (mem en found) eqn:E; [exact Hnd|].
    apply NoDup_app; [exact Hnd|repeat constructor; intros []|].
    intros x Hx [<-|[]]. now apply (mem_false_not_in en found E).
  - destruct (search (day_token fr) desc); [|exact Hin].
    destruct (mem en found); [exact Hin|].
    apply incl_app; [exact Hin|].
    intros x [<-|[]]. apply (Hm fr en). now left.
Qed.

Lemma day_mapping_names (fr en : string) :
  In (fr, en) day_mapping -> In en day_names.
Proof.
  unfold day_mapping. simpl.
  intros H.
  repeat (destruct H as [H|H]; [injection H as <- <-; simpl; tauto|]).
  contradiction.
Qed.

Lemma day_names_nodup : NoDup day_names.
Proof.
  unfold day_names.
  repeat (constructor; [simpl; intros H;
                        repeat (destruct H as [H|H]; [discriminate H|]);
                        exact H|]).
  constructor.
Qed.

Lemma firstn_in {A : Type} (n : nat) (l : list A) : incl (firstn n l) l.
Proof.
  intros x H. rewrite <- (firstn_skipn n l). apply in_or_app. now left.
Qed.

Lemma firstn_nodup {A : Type} (n : nat) (l : list A) :
  NoDup l -> NoDup (firstn n l).
Proof.
  revert l. induction n as [|n IH]; intros l H; [constructor|].
  destruct l as [|x l]; [constructor|].
  simpl. inversion H as [|? ? Hx Hl]; subst.
  constructor; [|now apply IH].
  intros Hin. apply Hx. exact (firstn_in n l x Hin).
Qed.

Lemma days_of_invariant (d : string) :
  NoDup (days_of d) /\ incl (days_of d) day_names.
Proof.
  unfold days_of.
  destruct (has_day_range "VEN" d);
    [split; [exact (firstn_nodup 5 day_names day_names_nodup)
            |exact (firstn_in 5 day_names)]|].
  destruct (has_day_range "SAM" d);
    [split; [exact (firstn_nodup 6 day_names day_names_nodup)
            |exact (firstn_in 6 day_names)]|].
  destruct (has_day_range "DIM" d);
    [split; [exact day_names_nodup|apply incl_refl]|].
  apply single_days_invariant.
  - exact day_mapping_names.
  - constructor.
  - intros x [].
Qed.

(** The days of a parsed rule are English day names, each at most once. *)
Theorem parsed_days_are_distinct_day_names (desc : pyval) :
  exists r,
    parse_restriction desc = Ok r
    /\ NoDup (days r)
    /\ (forall name, In name (days r) -> In name day_names).
Proof.
  assert (I : NoDup (days (initial desc))
              /\ forall name, In name (days (initial desc)) -> In name day_names).
  { split; [constructor|intros name []]. }
  unfold parse_restriction. destruct (is_empty desc); [eauto|].
  destruct desc as [| |d]; eauto.
  destruct (parse_text_ok d) as (trs & drs & _ & _ & ->).
  eexists. split; [reflexivity|]. cbn [days].
  destruct (days_of_invariant d) as [H1 H2]. split; [exact H1|exact H2].
Qed.

(** ** Numbers written in digits *)

Lemma digit_value_bound (c : ascii) :
  isdigit c = true -> (0 <= digit_value c <= 9)%Z.
Proof.
  unfold isdigit, between, digit_value. intros H.
  apply Bool.andb_true_iff in H. destruct H as [H1 H2].
  apply N.leb_le in H1. apply N.leb_le in H2. lia.
Qed.

Lemma int_digits_bound (w : string) :
  all isdigit w = true ->
  forall acc,
    exists n, int_digits acc true w = Ok n
              /\ (acc * 10 ^ Z.of_nat (String.length w) <= n
                  < (acc + 1) * 10 ^ Z.of_nat (String.length w))%Z.
Proof.
  induction w as [|c w IH]; intros H acc.
  - exists acc. split; [reflexivity|]. simpl. lia.
  - simpl in H. apply Bool.andb_true_iff in H. destruct H as [Hc Hw].
    simpl int_digits. rewrite Hc.
    destruct (IH Hw (10 * acc + digit_value c)%Z) as (n & E & Hn).
    exists n. split; [exact E|].
    pose proof (digit_value_bound c Hc) as Hd.
    change (String.length (String c w)) with (S (String.length w)).
    rewrite Nat2Z.inj_succ, Z.pow_succ_r by lia.
    assert (0 < 10 ^ Z.of_nat (String.length w))%Z
      by (apply Z.pow_pos_nonneg; lia).
    nia.
Qed.

(** [int] on a run of digits gives its value, below 10 to the length. *)
Lemma int_number_bound (w : string) :
  is_number w -> (Z.of_nat (String.length w) <= int_max_str_digits)%Z ->
  exists n, int w = Ok n /\ (0 <= n < 10 ^ Z.of_nat (String.length w))%Z.
Proof.
  intros [Hne Hall] Hlen. destruct w as [|c w]; [contradiction|].
  pose proof Hall as Hall'. simpl in Hall'.
  apply Bool.andb_true_iff in Hall'. destruct Hall' as [Hc Hw].
  destruct (isdigit_plain c Hc) as (Hsp & Hplus & Hminus).
  unfold int. simpl lstrip. rewrite Hsp, (rstrip_digits _ Hall).
  rewrite (digits_within_limit _ Hlen).
  rewrite Hplus, Hminus.
  destruct (int_digits_bound (String c w) Hall 0%Z) as (n & E & Hn).
  exists n. split; [|lia].
  simpl int_digits. simpl int_digits in E. rewrite Hc in *. exact E.
Qed.

(** A day number of a date match is a number from 0 to 99. *)
Lemma int_day_number (w : string) :
  matched (digits 1 (Some 2)) w ->
  exists n, int w = Ok n /\ (0 <= n <= 99)%Z.
Proof.
  intros H. destruct (@matched_digits_length 1 2 w H) as (Hall & Hlo & Hhi).
  destruct (int_number_bound w) as (n & E & Hn).
  { split; [|exact Hall]. destruct w; [simpl in Hlo; lia|discriminate]. }
  { unfold int_max_str_digits. lia. }
  exists n. split; [exact E|].
  assert (10 ^ Z.of_nat (String.length w) <= 10 ^ 2)%Z
    by (apply Z.pow_le_mono_r; lia).
  lia.
Qed.

(** ** Date ranges *)

Lemma matched_month_range (w : string) :
  matched (alt (map lit_i month_names)) w -> (1 <= month_number w <= 12)%Z.
Proof.
  intros H. apply matched_alt_lit_i in H; [|discriminate].
  destruct H as (name & Hin & E).
  unfold month_number. rewrite E. clear E w.
  unfold month_names in Hin. simpl in Hin.
  repeat (destruct Hin as [<-|Hin]; [vm_compute; split; discriminate|]).
  contradiction.
Qed.

Lemma date_range_of_match (d : string) (c : list string) :
  In c (findall date_pattern d) ->
  exists dr, date_range_of c = Ok (Some dr) /\ plausible dr.
Proof.
  intros H. apply (findall_groups _ _ _ date_pattern_groups) in H.
  inversion H as [|g1 sd ? ? Hsd H1]; subst; clear H.
  inversion H1 as [|g2 sm ? ? Hsm H2]; subst; clear H1.
  inversion H2 as [|g3 cn ? ? _ H3]; subst; clear H2.
  inversion H3 as [|g4 ed ? ? Hed H4]; subst; clear H3.
  inversion H4 as [|g5 em ? ? Hem H5]; subst; clear H4.
  inversion H5; subst; clear H5.
  unfold date_range_of.
  pose proof (matched_month_range sm Hsm) as Rs.
  pose proof (matched_month_range em Hem) as Re.
  assert (E : ((month_number sm >? 0) && (month_number em >? 0))%Z = true)
    by lia.
  rewrite E.
  destruct (int_day_number sd Hsd) as (n1 & -> & B1).
  destruct (int_day_number ed Hed) as (n2 & -> & B2).
  simpl. eexists. split; [reflexivity|]. unfold plausible. simpl. lia.
Qed.

Lemma date_ranges_of_matches (d : string) (ms : list (list string)) :
  incl ms (findall date_pattern d) ->
  exists drs, date_ranges_of ms = Ok drs
              /\ length drs = length ms /\ Forall plausible drs.
Proof.
  induction ms as [|c ms IH]; intros H.
  - exists []. repeat split. constructor.
  - destruct IH as (drs & E & Hl & Hf).
    { intros x Hx. apply H. now right. }
    destruct (date_range_of_match d c (H c (or_introl eq_refl)))
      as (dr & Ec & Hp).
    exists (dr :: drs). simpl. rewrite Ec, E. simpl.
    repeat split; [now rewrite Hl|now constructor].
Qed.

(** A rule has at most one date range for each date match of the text.
    The months of a range are calendar months and its days are numbers of
    at most two digits, which the parser does not compare with the length
    of the month. *)
Theorem parsed_date_ranges_are_plausible (d : string) :
  exists r,
    parse_restriction (PyStr d) = Ok r
    /\ length (date_ranges r) <= length (findall date_pattern d)
    /\ (forall dr, In dr (date_ranges r) ->
          (1 <= start_month dr <= 12 /\ 1 <= end_month dr <= 12
           /\ 0 <= start_day dr <= 99 /\ 0 <= end_day dr <= 99)%Z).
Proof.
  destruct (parse_restriction_fields d) as (trs & drs & _ & Ed & ->).
  destruct (date_ranges_of_matches d (findall date_pattern d))
    as (drs' & Ed' & Hl & Hf); [apply incl_refl|].
  rewrite Ed in Ed'. injection Ed' as <-.
  eexists. split; [reflexivity|]. cbn [date_ranges].
  split; [rewrite Hl; apply le_n|]. intros dr Hin.
  rewrite Forall_forall in Hf. exact (Hf dr Hin).
Qed.

(** ** Time ranges *)

Lemma isdigit_not_h (c : ascii) : isdigit c = true -> Ascii.eqb c "h" = false.
Proof.
  destruct c as [b0 b1 b2 b3 b4 b5 b6 b7].
  destruct b0, b1, b2, b3, b4, b5, b6, b7; vm_compute;
    intros H; try discriminate H; reflexivity.
Qed.

Lemma m_seq (r1 r2 : regex) (st st' : mstate) :
  In st' (m (Seq r1 r2) st) ->
  exists st1, In st1 (m r1 st) /\ In st' (m r2 st1).
Proof. intros H. cbn [m] in H. now apply in_flat_map in H. Qed.

Lemma m_rep (p : ascii -> bool) (lo : nat) (hi : option nat)
      (st st' : mstate) :
  In st' (m (Rep p lo hi) st) ->
  exists w, rest st = w ++ rest st' /\ all p w = true
            /\ lo <= String.length w
            /\ match hi with
               | Some h => String.length w <= h
               | None => True
               end.
Proof.
  intros H. cbn [m] in H.
  apply in_map_iff in H. destruct H as ([pv s'] & <- & H).
  apply rep_cls_spec in H. exact H.
Qed.

Lemma m_chr (c : ascii) (st st' : mstate) :
  In st' (m (chr c) st) -> rest st = String c (rest st').
Proof.
  unfold chr. cbn [m]. destruct (rest st) as [|x s]; [contradiction|].
  destruct (Ascii.eqb_spec c x) as [<-|]; [|contradiction].
  intros [<-|[]]. reflexivity.
Qed.

(** A text matched by [clock]: one or two digits, [h], at most two
    digits. *)
Lemma matched_clock (w : string) :
  matched clock w ->
  exists a b,
    w = a ++ String "h" b
    /\ all isdigit a = true /\ 1 <= String.length a <= 2
    /\ all isdigit b = true /\ String.length b <= 2.
Proof.
  intros (st & st' & H & ->).
  change clock with (Seq (Rep isdigit 1 (Some 2))
                         (Seq (chr "h") (Rep isdigit 0 (Some 2)))) in H.
  apply m_seq in H. destruct H as (st1 & H1 & H).
  apply m_seq in H. destruct H as (st2 & H2 & H3).
  apply m_rep in H1. destruct H1 as (a & Ea & Ha & Hlo & Hhi).
  apply m_chr in H2.
  apply m_rep in H3. destruct H3 as (b & Eb & Hb & _ & Hbhi).
  rewrite Ea, H2, Eb.
  replace (a ++ String "h" (b ++ rest st'))
    with ((a ++ String "h" b) ++ rest st')
    by (rewrite append_assoc; reflexivity).
  rewrite consumed_append. exists a, b. now repeat split.
Qed.

Lemma prefix_24 (s : string) :
  String.prefix "24" s = true -> exists t, s = String "2" (String "4" t).
Proof.
  intros H. destruct (prefix_append _ _ H) as (t & ->). now exists t.
Qed.

Lemma prefix_grow (p a b : string) :
  String.prefix p a = true -> String.prefix p (a ++ b) = true.
Proof.
  revert a. induction p as [|c p IH]; intros a H; [now destruct (a ++ b)|].
  destruct a as [|x a]; simpl in H; [discriminate|].
  simpl. destruct (ascii_dec c x); [now apply IH|discriminate].
Qed.

Lemma replace_from_0 (c : ascii) (s : string) :
  replace_from "24" "00" 0 (String c s)
  = if String.prefix "24" (String c s)
    then String "0" (String "0" (replace_from "24" "00" 1 s))
    else String c (replace_from "24" "00" 0 s).
Proof. reflexivity. Qed.

Lemma replace_from_S (skip : nat) (c : ascii) (s : string) :
  replace_from "24" "00" (S skip) (String c s)
  = replace_from "24" "00" skip s.
Proof. reflexivity. Qed.

(** Replacing [24] by [00] in digits followed by [h] works on the digits
    before the [h] and on the text after it, separately. *)
Lemma replace_before_h (a b : string) :
  all isdigit a = true ->
  forall skip, skip <= String.length a ->
    replace_from "24" "00" skip (a ++ String "h" b)
    = replace_from "24" "00" skip a
      ++ String "h" (replace_from "24" "00" 0 b).
Proof.
  induction a as [|c a IH]; intros Ha skip Hs.
  - simpl in Hs. assert (skip = 0) as -> by lia.
    change ("" ++ String "h" b) with (String "h" b).
    rewrite replace_from_0.
    assert (P : String.prefix "24" (String "h" b) = false) by reflexivity.
    now rewrite P.
  - simpl in Ha. apply Bool.andb_true_iff in Ha. destruct Ha as [Hc Ha].
    change (String c a ++ String "h" b) with (String c (a ++ String "h" b)).
    destruct skip as [|skip].
    + rewrite !replace_from_0.
      destruct (String.prefix "24" (String c (a ++ String "h" b))) eqn:P.
      * destruct (prefix_24 _ P) as (t & E). injection E as -> E.
        destruct a as [|x a]; [discriminate E|].
        injection E as -> E.
        assert (P' : String.prefix "24" (String "2" (String "4" a)) = true)
          by (now destruct a).
        rewrite P'. rewrite (IH Ha 1) by (simpl; lia). reflexivity.
      * destruct (String.prefix "24" (String c a)) eqn:P'.
        -- apply prefix_grow with (b := String "h" b) in P'.
           change (String c a ++ String "h" b)
             with (String c (a ++ String "h" b)) in P'.
           congruence.
        -- rewrite (IH Ha 0) by lia. reflexivity.
    + rewrite !replace_from_S. apply IH; [exact Ha|simpl in Hs; lia].
Qed.

Lemma replace_keeps_digits (a : string) :
  all isdigit a = true ->
  forall skip, skip <= String.length a ->
    all isdigit (replace_from "24" "00" skip a) = true
    /\ String.length (replace_from "24" "00" skip a)
       = String.length a - skip.
Proof.
  induction a as [|c a IH]; intros Ha skip Hs.
  - now split.
  - simpl in Ha. apply Bool.andb_true_iff in Ha. destruct Ha as [Hc Ha].
    destruct skip as [|skip].
    + rewrite replace_from_0.
      destruct (String.prefix "24" (String c a)) eqn:P.
      * destruct (prefix_24 _ P) as (t & E). injection E as -> ->.
        destruct (IH Ha 1) as [H1 H2]; [simpl; lia|].
        split.
        -- cbn [all]. rewrite H1. reflexivity.
        -- cbn [String.length]. rewrite H2. cbn [String.length]. lia.
      * destruct (IH Ha 0) as [H1 H2]; [lia|].
        split.
        -- cbn [all]. now rewrite Hc, H1.
        -- cbn [String.length]. rewrite H2. lia.
    + rewrite replace_from_S. destruct (IH Ha skip) as [H1 H2];
        [simpl in Hs; lia|].
      split; [exact H1|]. rewrite H2. reflexivity.
Qed.

Lemma split_before_h (a b : string) :
  all isdigit a = true ->
  split "h" (a ++ String "h" b) = a :: split "h" b.
Proof.
  induction a as [|c a IH]; intros Ha; [reflexivity|].
  simpl in Ha. apply Bool.andb_true_iff in Ha. destruct Ha as [Hc Ha].
  simpl. rewrite (isdigit_not_h c Hc), (IH Ha). reflexivity.
Qed.

Lemma split_digits (b : string) : all isdigit b = true -> split "h" b = [b].
Proof.
  induction b as [|c b IH]; intros Hb; [reflexivity|].
  simpl in Hb. apply Bool.andb_true_iff in Hb. destruct Hb as [Hc Hb].
  simpl. rewrite (isdigit_not_h c Hc), (IH Hb). reflexivity.
Qed.

Lemma contains_h (a b : string) : contains "h" (a ++ String "h" b) = true.
Proof.
  induction a as [|c a IH].
  - change ("" ++ String "h" b) with (String "h" b).
    unfold contains; fold contains.
    replace (String.prefix "h" (String "h" b)) with true
      by (now destruct b).
    reflexivity.
  - change (String c a ++ String "h" b) with (String c (a ++ String "h" b)).
    unfold contains; fold contains. rewrite IH. apply Bool.orb_true_r.
Qed.

(** The hours and minutes of digits, [h], digits. *)
Lemma hours_minutes_clock (a b : string) :
  all isdigit a = true -> 1 <= String.length a <= 2 ->
  all isdigit b = true -> String.length b <= 2 ->
  exists h mi,
    hours_minutes (a ++ String "h" b) = Ok (h, mi)
    /\ (0 <= h <= 99 /\ 0 <= mi <= 99)%Z.
Proof.
  intros Ha La Hb Lb. unfold hours_minutes.
  rewrite (split_before_h a b Ha), (split_digits b Hb), contains_h.
  unfold index. simpl nth_error.
  destruct (int_number_bound a) as (h & Eh & Bh).
  { split; [|exact Ha]. destruct a; [simpl in La; lia|discriminate]. }
  { unfold int_max_str_digits. lia. }
  assert (10 ^ Z.of_nat (String.length a) <= 10 ^ 2)%Z
    by (apply Z.pow_le_mono_r; lia).
  unfold bind at 1 2. rewrite Eh.
  destruct b as [|c b].
  - exists h, 0%Z. split; [reflexivity|lia].
  - destruct (int_number_bound (String c b)) as (mi & Em & Bm).
    { split; [discriminate|exact Hb]. }
    { unfold int_max_str_digits. lia. }
    assert (10 ^ Z.of_nat (String.length (String c b)) <= 10 ^ 2)%Z
      by (apply Z.pow_le_mono_r; lia).
    exists h, mi. split; [|lia].
    change (0 <? String.length (String c b))%nat with true.
    cbv iota. unfold bind. rewrite Em. reflexivity.
Qed.

(** The same after the normalisation of the parser. *)
Lemma hours_minutes_normalised (w : string) :
  matched clock w ->
  exists h mi,
    hours_minutes (replace "24" "00" w) = Ok (h, mi)
    /\ (0 <= h <= 99 /\ 0 <= mi <= 99)%Z.
Proof.
  intros H. destruct (matched_clock w H) as (a & b & -> & Ha & La & Hb & Lb).
  unfold replace. rewrite (replace_before_h a b Ha 0) by lia.
  destruct (replace_keeps_digits a Ha 0) as [Ha' La']; [lia|].
  destruct (replace_keeps_digits b Hb 0) as [Hb' Lb']; [lia|].
  apply hours_minutes_clock; auto; lia.
Qed.

Lemma time_ranges_of_in (ms : list (list string)) :
  forall trs, time_ranges_of ms = Ok trs ->
  forall s e, In (s, e) trs ->
  exists a b, In [a; b] ms
              /\ s = replace "24" "00" a /\ e = replace "24" "00" b.
Proof.
  induction ms as [|c ms IH]; intros trs H s e Hin.
  - injection H as <-. contradiction.
  - destruct c as [|a [|b [|? ?]]]; try discriminate H.
    simpl in H. destruct (time_ranges_of ms) as [rs|] eqn:E; [|discriminate H].
    simpl in H. injection H as <-.
    destruct Hin as [Hin|Hin].
    + injection Hin as <- <-. exists a, b. repeat split. now left.
    + destruct (IH rs eq_refl s e Hin) as (a' & b' & Hm & Hs & He).
      exists a', b'. repeat split; auto. now right.
Qed.

Lemma c_int_small (z : Z) : (0 <= z <= 99)%Z -> c_int z = true.
Proof.
  intros H. unfold c_int. apply Bool.andb_true_iff.
  split; apply Z.leb_le; lia.
Qed.

Lemma window_times_in_range (s e : string) (sh sm eh em : Z) :
  hours_minutes s = Ok (sh, sm) -> hours_minutes e = Ok (eh, em) ->
  (0 <= sh <= 99 /\ 0 <= sm <= 99 /\ 0 <= eh <= 99 /\ 0 <= em <= 99)%Z ->
  window_times (s, e)
  = if ((sh <=? 23) && (sm <=? 59) && (eh <=? 23) && (em <=? 59))%Z
    then Ok (Time sh sm 0 0, Time eh em 0 0)
    else Raise ValueError.
Proof.
  intros Hs He B. unfold window_times. simpl fst. simpl snd.
  rewrite Hs, He. simpl. unfold dt_time.
  rewrite !c_int_small by lia. cbn [andb negb].
  destruct (sh <=? 23)%Z eqn:E1, (sm <=? 59)%Z eqn:E2,
           (eh <=? 23)%Z eqn:E3, (em <=? 59)%Z eqn:E4;
    replace (0 <=? sh)%Z with true by lia;
    replace (0 <=? sm)%Z with true by lia;
    replace (0 <=? eh)%Z with true by lia;
    replace (0 <=? em)%Z with true by lia;
    reflexivity.
Qed.

(** Each time range the parser stores reads as two pairs of hours and
    minutes between 0 and 99: [int] never fails on it. It gives two times
    of day when the hours are at most 23 and the minutes at most 59;
    otherwise building the times raises [ValueError]. *)
Theorem parsed_time_ranges_read (d : string) :
  exists r,
    parse_restriction (PyStr d) = Ok r
    /\ forall s e, In (s, e) (time_ranges r) ->
       exists sh sm eh em,
         hours_minutes s = Ok (sh, sm) /\ hours_minutes e = Ok (eh, em)
         /\ (0 <= sh <= 99 /\ 0 <= sm <= 99
             /\ 0 <= eh <= 99 /\ 0 <= em <= 99)%Z
         /\ window_times (s, e)
            = if ((sh <=? 23) && (sm <=? 59) && (eh <=? 23) && (em <=? 59))%Z
              then Ok (Time sh sm 0 0, Time eh em 0 0)
              else Raise ValueError.
Proof.
  destruct (parse_restriction_fields d) as (trs & drs & Et & _ & ->).
  eexists. split; [reflexivity|]. cbn [time_ranges].
  intros s e Hin.
  destruct (time_ranges_of_in _ trs Et s e Hin) as (a & b & Hm & -> & ->).
  apply (findall_groups _ _ _ time_pattern_groups) in Hm.
  inversion Hm as [|? ? ? ? Ma H1]; subst.
  inversion H1 as [|? ? ? ? Mb H2]; subst.
  destruct (hours_minutes_normalised a Ma) as (sh & sm & Es & Bs).
  destruct (hours_minutes_normalised b Mb) as (eh & em & Ee & Be).
  exists sh, sm, eh, em. repeat split; try lia; auto.
  apply window_times_in_range; auto. lia.
Qed.

(** ** No [24] is left in a time range *)

Lemma replace_head_4 (s : string) :
  (exists t, replace_from "24" "00" 0 s = String "4" t) ->
  exists t, s = String "4" t.
Proof.
  destruct s as [|c s]; intros (t & E); [discriminate E|].
  rewrite replace_from_0 in E.
  destruct (String.prefix "24" (String c s)); [discriminate E|].
  injection E as -> _. now exists s.
Qed.

Lemma replace_leaves_no_24 (s : string) :
  forall skip, contains "24" (replace_from "24" "00" skip s) = false.
Proof.
  induction s as [|c s IH]; intros skip.
  - now destruct skip.
  - destruct skip as [|skip]; [|rewrite replace_from_S; apply IH].
    rewrite replace_from_0.
    destruct (String.prefix "24" (String c s)) eqn:P.
    + unfold contains; fold contains. rewrite (IH 1). reflexivity.
    + unfold contains; fold contains. rewrite (IH 0), Bool.orb_false_r.
      destruct (String.prefix "24"
                  (String c (replace_from "24" "00" 0 s))) eqn:Q;
        [|reflexivity].
      destruct (prefix_24 _ Q) as (t & E). injection E as -> E.
      destruct (replace_head_4 s (ex_intro _ t E)) as (t' & ->).
      assert (String.prefix "24" (String "2" (String "4" t')) = true)
        by (now destruct t').
      congruence.
Qed.

(** Whatever the text, neither end of a stored time range holds the two
    characters [24]: an hour 24, which no time of day has, never reaches
    the evaluator. *)
Theorem parsed_time_ranges_hold_no_24 (d : string) :
  exists r,
    parse_restriction (PyStr d) = Ok r
    /\ forall s e, In (s, e) (time_ranges r) ->
       contains "24" s = false /\ contains "24" e = false.
Proof.
  destruct (parse_restriction_fields d) as (trs & drs & Et & _ & ->).
  eexists. split; [reflexivity|]. cbn [time_ranges].
  intros s e Hin.
  destruct (time_ranges_of_in _ trs Et s e Hin) as (a & b & _ & -> & ->).
  split; apply replace_leaves_no_24.
Qed.

End ParserInvariants.

(* ===================================================================== *)
(** * More on the evaluator *)
(* ===================================================================== *)

Module EvaluatorInvariants.

Import PyStr Re Parser Spec Samples EvaluatorFacts.
Local Open Scope result_scope.

(** [strftime('%A')] names one of the seven days, whatever the date. *)
Lemma strftime_A_day_name (now : datetime) : In (strftime_A now) day_names.
Proof.
  unfold strftime_A, weekday.
  set (x := (days_from_civil (year now) (month now) (day now) + 3)%Z).
  pose proof (Z.mod_pos_bound x 7 eq_refl) as B.
  assert (L : Z.to_nat (x mod 7) < 7) by lia.
  destruct (Z.to_nat (x mod 7)) as [|[|[|[|[|[|[|n]]]]]]];
    simpl; try tauto; lia.
Qed.

Lemma mem_in (x : string) (xs : list string) : In x xs -> mem x xs = true.
Proof.
  intros H. unfold mem. apply existsb_exists.
  exists x. split; [exact H|apply String.eqb_refl].
Qed.

(** A rule for the seven days of the week answers like the same rule
    without days: listing every day and listing none are one constraint. *)
Theorem full_week_is_no_day_constraint
        (ty : option string) (restricted : bool)
        (trs : list (string * string)) (drs : list date_range)
        (sp : option string) (always : bool) (raw : pyval) (now : datetime) :
  is_parking_allowed
    (Restriction ty restricted trs monday_to_sunday drs sp always raw) now
  = is_parking_allowed (Restriction ty restricted trs [] drs sp always raw) now.
Proof.
  unfold is_parking_allowed, time_match, date_match, day_match.
  cbn [all_time days time_ranges date_ranges is_restricted].
  rewrite (mem_in (strftime_A now) monday_to_sunday (strftime_A_day_name now)).
  reflexivity.
Qed.

Lemma window_times_seconds (w : string * string) (tw : time * time) :
  window_times w = Ok tw ->
  second (fst tw) = 0%Z /\ microsecond (fst tw) = 0%Z
  /\ second (snd tw) = 0%Z /\ microsecond (snd tw) = 0%Z.
Proof.
  unfold window_times.
  destruct (hours_minutes (fst w)) as [[sh sm]|]; simpl; [|discriminate].
  destruct (hours_minutes (snd w)) as [[eh em]|]; simpl; [|discriminate].
  unfold dt_time.
  destruct (negb (c_int sh && c_int sm)); simpl; [discriminate|].
  destruct ((0 <=? sh) && (sh <=? 23) && (0 <=? sm) && (sm <=? 59))%Z;
    simpl; [|discriminate].
  destruct (negb (c_int eh && c_int em)); simpl; [discriminate|].
  destruct ((0 <=? eh) && (eh <=? 23) && (0 <=? em) && (em <=? 59))%Z;
    simpl; [|discriminate].
  intros H. injection H as <-. now repeat split.
Qed.

(** The end of a time range is included for its first instant only: a
    window that ends at 18h00 holds 18:00:00 and nothing later in that
    minute, since the instant is compared with its seconds and
    microseconds. *)
Theorem end_minute_holds_first_instant_only
        (w : string * string) (tw : time * time) (t : time) :
  window_times w = Ok tw ->
  hour t = hour (snd tw) -> minute t = minute (snd tw) ->
  (0 < second t \/ (second t = 0 /\ 0 < microsecond t))%Z ->
  in_window t tw = false.
Proof.
  intros Hw Hh Hm Hs.
  destruct (window_times_seconds w tw Hw) as (_ & _ & S2 & U2).
  unfold in_window. apply Bool.andb_false_iff. right.
  unfold time_leb, time_compare. rewrite Hh, Hm, S2, U2, !Z.compare_refl.
  destruct Hs as [Hs|[Hs Hu]].
  - assert (E : (second t ?= 0)%Z = Gt) by (apply Z.compare_gt_iff; lia).
    now rewrite E.
  - rewrite Hs. simpl.
    assert (E : (microsecond t ?= 0)%Z = Gt) by (apply Z.compare_gt_iff; lia).
    now rewrite E.
Qed.

Lemma end_minute_holds_first_instant_only_witness :
  in_window (Time 18 0 1 0) (Time 9 0 0 0, Time 18 0 0 0) = false
  /\ in_window (Time 18 0 0 0) (Time 9 0 0 0, Time 18 0 0 0) = true.
Proof.
  split; [|reflexivity].
  apply (end_minute_holds_first_instant_only ("9h00", "18h00")).
  - reflexivity.
  - reflexivity.
  - reflexivity.
  - left. reflexivity.
Defined.

End EvaluatorInvariants.

(* ===================================================================== *)
(** * Properties of batches and pools *)
(* ===================================================================== *)

Module BatchFacts.

Import PyStr Parser Spec Batch ParserFacts.
Local Open Scope outcome_scope.

(** ** The size of a batch *)

Lemma NUM_PROCESSES_positive (cpu_count : option N) :
  (1 <= NUM_PROCESSES cpu_count)%Z.
Proof.
  unfold NUM_PROCESSES. destruct cpu_count as [c|]; [|lia].
  destruct (N.eqb_spec c 0); lia.
Qed.

Lemma default_batch_size_range (least n num_processes : Z) :
  (1 <= least <= BATCH_SIZE)%Z -> num_processes <> 0%Z ->
  exists batch_size,
    default_batch_size least n num_processes = Done batch_size
    /\ (least <= batch_size <= BATCH_SIZE)%Z.
Proof.
  intros Hl Hn. unfold default_batch_size, floordiv.
  assert (H : (num_processes * 2 =? 0)%Z = false) by lia.
  rewrite H. eexists. split; [reflexivity|]. lia.
Qed.

(** Whatever the number of processors the system reports, none included,
    and whatever the number of rows, the default batch size lies between
    its floor (1000 for the parser and for lists, 100 for frames) and
    5000: the division by twice the number of processes never fails, and
    the range over the rows never has a zero step. *)
Theorem default_batch_size_bounds (cpu_count : option N) (least n : Z) :
  (1 <= least <= 5000)%Z ->
  exists batch_size,
    default_batch_size least n (NUM_PROCESSES cpu_count) = Done batch_size
    /\ (least <= batch_size <= 5000)%Z.
Proof.
  intros H. apply default_batch_size_range; [exact H|].
  pose proof (NUM_PROCESSES_positive cpu_count). lia.
Qed.

Lemma default_batch_size_bounds_witness :
  exists batch_size,
    default_batch_size 100 1000000 (NUM_PROCESSES (Some 8%N))
    = Done batch_size
    /\ (100 <= batch_size <= 5000)%Z.
Proof.
  apply (default_batch_size_bounds (Some 8%N) 100 1000000). lia.
Defined.

(** ** Cutting a list into batches *)

Lemma range_loop_concat {A : Type} (xs : list A) (step : Z) :
  (0 < step)%Z ->
  forall fuel i,
    (0 <= i)%Z -> (Z.of_nat (length xs) - i <= Z.of_nat fuel)%Z ->
    concat (map (fun j => slice xs j (j + step)%Z)
                (range_loop fuel i (Z.of_nat (length xs)) step))
    = skipn (Z.to_nat i) xs.
Proof.
  intros Hs. induction fuel as [|fuel IH]; intros i Hi Hf.
  - simpl. symmetry. apply skipn_all2. lia.
  - simpl. assert (E : (0 <? step)%Z = true) by lia. rewrite E.
    destruct (Z.ltb_spec i (Z.of_nat (length xs))) as [Hlt|Hge].
    + simpl. rewrite IH by lia. unfold slice.
      replace (i + step - i)%Z with step by lia.
      replace (Z.to_nat (i + step)) with (Z.to_nat step + Z.to_nat i) by lia.
      rewrite <- skipn_skipn. apply firstn_skipn.
    + simpl. symmetry. apply skipn_all2. lia.
Qed.

Lemma range_loop_batches {A : Type} (xs : list A) (step : Z) :
  (0 < step)%Z ->
  forall fuel i b,
    (0 <= i)%Z ->
    In b (map (fun j => slice xs j (j + step)%Z)
              (range_loop fuel i (Z.of_nat (length xs)) step)) ->
    (1 <= Z.of_nat (length b) <= step)%Z.
Proof.
  intros Hs. induction fuel as [|fuel IH]; intros i b Hi H; [contradiction|].
  simpl in H. assert (E : (0 <? step)%Z = true) by lia. rewrite E in H.
  destruct (Z.ltb_spec i (Z.of_nat (length xs))) as [Hlt|Hge];
    [|contradiction].
  destruct H as [<-|H]; [|apply (IH (i + step)%Z); [lia|exact H]].
  unfold slice. rewrite length_firstn, length_skipn. lia.
Qed.

Lemma range_loop_length (stop step : Z) :
  (0 < step)%Z ->
  forall fuel i,
    (stop - i <= Z.of_nat fuel)%Z ->
    Z.of_nat (length (range_loop fuel i stop step))
    = Z.max 0 ((stop - i + step - 1) / step).
Proof.
  intros Hs. induction fuel as [|fuel IH]; intros i Hf.
  - simpl. assert ((stop - i + step - 1) / step <= 0)%Z; [|lia].
    apply Z.lt_succ_r. apply Z.div_lt_upper_bound; lia.
  - simpl. assert (E : (0 <? step)%Z = true) by lia. rewrite E.
    destruct (Z.ltb_spec i stop) as [Hlt|Hge].
    + change (length (i :: ?l)) with (S (length l)).
      rewrite Nat2Z.inj_succ, IH by lia.
      replace (stop - i + step - 1)%Z with ((stop - i - 1) + 1 * step)%Z
        by lia.
      rewrite Z.div_add by lia.
      replace (stop - (i + step) + step - 1)%Z with (stop - i - 1)%Z by lia.
      assert (0 <= (stop - i - 1) / step)%Z by (apply Z.div_pos; lia).
      lia.
    + simpl. assert ((stop - i + step - 1) / step <= 0)%Z; [|lia].
      apply Z.lt_succ_r. apply Z.div_lt_upper_bound; lia.
Qed.

Lemma batches_spec {A : Type} (xs : list A) (batch_size : Z) :
  (0 < batch_size)%Z ->
  exists bs,
    batches xs batch_size = Done bs
    /\ concat bs = xs
    /\ (forall b, In b bs -> (1 <= Z.of_nat (length b) <= batch_size)%Z)
    /\ Z.of_nat (length bs)
       = ((Z.of_nat (length xs) + batch_size - 1) / batch_size)%Z.
Proof.
  intros H. unfold batches, range0.
  assert (E : (batch_size =? 0)%Z = false) by lia. rewrite E.
  eexists. split; [reflexivity|]. split; [|split].
  - rewrite range_loop_concat by lia. reflexivity.
  - intros b Hb.
    eapply (range_loop_batches xs batch_size H) with (i := 0%Z); [lia|].
    exact Hb.
  - rewrite length_map, range_loop_length by lia.
    rewrite Z.sub_0_r.
    assert (0 <= (Z.of_nat (length xs) + batch_size - 1) / batch_size)%Z
      by (apply Z.div_pos; lia).
    lia.
Qed.

(** Cutting a list into batches of a positive size loses nothing and
    keeps the order: the batches put end to end are the list. Every batch
    holds between one element and the batch size, and there are as many
    batches as the size goes into the length, rounded up (the number the
    progress bar of [store_signs] is given). *)
Theorem batches_cover {A : Type} (xs : list A) (batch_size : Z) :
  (0 < batch_size)%Z ->
  exists bs,
    batches xs batch_size = Done bs
    /\ concat bs = xs
    /\ (forall b, In b bs -> (1 <= Z.of_nat (length b) <= batch_size)%Z)
    /\ Z.of_nat (length bs)
       = ((Z.of_nat (length xs) + batch_size - 1) / batch_size)%Z.
Proof.
  apply batches_spec.
Qed.

Lemma batches_cover_witness :
  exists bs,
    batches [1; 2; 3; 4; 5] 2 = Done bs
    /\ concat bs = [1; 2; 3; 4; 5]
    /\ (forall b, In b bs -> (1 <= Z.of_nat (length b) <= 2)%Z)
    /\ Z.of_nat (length bs) = ((Z.of_nat 5 + 2 - 1) / 2)%Z.
Proof.
  apply (batches_cover [1; 2; 3; 4; 5] 2). reflexivity.
Defined.

Lemma pool_ok (processes : Z) :
  (1 <= processes)%Z -> pool processes = Done tt.
Proof.
  intros H. unfold pool. destruct (Z.ltb_spec processes 1); [lia|reflexivity].
Qed.

(** ** Parsing a frame in batches *)

Lemma parse_row_ok {C : Type} (row : sign_row C) :
  exists p, parse_row row = Ok p.
Proof.
  unfold parse_row.
  destruct (parse_restriction_ok (DESCRIPTION_RPA row)) as [r E].
  rewrite E. eexists. reflexivity.
Qed.

Lemma parse_batch_rows {C : Type} (df : list (sign_row C)) :
  exists rows,
    parse_batch_restrictions df = Ok rows
    /\ Forall2 (fun row p => parse_row row = Ok p) df rows.
Proof.
  induction df as [|row df IH].
  - exists []. split; [reflexivity|constructor].
  - destruct (parse_row_ok row) as [p Ep]. destruct IH as (ps & E & F).
    exists (p :: ps). simpl. rewrite Ep. simpl. rewrite E. simpl.
    split; [reflexivity|]. constructor; assumption.
Qed.

Lemma parse_batch_app {C : Type} (a b : list (sign_row C))
      (pa pb : list (parsed_row C)) :
  parse_batch_restrictions a = Ok pa ->
  parse_batch_restrictions b = Ok pb ->
  parse_batch_restrictions (a ++ b)%list = Ok (pa ++ pb)%list.
Proof.
  revert pa. induction a as [|row a IH]; intros pa Ha Hb.
  - simpl in Ha. injection Ha as <-. exact Hb.
  - simpl in Ha. simpl. destruct (parse_row row) as [p|e]; [|discriminate].
    simpl in *. destruct (parse_batch_restrictions a) as [ps|e];
      [|discriminate].
    simpl in Ha. injection Ha as <-. rewrite (IH ps eq_refl Hb). reflexivity.
Qed.

Lemma pool_map_batches {C : Type} (bs : list (list (sign_row C))) :
  exists processed rows,
    pool_map (fun b => to_option (parse_batch_restrictions b)) bs
    = Done processed
    /\ parse_batch_restrictions (concat bs) = Ok rows
    /\ concat processed = rows
    /\ length processed = length bs.
Proof.
  induction bs as [|b bs IH].
  - exists [], []. repeat split.
  - destruct IH as (ps & rows & E & Er & Ec & El).
    destruct (parse_batch_rows b) as (pb & Eb & _).
    exists (pb :: ps), (pb ++ rows)%list. simpl. rewrite Eb. simpl.
    rewrite E. simpl. split; [reflexivity|]. split; [|split].
    + apply parse_batch_app; assumption.
    + congruence.
    + congruence.
Qed.

Lemma parallel_rows {C : Type}
        (cpu_count : option N) (df : list (sign_row C)) :
  exists rows,
    parse_batch_restrictions df = Ok rows
    /\ Forall2 (fun row p => parse_row row = Ok p) df rows
    /\ parse_restrictions_parallel cpu_count df
       = match df with
         | [] => Fail (Exn ValueError)
         | _ :: _ => Done rows
         end.
Proof.
  destruct (parse_batch_rows df) as (rows & E & F).
  exists rows. split; [exact E|]. split; [exact F|].
  unfold parse_restrictions_parallel.
  destruct (default_batch_size_range 1000 (Z.of_nat (length df))
              (NUM_PROCESSES cpu_count)) as (bsz & Eb & Hb);
    [unfold BATCH_SIZE; lia
    |pose proof (NUM_PROCESSES_positive cpu_count); lia|].
  unfold BATCH_SIZE in Hb.
  rewrite Eb. cbn [and_then].
  destruct (batches_spec df bsz ltac:(lia)) as (bs & Ebs & Hc & _ & Hl).
  rewrite Ebs. cbn [and_then].
  assert (Hp : pool (NUM_PROCESSES cpu_count) = Done tt).
  { apply pool_ok. apply NUM_PROCESSES_positive. }
  rewrite Hp. cbn [and_then].
  destruct (pool_map_batches bs) as (ps & rows' & Ep & Er & Ec & Elen).
  rewrite Ep. cbn [and_then]. rewrite Hc in Er.
  assert (Hr : concat ps = rows) by congruence.
  destruct df as [|row df].
  - assert (bs = []).
    { destruct bs; [reflexivity|]. simpl in Hl.
      rewrite Z.div_small in Hl by lia. lia. }
    subst bs. destruct ps; [reflexivity|discriminate].
  - destruct ps as [|p ps].
    + destruct bs; [discriminate|discriminate].
    + unfold pd_concat. rewrite Hr. reflexivity.
Qed.

(** Parsing a frame in parallel gives, for a frame with at least one row,
    exactly the rows that parsing the whole frame as one batch gives, in
    the order of the frame, one per row of the frame and each the result
    of parsing that row, whatever the number of processors. On a frame
    with no row there is no batch to concatenate and the call ends in
    ValueError. *)
Theorem parse_restrictions_parallel_is_rowwise {C : Type}
        (cpu_count : option N) (df : list (sign_row C)) :
  exists rows,
    parse_batch_restrictions df = Ok rows
    /\ Forall2 (fun row p => parse_row row = Ok p) df rows
    /\ parse_restrictions_parallel cpu_count df
       = match df with
         | [] => Fail (Exn ValueError)
         | _ :: _ => Done rows
         end.
Proof.
  apply parallel_rows.
Qed.

(** ** The columns added to a row *)

(** The columns [parse_batch_restrictions] adds to a row: the row itself
    is kept, the flags are those of the parsed description, a row flagged
    as paid is never flagged as restricted, and the arrow is one of the
    four directions [create_street_interval] knows, with both sides for a
    missing code and for any code other than 1, 2 and 3. *)
Theorem parsed_row_columns {C : Type} (row : sign_row C) :
  exists p r,
    parse_row row = Ok p
    /\ parse_restriction (DESCRIPTION_RPA row) = Ok r
    /\ source p = row
    /\ parsed_restriction p = r
    /\ row_is_restricted p = is_restricted r
    /\ row_is_all_time p = all_time r
    /\ (row_is_paid p = true <-> type r = Some "$")
    /\ (row_is_paid p = true -> row_is_restricted p = false)
    /\ arrow_direction p
       = match FLECHE_PAN row with
         | Some 1%Z => "up"
         | Some 2%Z => "left"
         | Some 3%Z => "right"
         | _ => "both_sides"
         end
    /\ In (arrow_direction p) ["both_sides"; "up"; "left"; "right"].
Proof.
  destruct (parse_restriction_ok (DESCRIPTION_RPA row)) as [r E].
  exists (ParsedRow row r (is_restricted r) (all_time r) (type_is_paid r)
                    (arrow_of (FLECHE_PAN row))), r.
  unfold parse_row. rewrite E. cbn [bind source parsed_restriction
    row_is_restricted row_is_all_time row_is_paid arrow_direction].
  assert (Hpaid : type_is_paid r = true <-> type r = Some "$").
  { unfold type_is_paid. destruct (type r) as [t|].
    - rewrite String.eqb_eq. split; [intros ->; reflexivity|congruence].
    - split; discriminate. }
  do 6 (split; [reflexivity|]). split; [exact Hpaid|]. split; [|split].
  - intros H. apply Hpaid in H.
    apply (EvaluatorSpec.parsed_paid_not_restricted (DESCRIPTION_RPA row) E).
    unfold kind_of. rewrite H. reflexivity.
  - unfold arrow_of. destruct (FLECHE_PAN row) as [[|[[|[]|]|[|[]|]|]|]|];
      reflexivity.
  - unfold arrow_of. destruct (FLECHE_PAN row) as [[|[[|[]|]|[|[]|]|]|]|];
      simpl; tauto.
Qed.

(** ** [process_in_parallel] *)

Lemma pool_map_total {X Y : Type} (f : X -> option Y) (g : X -> Y)
      (xs : list X) :
  (forall x, f x = Some (g x)) -> pool_map f xs = Done (map g xs).
Proof.
  intros H. induction xs as [|x xs IH]; [reflexivity|].
  simpl. rewrite H, IH. reflexivity.
Qed.

Lemma flatten_lists {A B : Type} (h : list A -> list B)
      (bs : list (list A)) :
  (forall a b, h (a ++ b)%list = (h a ++ h b)%list) ->
  flatten (map (fun b => AList (h b)) bs) = h (concat bs).
Proof.
  intros H.
  assert (H0 : h [] = []).
  { pose proof (H [] []) as E. simpl in E.
    apply (f_equal (@length B)) in E. rewrite length_app in E.
    destruct (h []); [reflexivity|simpl in E; lia]. }
  induction bs as [|b bs IH]; [symmetry; exact H0|].
  unfold flatten in *. simpl. rewrite IH, H. reflexivity.
Qed.

(** Batching cannot be seen from outside: for a function that returns a
    list and distributes over concatenation (one that treats the items
    one by one does), a positive batch size or none, and at least one
    process or none given, the result is the function applied to all the
    items at once, whatever the batch size and the number of processes. *)
Theorem process_in_parallel_is_unbatched {A B : Type}
        (function : list A -> option (batch_result B))
        (h : list A -> list B) (items : list A) (cpu_count : option N)
        (num_processes batch_size : option Z) :
  (forall b, function b = Some (AList (h b))) ->
  (forall a b, h (a ++ b)%list = (h a ++ h b)%list) ->
  (forall n, num_processes = Some n -> (1 <= n)%Z) ->
  (forall b, batch_size = Some b -> (0 < b)%Z) ->
  process_in_parallel function items cpu_count num_processes batch_size
  = Done (h items).
Proof.
  intros Hf Hh Hn Hb. unfold process_in_parallel.
  set (np := match num_processes with
             | Some n => n
             | None => NUM_PROCESSES cpu_count
             end).
  assert (Hnp : (1 <= np)%Z).
  { subst np. destruct num_processes as [n|];
      [apply Hn; reflexivity|apply NUM_PROCESSES_positive]. }
  assert (Hbs : exists bsz,
             match batch_size with
             | Some b => Done b
             | None => default_batch_size 1000 (Z.of_nat (length items)) np
             end = Done bsz /\ (0 < bsz)%Z).
  { destruct batch_size as [b|].
    - exists b. split; [reflexivity|apply Hb; reflexivity].
    - destruct (default_batch_size_range 1000 (Z.of_nat (length items)) np)
        as (bsz & E & H); [unfold BATCH_SIZE; lia|lia|].
      exists bsz. split; [exact E|lia]. }
  destruct Hbs as (bsz & -> & Hpos). cbn [and_then].
  destruct (batches_spec items bsz Hpos) as (bs & -> & Hc & _).
  cbn [and_then]. rewrite (pool_ok np Hnp). cbn [and_then].
  rewrite (pool_map_total function (fun b => AList (h b)) bs Hf).
  cbn [and_then]. rewrite (flatten_lists h bs Hh), Hc. reflexivity.
Qed.

Lemma process_in_parallel_is_unbatched_witness :
  process_in_parallel (fun b => Some (AList (map Z.succ b)))
                      [1; 2; 3; 4; 5]%Z None (Some 3%Z) (Some 2%Z)
  = Done (map Z.succ [1; 2; 3; 4; 5]%Z).
Proof.
  apply (process_in_parallel_is_unbatched
           (fun b => Some (AList (map Z.succ b))) (map Z.succ)).
  - reflexivity.
  - intros a b. apply map_app.
  - intros n E. injection E as <-. lia.
  - intros b E. injection E as <-. lia.
Defined.

(** A batch size of zero ends in ValueError whatever the rest, before any
    process is started, and zero processes with the default batch size
    end in a division by zero. *)
Theorem process_in_parallel_zero_sizes {A B : Type}
        (function : list A -> option (batch_result B)) (items : list A)
        (cpu_count : option N) (num_processes : option Z) :
  process_in_parallel function items cpu_count num_processes (Some 0%Z)
  = Fail (Exn ValueError)
  /\ process_in_parallel function items cpu_count (Some 0%Z) None
     = Fail ZeroDivisionError.
Proof.
  split; reflexivity.
Qed.

(** A negative batch size loses every item without a word: with at least
    one process the function is never called and the result is the empty
    list, also for a function that would raise on every batch. *)
Theorem process_in_parallel_negative_batch_size {A B : Type}
        (function : list A -> option (batch_result B)) (items : list A)
        (cpu_count : option N) (num_processes : option Z) (batch_size : Z) :
  (batch_size < 0)%Z ->
  (forall n, num_processes = Some n -> (1 <= n)%Z) ->
  process_in_parallel function items cpu_count num_processes
                      (Some batch_size)
  = Done [].
Proof.
  intros Hb Hn. unfold process_in_parallel. cbn [and_then].
  unfold batches, range0.
  assert (E : (batch_size =? 0)%Z = false) by lia. rewrite E.
  assert (R : range_loop (Z.abs_nat (Z.of_nat (length items))) 0
                         (Z.of_nat (length items)) batch_size = []).
  { destruct (Z.abs_nat (Z.of_nat (length items))); [reflexivity|].
    simpl. assert (E1 : (0 <? batch_size)%Z = false) by lia. rewrite E1.
    destruct (Z.ltb_spec (Z.of_nat (length items)) 0); [lia|reflexivity]. }
  rewrite R. cbn [and_then map]. rewrite pool_ok; [reflexivity|].
  destruct num_processes as [n|];
    [apply Hn; reflexivity|apply NUM_PROCESSES_positive].
Qed.

Lemma process_in_parallel_negative_batch_size_witness :
  process_in_parallel (fun _ : list Z => @None (batch_result Z))
                      [1; 2; 3]%Z None None (Some (-1)%Z)
  = Done [].
Proof.
  apply (process_in_parallel_negative_batch_size
           (fun _ : list Z => @None (batch_result Z)) [1; 2; 3]%Z None None
           (-1)%Z).
  - lia.
  - discriminate.
Defined.

End BatchFacts.

(* ===================================================================== *)
(** * Properties of the search for a street *)
(* ===================================================================== *)

Module StreetsFacts.

Import PyStr Osm Batch Streets OsmFacts.
Local Open Scope outcome_scope.

Section Generic.

Context {F : Type} {G : Geometry F}.

Lemma coords_of_length (nodes : list (node F)) (coords : list (F * F)) :
  coords_of nodes = Done coords -> length coords = length nodes.
Proof.
  revert coords. induction nodes as [|n nodes IH]; intros coords H.
  - injection H as <-. reflexivity.
  - simpl in H. destruct (node_lon n); [|discriminate].
    destruct (node_lat n); [|discriminate].
    destruct (coords_of nodes) as [cs|]; [|discriminate].
    injection H as <-. simpl. rewrite (IH cs eq_refl). reflexivity.
Qed.

Lemma coords_of_fail (nodes : list (node F)) (f : failure) :
  coords_of nodes = Fail f -> f = KeyError.
Proof.
  induction nodes as [|n nodes IH]; intros H; [discriminate|].
  simpl in H. destruct (node_lon n); [|congruence].
  destruct (node_lat n); [|congruence].
  destruct (coords_of nodes) as [cs|f']; [discriminate|].
  simpl in H. injection H as <-. apply IH. reflexivity.
Qed.

Lemma street_of_some (p : F * F) (e : element F) (s : street F) :
  street_of p e = Done (Some s) ->
  exists nodes,
    element_geometry e = Some nodes
    /\ 2 <= length nodes
    /\ coords_of nodes = Done (street_geometry s)
    /\ element_id e = Some (street_id s)
    /\ street_name s = tag tag_name e
    /\ street_highway s = tag tag_highway e
    /\ street_distance s = distance p (street_geometry s).
Proof.
  unfold street_of. intros H.
  destruct (element_geometry e) as [nodes|]; [|discriminate].
  destruct (Nat.leb_spec 2 (length nodes)) as [Hl|]; [|discriminate].
  destruct (coords_of nodes) as [cs|] eqn:Ec; [|discriminate].
  cbn [and_then] in H. destruct (element_id e) as [i|]; [|discriminate].
  injection H as <-. exists nodes. cbn. repeat split; assumption.
Qed.

Lemma street_of_fail (p : F * F) (e : element F) (f : failure) :
  street_of p e = Fail f -> f = KeyError.
Proof.
  unfold street_of. intros H.
  destruct (element_geometry e) as [nodes|]; [|discriminate].
  destruct (2 <=? length nodes)%nat; [|discriminate].
  destruct (coords_of nodes) as [cs|f'] eqn:Ec.
  - cbn [and_then] in H. destruct (element_id e); congruence.
  - cbn [and_then] in H. injection H as <-. exact (coords_of_fail _ _ Ec).
Qed.

Lemma streets_of_in (p : F * F) (es : list (element F)) (ss : list (street F))
      (s : street F) :
  streets_of p es = Done ss -> In s ss ->
  exists e, In e es /\ street_of p e = Done (Some s).
Proof.
  revert ss. induction es as [|e es IH]; intros ss H Hin.
  - injection H as <-. contradiction.
  - simpl in H. destruct (street_of p e) as [o|] eqn:Eo; [|discriminate].
    cbn [and_then] in H.
    destruct (streets_of p es) as [ss'|]; [|discriminate].
    cbn [and_then] in H. injection H as <-.
    destruct o as [x|].
    + destruct Hin as [<-|Hin].
      * exists e. split; [left; reflexivity|exact Eo].
      * destruct (IH ss' eq_refl Hin) as (e' & He & E).
        exists e'. split; [right; exact He|exact E].
    + destruct (IH ss' eq_refl Hin) as (e' & He & E).
      exists e'. split; [right; exact He|exact E].
Qed.

Lemma streets_of_fail (p : F * F) (es : list (element F)) (f : failure) :
  streets_of p es = Fail f -> f = KeyError.
Proof.
  induction es as [|e es IH]; intros H; [discriminate|].
  simpl in H. destruct (street_of p e) as [o|f'] eqn:Eo.
  - cbn [and_then] in H. destruct (streets_of p es) as [ss'|f''].
    + discriminate.
    + cbn [and_then] in H. injection H as <-. apply IH. reflexivity.
  - cbn [and_then] in H. injection H as <-. exact (street_of_fail _ _ _ Eo).
Qed.

Lemma min_loop_in (best : street F) (streets : list (street F)) :
  In (min_loop best streets) (best :: streets).
Proof.
  revert best. induction streets as [|s streets IH]; intros best.
  - left. reflexivity.
  - simpl min_loop.
    destruct (f_lt (street_distance s) (street_distance best)).
    + right. apply IH.
    + destruct (IH best) as [E|H]; [left; exact E|right; right; exact H].
Qed.

Section Ordered.

Hypothesis f_lt_asym :
  forall a b : F, f_lt a b = true -> f_lt b a = false.
Hypothesis f_lt_trans :
  forall a b c : F, f_lt a b = true -> f_lt b c = true -> f_lt a c = true.

Lemma min_loop_below (best : street F) (streets : list (street F)) :
  min_loop best streets = best
  \/ f_lt (street_distance (min_loop best streets)) (street_distance best)
     = true.
Proof.
  revert best. induction streets as [|s streets IH]; intros best.
  - left. reflexivity.
  - simpl min_loop.
    destruct (f_lt (street_distance s) (street_distance best)) eqn:E.
    + right. destruct (IH s) as [->|H]; [exact E|].
      exact (f_lt_trans _ _ _ H E).
    + apply IH.
Qed.

Lemma f_lt_irrefl (a : F) : f_lt a a = false.
Proof.
  destruct (f_lt a a) eqn:E; [|reflexivity].
  rewrite (f_lt_asym _ _ E) in E. discriminate.
Qed.

Lemma min_loop_least (best : street F) (streets : list (street F)) (c : street F) :
  In c (best :: streets) ->
  f_lt (street_distance c) (street_distance (min_loop best streets)) = false.
Proof.
  revert best. induction streets as [|s streets IH]; intros best Hin.
  - destruct Hin as [Hc|[]]. subst c. apply f_lt_irrefl.
  - simpl min_loop.
    destruct (f_lt (street_distance s) (street_distance best)) eqn:E.
    + destruct Hin as [Hc|Hin].
      * subst c. destruct (min_loop_below s streets) as [->|H].
        -- apply f_lt_asym. exact E.
        -- apply f_lt_asym. exact (f_lt_trans _ _ _ H E).
      * apply IH. exact Hin.
    + destruct Hin as [Hc|[Hc|Hin]].
      * apply IH. left. exact Hc.
      * subst c. destruct (min_loop_below best streets) as [->|H]; [exact E|].
        destruct (f_lt (street_distance s)
                       (street_distance (min_loop best streets))) eqn:E';
          [|reflexivity].
        rewrite (f_lt_trans _ _ _ E' H) in E. discriminate.
      * apply IH. right. exact Hin.
Qed.

End Ordered.

(** ** The loop of retries *)

Lemma retry_loop_first_reply (network : nat -> reply F) (p : F * F)
      (retry_count : Z) (k : nat) (d : data F) :
  (Z.of_nat k < retry_count)%Z ->
  network k = Reply d ->
  forall todo attempt,
    attempt <= k -> k < attempt + todo ->
    (forall j, attempt <= j -> j < k -> network j = RequestError) ->
    retry_loop network p retry_count todo attempt = (S k, nearest_of p d).
Proof.
  intros Hk Hd. induction todo as [|todo IH]; intros attempt Ha Ht He; [lia|].
  simpl. destruct (Nat.eq_dec attempt k) as [->|Hne].
  - rewrite Hd. reflexivity.
  - rewrite (He attempt) by lia.
    destruct (Z.ltb_spec (Z.of_nat attempt) (retry_count - 1)); [|lia].
    apply IH; [lia|lia|]. intros j H1 H2. apply He; lia.
Qed.

Lemma retry_loop_all_errors (network : nat -> reply F) (p : F * F)
      (retry_count : Z) :
  (forall j, (Z.of_nat j < retry_count)%Z -> network j = RequestError) ->
  forall todo attempt,
    attempt + todo = Z.to_nat retry_count ->
    retry_loop network p retry_count todo attempt
    = (Z.to_nat retry_count, Done None).
Proof.
  intros He. induction todo as [|todo IH]; intros attempt Ht.
  - simpl. rewrite <- Ht. rewrite Nat.add_0_r. reflexivity.
  - simpl. rewrite (He attempt) by lia.
    destruct (Z.ltb_spec (Z.of_nat attempt) (retry_count - 1)).
    + apply IH. lia.
    + f_equal. lia.
Qed.

Lemma retry_loop_bound (network : nat -> reply F) (p : F * F)
      (retry_count : Z) :
  forall todo attempt,
    attempt <= fst (retry_loop network p retry_count todo attempt)
    <= attempt + todo.
Proof.
  induction todo as [|todo IH]; intros attempt; [simpl; lia|].
  simpl. destruct (network attempt); [simpl; lia|].
  destruct (Z.of_nat attempt <? retry_count - 1)%Z; [|simpl; lia].
  specialize (IH (S attempt)). lia.
Qed.

Lemma retry_loop_result (network : nat -> reply F) (p : F * F)
      (retry_count : Z) :
  forall todo attempt,
    snd (retry_loop network p retry_count todo attempt) = Done None
    \/ exists k d,
         k < attempt + todo /\ network k = Reply d
         /\ snd (retry_loop network p retry_count todo attempt)
            = nearest_of p d.
Proof.
  induction todo as [|todo IH]; intros attempt; [left; reflexivity|].
  simpl. destruct (network attempt) as [d|] eqn:E.
  - right. exists attempt, d. split; [lia|]. split; [exact E|reflexivity].
  - destruct (Z.of_nat attempt <? retry_count - 1)%Z; [|left; reflexivity].
    destruct (IH (S attempt)) as [H|(k & d & Hk & Hd & H)]; [left; exact H|].
    right. exists k, d. split; [lia|]. split; assumption.
Qed.

Lemma nearest_of_some (p : F * F) (d : data F) (s : street F) :
  nearest_of p d = Done (Some s) ->
  exists es first streets,
    elements d = Some es
    /\ streets_of p es = Done (first :: streets)
    /\ s = min_loop first streets.
Proof.
  unfold nearest_of. intros H.
  destruct (elements d) as [[|e es]|]; [discriminate| |discriminate].
  destruct (streets_of p (e :: es)) as [[|first streets]|] eqn:E;
    [discriminate| |discriminate].
  cbn [and_then] in H. injection H as <-.
  exists (e :: es), first, streets. repeat split. exact E.
Qed.

Lemma nearest_of_fail (p : F * F) (d : data F) (f : failure) :
  nearest_of p d = Fail f -> f = KeyError.
Proof.
  unfold nearest_of. intros H.
  destruct (elements d) as [[|e es]|]; [discriminate| |discriminate].
  destruct (streets_of p (e :: es)) as [[|first streets]|f'] eqn:E;
    [discriminate|discriminate|].
  cbn [and_then] in H. injection H as <-. exact (streets_of_fail _ _ _ E).
Qed.

Lemma nearest_street_source (network : nat -> reply F) (lat lon : F)
      (retry_count : Z) (s : street F) :
  snd (get_nearest_street network lat lon retry_count) = Done (Some s) ->
  exists k d es first streets e nodes,
    (Z.of_nat k < retry_count)%Z
    /\ network k = Reply d
    /\ elements d = Some es
    /\ streets_of (lon, lat) es = Done (first :: streets)
    /\ s = min_loop first streets
    /\ In e es
    /\ street_of (lon, lat) e = Done (Some s)
    /\ element_geometry e = Some nodes
    /\ 2 <= length nodes
    /\ coords_of nodes = Done (street_geometry s)
    /\ element_id e = Some (street_id s)
    /\ street_name s = tag tag_name e
    /\ street_highway s = tag tag_highway e
    /\ street_distance s = distance (lon, lat) (street_geometry s).
Proof.
  unfold get_nearest_street. intros H.
  destruct (retry_loop_result network (lon, lat) retry_count
              (Z.to_nat retry_count) 0) as [E|(k & d & Hk & Hd & E)];
    [congruence|].
  rewrite E in H.
  destruct (nearest_of_some _ _ _ H) as (es & first & streets & He & Hs & Hm).
  assert (Hin : In s (first :: streets))
    by (rewrite Hm; apply min_loop_in).
  destruct (streets_of_in _ _ _ _ Hs Hin) as (e & Hein & Hse).
  destruct (street_of_some _ _ _ Hse) as (nodes & H1 & H2 & H3 & H4 & H5 & H6 & H7).
  exists k, d, es, first, streets, e, nodes.
  repeat split; try assumption. lia.
Qed.

Lemma nearest_street_fail (network : nat -> reply F) (lat lon : F)
      (retry_count : Z) (f : failure) :
  snd (get_nearest_street network lat lon retry_count) = Fail f ->
  f = KeyError.
Proof.
  unfold get_nearest_street. intros H.
  destruct (retry_loop_result network (lon, lat) retry_count
              (Z.to_nat retry_count) 0) as [E|(k & d & Hk & Hd & E)];
    [congruence|].
  rewrite E in H. exact (nearest_of_fail _ _ _ H).
Qed.

Lemma records_of_pair (id : Z) (s : street F) (a b : F * F)
      (intervals : list (list (F * F))) :
  records_of id s ([a; b] :: intervals)
  = IntervalRecord id (street_name s) [a; b] (snd a) (fst a) (snd b) (fst b)
    :: records_of id s intervals.
Proof.
  destruct a, b. reflexivity.
Qed.

(** ** What the search returns *)

(** The answer is decided by the first request that goes through: when
    the requests before number [k] fail and [k] is below the number of
    tries, [k + 1] requests are made and the result is read from that
    answer alone, whatever later requests would give. *)
Theorem first_reply_decides (network : nat -> reply F) (lat lon : F)
        (retry_count : Z) (k : nat) (d : data F) :
  (Z.of_nat k < retry_count)%Z ->
  (forall j, j < k -> network j = RequestError) ->
  network k = Reply d ->
  get_nearest_street network lat lon retry_count
  = (S k, nearest_of (lon, lat) d).
Proof.
  intros Hk He Hd. unfold get_nearest_street.
  apply retry_loop_first_reply; [exact Hk|exact Hd|lia|lia|].
  intros j _ Hj. apply He. exact Hj.
Qed.

(** When every request fails the search gives up with no street after
    exactly as many requests as tries are allowed, and after none for a
    number of tries of zero or less. *)
Theorem gives_up_after_retry_count (network : nat -> reply F) (lat lon : F)
        (retry_count : Z) :
  (forall j, (Z.of_nat j < retry_count)%Z -> network j = RequestError) ->
  get_nearest_street network lat lon retry_count
  = (Z.to_nat retry_count, Done None).
Proof.
  intros He. unfold get_nearest_street.
  apply retry_loop_all_errors; [exact He|lia].
Qed.

(** Whatever the network does, the search makes no more requests than
    tries are allowed, and it ends: with no street, with a street, or
    with the KeyError of an answer that lacks a key. *)
Theorem requests_within_retry_count (network : nat -> reply F) (lat lon : F)
        (retry_count : Z) :
  fst (get_nearest_street network lat lon retry_count)
  <= Z.to_nat retry_count
  /\ (forall f,
        snd (get_nearest_street network lat lon retry_count) = Fail f ->
        f = KeyError).
Proof.
  split.
  - unfold get_nearest_street.
    pose proof (retry_loop_bound network (lon, lat) retry_count
                                 (Z.to_nat retry_count) 0) as H.
    lia.
  - intros f. apply nearest_street_fail.
Qed.

(** A street that is returned was read from an element of an answer: it
    has the identifier of the element, its name and kind or Unknown, at
    least two vertices, one per node and longitude first, and its
    distance is the distance from the sign to that line. *)
Theorem nearest_street_is_well_formed (network : nat -> reply F)
        (lat lon : F) (retry_count : Z) (s : street F) :
  snd (get_nearest_street network lat lon retry_count) = Done (Some s) ->
  exists k d es e nodes,
    network k = Reply d
    /\ elements d = Some es
    /\ In e es
    /\ element_id e = Some (street_id s)
    /\ element_geometry e = Some nodes
    /\ 2 <= length (street_geometry s)
    /\ map (fun c => Node (Some (fst c)) (Some (snd c))) (street_geometry s)
       = nodes
    /\ street_name s = tag tag_name e
    /\ street_highway s = tag tag_highway e
    /\ street_distance s = distance (lon, lat) (street_geometry s).
Proof.
  intros H.
  destruct (nearest_street_source network lat lon retry_count s H)
    as (k & d & es & first & streets & e & nodes & _ & Hd & He & _ & _
        & Hin & _ & Hg & Hl & Hc & Hi & Hn & Hh & Hdist).
  exists k, d, es, e, nodes.
  repeat split; try assumption.
  - rewrite (coords_of_length _ _ Hc). exact Hl.
  - clear -Hc. revert Hc. generalize (street_geometry s).
    induction nodes as [|n nodes IH]; intros coords Hc.
    + injection Hc as <-. reflexivity.
    + simpl in Hc. destruct n as [[x|] [y|]]; simpl in Hc; try discriminate.
      destruct (coords_of nodes) as [cs|]; [|discriminate].
      injection Hc as <-. simpl. rewrite (IH cs eq_refl). reflexivity.
Qed.

(** Where the comparison of distances is a strict order, the street that
    is returned is a nearest one: no street of the answer with two nodes
    or more is strictly nearer to the sign. *)
Theorem nearest_street_is_nearest (network : nat -> reply F) (lat lon : F)
        (retry_count : Z) (s : street F) :
  (forall a b : F, f_lt a b = true -> f_lt b a = false) ->
  (forall a b c : F, f_lt a b = true -> f_lt b c = true -> f_lt a c = true) ->
  snd (get_nearest_street network lat lon retry_count) = Done (Some s) ->
  exists k d es candidates,
    network k = Reply d
    /\ elements d = Some es
    /\ streets_of (lon, lat) es = Done candidates
    /\ In s candidates
    /\ forall c, In c candidates ->
                 f_lt (street_distance c) (street_distance s) = false.
Proof.
  intros Hasym Htrans H.
  destruct (nearest_street_source network lat lon retry_count s H)
    as (k & d & es & first & streets & e & nodes & _ & Hd & He & Hs & Hm
        & _).
  exists k, d, es, (first :: streets).
  repeat split; try assumption.
  - rewrite Hm. apply min_loop_in.
  - intros c Hc. rewrite Hm. apply min_loop_least; assumption.
Qed.

(** ** The records of a sign *)

(** The records of a sign never fail on the street: when the search finds
    no street there is no record; when it finds one there are two records
    for a sign that holds on both sides and one for any other direction,
    each with the identifier of the sign, the name of the street and a
    geometry of exactly two points, whose first point gives the start and
    whose second gives the end, longitude first. The only exception that
    can leave is the KeyError of the search. *)
Theorem sign_intervals_records (network : nat -> reply F)
        (interval_length : F) (id : Z) (lat lon : F) (direction : string) :
  match snd (get_nearest_street network lat lon 3) with
  | Fail f =>
      f = KeyError
      /\ _process_sign_intervals network interval_length
                                 (id, lat, lon, direction)
         = Fail KeyError
  | Done None =>
      _process_sign_intervals network interval_length
                              (id, lat, lon, direction)
      = Done []
  | Done (Some s) =>
      exists records,
        _process_sign_intervals network interval_length
                                (id, lat, lon, direction)
        = Done records
        /\ length records
           = (if String.eqb direction "both_sides" then 2 else 1)
        /\ forall r, In r records ->
             sign_id r = id
             /\ interval_street_name r = street_name s
             /\ exists a b,
                  geometry r = [a; b]
                  /\ start_lon r = fst a /\ start_lat r = snd a
                  /\ end_lon r = fst b /\ end_lat r = snd b
  end.
Proof.
  unfold _process_sign_intervals.
  destruct (snd (get_nearest_street network lat lon 3)) as [[s|]|f] eqn:E.
  - cbn [and_then].
    destruct (nearest_street_source network lat lon 3 s E)
      as (_ & _ & _ & _ & _ & _ & nodes & _ & _ & _ & _ & _ & _ & _ & _ & Hl
          & Hc & _).
    rewrite <- (coords_of_length _ _ Hc) in Hl.
    destruct (@segment_ends F G (street_geometry s) (lon, lat) Hl)
      as (seg_start & seg_end & H1 & H2).
    rewrite (@create_street_interval_eq F G (street_geometry s) (lon, lat)
               direction interval_length seg_start seg_end H1 H2).
    assert (Hrec : forall a b r,
               In r (records_of id s [[a; b]]) ->
               sign_id r = id
               /\ interval_street_name r = street_name s
               /\ exists a b,
                    geometry r = [a; b]
                    /\ start_lon r = fst a /\ start_lat r = snd a
                    /\ end_lon r = fst b /\ end_lat r = snd b).
    { intros a b r Hr. rewrite records_of_pair in Hr.
      destruct Hr as [<-|[]]. cbn. repeat split. exists a, b.
      repeat split. }
    destruct (String.eqb direction "both_sides").
    + cbn [lift and_then]. eexists. split; [reflexivity|].
      rewrite !records_of_pair. split; [reflexivity|].
      intros r [<-|[<-|[]]]; cbn; repeat split; eexists; eexists;
        repeat split.
    + destruct (String.eqb direction "left");
        [|destruct (String.eqb direction "right");
          [|destruct (String.eqb direction "up")]];
        cbn [lift and_then]; eexists; (split; [reflexivity|]);
        rewrite records_of_pair; (split; [reflexivity|]);
        intros r Hr; eapply Hrec; rewrite records_of_pair; exact Hr.
  - reflexivity.
  - cbn [and_then]. split; [|rewrite (nearest_street_fail _ _ _ _ _ E)];
      [exact (nearest_street_fail _ _ _ _ _ E)|reflexivity].
Qed.

(** ** From the arrow of a row to its interval *)

(** The arrow computed for a row of the data set always selects one of
    the four shapes of interval, never the short default segment around
    the nearest point: on a street of two vertices or more, code 1 gives
    the interval centred on the sign, code 2 the part of the segment
    before the nearest point, code 3 the part after it, and a missing or
    any other code both parts. *)
Theorem parsed_arrow_selects_interval {C : Type} (row : sign_row C)
        (p : parsed_row C) (street_line : list (F * F)) (sign_point : F * F)
        (interval_length : F) :
  parse_row row = Ok p ->
  2 <= length street_line ->
  exists seg_start seg_end,
    nth_error street_line (find_segment street_line sign_point)
    = Some seg_start
    /\ nth_error street_line (find_segment street_line sign_point + 1)
       = Some seg_end
    /\ create_street_interval street_line sign_point (arrow_direction p)
                              interval_length
       = Ok (match FLECHE_PAN row with
             | Some 1%Z =>
                 [[interpolate street_line
                     (f_max f_zero (f_sub (project street_line sign_point)
                                          (f_half interval_length)));
                   interpolate street_line
                     (f_add (project street_line sign_point)
                            (f_half interval_length))]]
             | Some 2%Z => [[seg_start; nearest street_line sign_point]]
             | Some 3%Z => [[nearest street_line sign_point; seg_end]]
             | _ => [[seg_start; nearest street_line sign_point];
                     [nearest street_line sign_point; seg_end]]
             end).
Proof.
  intros Hp Hl.
  destruct (@segment_ends F G street_line sign_point Hl)
    as (seg_start & seg_end & H1 & H2).
  exists seg_start, seg_end. split; [exact H1|]. split; [exact H2|].
  rewrite (@create_street_interval_eq F G street_line sign_point
             (arrow_direction p) interval_length seg_start seg_end H1 H2).
  unfold parse_row in Hp.
  destruct (Parser.parse_restriction (DESCRIPTION_RPA row)) as [r|];
    [|discriminate].
  injection Hp as <-. cbn [arrow_direction]. unfold arrow_of.
  destruct (FLECHE_PAN row) as [[|[[|[]|]|[|[]|]|]|]|]; reflexivity.
Qed.

End Generic.

(** ** On the straight street *)

Lemma num_lt_asym (a b : num) : num_lt a b = true -> num_lt b a = false.
Proof.
  destruct a as [x|], b as [y|]; simpl; try congruence.
  intros H. apply Z.ltb_lt in H. apply Z.ltb_ge. lia.
Qed.

Lemma num_lt_trans (a b c : num) :
  num_lt a b = true -> num_lt b c = true -> num_lt a c = true.
Proof.
  destruct a as [x|], b as [y|], c as [z|]; simpl; try congruence.
  intros H1 H2. apply Z.ltb_lt in H1. apply Z.ltb_lt in H2.
  apply Z.ltb_lt. lia.
Qed.

Lemma parsed_arrow_selects_interval_witness :
  exists p seg_start seg_end,
    parse_row StreetSamples.left_arrow_row = Ok p
    /\ nth_error Samples.long_street
                 (find_segment Samples.long_street Samples.sign_aside)
       = Some seg_start
    /\ nth_error Samples.long_street
                 (find_segment Samples.long_street Samples.sign_aside + 1)
       = Some seg_end
    /\ create_street_interval Samples.long_street Samples.sign_aside
                              (arrow_direction p) (Num 500000)
       = Ok [[seg_start; nearest Samples.long_street Samples.sign_aside]].
Proof.
  destruct (parse_row StreetSamples.left_arrow_row) as [p|e] eqn:E;
    [|vm_compute in E; discriminate].
  destruct (parsed_arrow_selects_interval
              StreetSamples.left_arrow_row p Samples.long_street
              Samples.sign_aside (Num 500000) E ltac:(simpl; lia))
    as (seg_start & seg_end & H1 & H2 & H3).
  exists p, seg_start, seg_end.
  split; [reflexivity|]. split; [exact H1|]. split; [exact H2|exact H3].
Defined.

Lemma first_reply_decides_witness :
  get_nearest_street StreetSamples.flaky (Num 0) (Num 400) 3
  = (2, nearest_of (Num 400, Num 0) StreetSamples.two_streets).
Proof.
  apply (first_reply_decides StreetSamples.flaky (Num 0) (Num 400) 3 1
                             StreetSamples.two_streets).
  - lia.
  - intros j Hj. destruct j; [reflexivity|lia].
  - reflexivity.
Defined.

Lemma gives_up_after_retry_count_witness :
  get_nearest_street StreetSamples.down (Num 0) (Num 400) 3
  = (3, Done None).
Proof.
  apply (gives_up_after_retry_count StreetSamples.down (Num 0) (Num 400) 3).
  intros j _. reflexivity.
Defined.

Lemma nearest_street_is_well_formed_witness :
  exists s,
    snd (get_nearest_street StreetSamples.flaky (Num 0) (Num 400) 3)
    = Done (Some s)
    /\ street_id s = 1%Z
    /\ exists k d es e nodes,
         StreetSamples.flaky k = Reply d
         /\ elements d = Some es
         /\ In e es
         /\ element_id e = Some (street_id s)
         /\ element_geometry e = Some nodes
         /\ 2 <= length (street_geometry s)
         /\ map (fun c => Node (Some (fst c)) (Some (snd c)))
                (street_geometry s)
            = nodes
         /\ street_name s = tag tag_name e
         /\ street_highway s = tag tag_highway e
         /\ street_distance s
            = distance (Num 400, Num 0) (street_geometry s).
Proof.
  eexists. split; [vm_compute; reflexivity|]. split; [reflexivity|].
  apply (nearest_street_is_well_formed StreetSamples.flaky (Num 0) (Num 400)
                                       3).
  vm_compute. reflexivity.
Defined.

Lemma nearest_street_is_nearest_witness :
  exists s,
    snd (get_nearest_street StreetSamples.flaky (Num 0) (Num 400) 3)
    = Done (Some s)
    /\ exists k d es candidates,
         StreetSamples.flaky k = Reply d
         /\ elements d = Some es
         /\ streets_of (Num 400, Num 0) es = Done candidates
         /\ In s candidates
         /\ forall c, In c candidates ->
                      f_lt (street_distance c) (street_distance s) = false.
Proof.
  eexists. split; [vm_compute; reflexivity|].
  apply (nearest_street_is_nearest StreetSamples.flaky (Num 0) (Num 400) 3).
  - exact num_lt_asym.
  - exact num_lt_trans.
  - vm_compute. reflexivity.
Defined.

End StreetsFacts.

(* ===================================================================== *)
(** * Properties of the storing of signs *)
(* ===================================================================== *)

Module StoreFacts.

Import PyStr Parser Batch Store BatchFacts.
Local Open Scope outcome_scope.

Section Generic.

Context {C S : Type}.
Variable from_dataframe_row : parsed_row C -> S.
Variable accepts : list S -> list S -> bool.

Lemma signs_of_app (a b : list (parsed_row C)) :
  signs_of from_dataframe_row (a ++ b)%list
  = (signs_of from_dataframe_row a ++ signs_of from_dataframe_row b)%list.
Proof.
  unfold signs_of. rewrite filter_app, map_app. reflexivity.
Qed.

Lemma signs_of_length (df : list (parsed_row C)) :
  length (signs_of from_dataframe_row df) = length (filter has_coordinates df).
Proof.
  unfold signs_of. apply length_map.
Qed.


Lemma store_loop_accepting (df_batches : list (list (parsed_row C))) :
  (forall stored signs, accepts stored signs = true) ->
  forall stored count,
    store_loop from_dataframe_row accepts df_batches stored count
    = ((stored ++ signs_of from_dataframe_row (concat df_batches))%list,
       Done (count
             + Z.of_nat (length (signs_of from_dataframe_row
                                          (concat df_batches))))%Z).
Proof.
  intros Ha. induction df_batches as [|batch_df rest IH]; intros stored count.
  - simpl. rewrite app_nil_r, Z.add_0_r. reflexivity.
  - cbn [concat store_loop]. rewrite signs_of_app.
    destruct (signs_of from_dataframe_row batch_df) as [|sign signs] eqn:E.
    + exact (IH stored count).
    + rewrite Ha, IH, app_assoc, length_app. f_equal. f_equal. lia.
Qed.

Lemma store_signs_batches (df : list (parsed_row C)) (batch_size : Z)
      (stored : list S) :
  (0 < batch_size)%Z ->
  exists df_batches,
    concat df_batches = df
    /\ store_signs from_dataframe_row accepts df batch_size stored
       = store_loop from_dataframe_row accepts df_batches stored 0%Z.
Proof.
  intros H. destruct (batches_spec df batch_size H) as (bs & E & Hc & _).
  exists bs. split; [exact Hc|]. unfold store_signs, floordiv.
  assert (E0 : (batch_size =? 0)%Z = false) by lia.
  rewrite E0. cbn [and_then]. rewrite E. reflexivity.
Qed.

Lemma store_signs_accepting
        (df : list (parsed_row C)) (batch_size : Z) (stored : list S) :
  (0 < batch_size)%Z ->
  (forall held signs, accepts held signs = true) ->
  store_signs from_dataframe_row accepts df batch_size stored
  = ((stored ++ map from_dataframe_row (filter has_coordinates df))%list,
     Done (Z.of_nat (length (filter has_coordinates df)))).
Proof.
  intros Hb Ha.
  destruct (store_signs_batches df batch_size stored Hb) as (bs & Hc & ->).
  rewrite (store_loop_accepting bs Ha), Hc, signs_of_length. reflexivity.
Qed.

(** With a positive batch size and a database that takes every batch,
    the signs stored are those of the rows that have both coordinates, in
    the order of the frame, after what the database held; their number is
    returned. Neither depends on the batch size. *)
Theorem store_signs_keeps_rows_with_coordinates
        (df : list (parsed_row C)) (batch_size : Z) (stored : list S) :
  (0 < batch_size)%Z ->
  (forall held signs, accepts held signs = true) ->
  store_signs from_dataframe_row accepts df batch_size stored
  = ((stored ++ map from_dataframe_row (filter has_coordinates df))%list,
     Done (Z.of_nat (length (filter has_coordinates df)))).
Proof.
  apply store_signs_accepting.
Qed.


(** A batch size of zero ends in a division by zero and a negative one
    returns 0: in both cases nothing is stored, whatever the frame. *)
Theorem store_signs_without_batches
        (df : list (parsed_row C)) (batch_size : Z) (stored : list S) :
  (batch_size <= 0)%Z ->
  store_signs from_dataframe_row accepts df batch_size stored
  = (stored,
     if (batch_size =? 0)%Z then Fail ZeroDivisionError else Done 0%Z).
Proof.
  intros Hb. unfold store_signs, floordiv.
  destruct (Z.eqb_spec batch_size 0) as [->|Hne]; [reflexivity|].
  cbn [and_then]. unfold batches, range0.
  assert (E : (batch_size =? 0)%Z = false) by lia. rewrite E.
  assert (R : range_loop (Z.abs_nat (Z.of_nat (length df))) 0
                         (Z.of_nat (length df)) batch_size = []).
  { destruct (Z.abs_nat (Z.of_nat (length df))); [reflexivity|].
    simpl. assert (E1 : (0 <? batch_size)%Z = false) by lia. rewrite E1.
    destruct (Z.ltb_spec (Z.of_nat (length df)) 0); [lia|reflexivity]. }
  rewrite R. reflexivity.
Qed.

Lemma parsed_rows_with_coordinates (df : list (sign_row C))
      (rows : list (parsed_row C)) :
  Forall2 (fun row p => parse_row row = Ok p) df rows ->
  map source (filter has_coordinates rows)
  = filter (fun row => match Latitude row, Longitude row with
                       | Some _, Some _ => true
                       | _, _ => false
                       end) df.
Proof.
  induction 1 as [|row p df rows Hp _ IH]; [reflexivity|].
  assert (Hs : source p = row).
  { unfold parse_row in Hp.
    destruct (parse_restriction (DESCRIPTION_RPA row)); [|discriminate].
    injection Hp as <-. reflexivity. }
  simpl. unfold has_coordinates at 1. rewrite Hs.
  destruct (Latitude row), (Longitude row); simpl; rewrite ?Hs, IH;
    reflexivity.
Qed.

(** The import of a table, from the frame to the database: for a frame
    with no row the command stops before parsing and stores nothing; for
    any other frame, any number of processors and a database that takes
    every batch it never raises, it stores one sign per row that has both
    coordinates, made from the parsed row, in the order of the frame, and
    the number it prints is the number of these rows. *)
Theorem import_stores_rows_with_coordinates (cpu_count : option N)
        (df : list (sign_row C)) (stored : list S) :
  (forall held signs, accepts held signs = true) ->
  exists rows,
    Forall2 (fun row p => parse_row row = Ok p) df rows
    /\ map source (filter has_coordinates rows)
       = filter (fun row => match Latitude row, Longitude row with
                            | Some _, Some _ => true
                            | _, _ => false
                            end) df
    /\ import_data_command from_dataframe_row accepts cpu_count df stored
       = match df with
         | [] => (stored, Done None)
         | _ :: _ =>
             ((stored
               ++ map from_dataframe_row (filter has_coordinates rows))%list,
              Done (Some (Z.of_nat (length (filter has_coordinates rows)))))
         end.
Proof.
  intros Ha.
  destruct (parallel_rows cpu_count df) as (rows & _ & HF & E).
  exists rows. split; [exact HF|].
  split; [exact (parsed_rows_with_coordinates df rows HF)|].
  unfold import_data_command. destruct df as [|row df]; [reflexivity|].
  rewrite E.
  rewrite (store_signs_accepting rows 1000 stored ltac:(lia) Ha).
  reflexivity.
Qed.

End Generic.

Lemma import_stores_rows_with_coordinates_witness :
  exists rows,
    Forall2 (fun row p => parse_row row = Ok p) StreetSamples.table rows
    /\ map source (filter has_coordinates rows)
       = filter (fun row => match Latitude row, Longitude row with
                            | Some _, Some _ => true
                            | _, _ => false
                            end) StreetSamples.table
    /\ import_data_command (fun p => ID_PANNEAU (source p))
                           (fun _ _ => true) (Some 8%N) StreetSamples.table
                           ["P0"]
       = ((["P0"]
           ++ map (fun p => ID_PANNEAU (source p))
                  (filter has_coordinates rows))%list,
          Done (Some (Z.of_nat (length (filter has_coordinates rows))))).
Proof.
  apply (import_stores_rows_with_coordinates
           (fun p => ID_PANNEAU (source p)) (fun _ _ => true) (Some 8%N)
           StreetSamples.table ["P0"]).
  reflexivity.
Defined.

Lemma store_signs_keeps_rows_with_coordinates_witness :
  store_signs (fun p => ID_PANNEAU (source p)) (fun _ _ => true)
              (map StreetSamples.parsed StreetSamples.table) 2 ["P0"]
  = (["P0"; "P1"; "P3"], Done 2%Z).
Proof.
  apply (store_signs_keeps_rows_with_coordinates
           (fun p => ID_PANNEAU (source p)) (fun _ _ => true)
           (map StreetSamples.parsed StreetSamples.table) 2 ["P0"]).
  - lia.
  - reflexivity.
Defined.


Lemma store_signs_without_batches_witness :
  store_signs (fun p => ID_PANNEAU (source p)) (fun _ _ => true)
              (map StreetSamples.parsed StreetSamples.table) (-5) ["P0"]
  = (["P0"], Done 0%Z).
Proof.
  apply (store_signs_without_batches
           (fun p => ID_PANNEAU (source p)) (fun _ _ => true)
           (map StreetSamples.parsed StreetSamples.table) (-5) ["P0"]).
  lia.
Defined.

End StoreFacts.
